(** * sugarshock offline cache: the service worker, embedded and verified

    A shallow embedding of [src/service-worker.js]: the manifest parser
    ([parseAssetIndexEntry], [fetchAssetIndex]), the synchronization
    coordinator ([updateOfflineAsset], [refreshCache],
    [synchronizedRefreshCache]) and the request interceptor (the [fetch]
    listener); and of the manager that the page runs
    ([initServiceWorkerManager]), which registers the worker and wipes its
    stores.

    JavaScript strings are modelled as [string], the IndexedDB object store
    and the Cache Storage cache as [gmap]s (by key path and by request URL),
    promises by how they end.  The browser is an environment record: it
    fixes the URL arithmetic of the scope and says which network and
    IndexedDB calls fail.  The tasks that [Promise.all] joins touch
    different keys; they are run one after the other, each to its end.
    A request handler and a refresh cycle are each run as one step of the
    worker.

    The definitions come first, then the theorems: string primitives and
    the parser, one refresh cycle phase by phase (convergence, idempotence,
    eviction, failures), and the worker as a transition system (single
    flight, requests during a refresh, the entry-point check). *)

From stdpp Require Import base option list gmap strings sorting.
From Stdlib Require Import ZArith Lia Ascii String.

Open Scope string_scope.
Open Scope Z_scope.

(** ** JavaScript string primitives used by the worker *)

Module JsString.

(** The line feed character, written ['\n'] in the source. *)
Definition LF : ascii := "010"%char.

(** The backslash character, written ['\\'] in the source. *)
Definition BSL : ascii := "\"%char.

Definition len (s : string) : Z := Z.of_nat (String.length s).

(** [s.indexOf(pat)], counting from [i]: first position at which [pat]
    occurs, [-1] when there is none. *)
Fixpoint indexOfFrom (pat s : string) (i : Z) : Z :=
  if String.prefix pat s then i
  else match s with
       | EmptyString => -1
       | String _ s' => indexOfFrom pat s' (i + 1)
       end.

Definition indexOf (s pat : string) : Z := indexOfFrom pat s 0.

(** An index argument of [slice]: negative indices count from the end,
    and everything is clamped to [0 .. length]. *)
Definition relIndex (n i : Z) : Z :=
  if i <? 0 then Z.max (n + i) 0 else Z.min i n.

(** [s.slice(start, stop)]. *)
Definition slice (s : string) (start stop : Z) : string :=
  let from := relIndex (len s) start in
  let to := relIndex (len s) stop in
  String.substring (Z.to_nat from) (Z.to_nat (Z.max (to - from) 0)) s.

(** [s.slice(start)]. *)
Definition sliceFrom (s : string) (start : Z) : string :=
  slice s start (len s).

(** [s.charAt(0)]: a string of length one, or the empty string. *)
Definition charAt0 (s : string) : string :=
  match s with
  | EmptyString => EmptyString
  | String c _ => String c EmptyString
  end.

(** [s.startsWith(p)]. *)
Definition startsWith (s p : string) : bool := String.prefix p s.

(** [s.includes(p)]. *)
Fixpoint includes (s p : string) : bool :=
  String.prefix p s ||
  match s with
  | EmptyString => false
  | String _ s' => includes s' p
  end.

(** [s.replaceAll(pat, rep)] for a non-empty string pattern: matches are
    found left to right and do not overlap.  [skip] counts the characters
    of the current match that are still to be dropped. *)
Fixpoint replaceAllFrom (pat rep : string) (skip : nat) (s : string) : string :=
  match s with
  | EmptyString => EmptyString
  | String c s' =>
      match skip with
      | S k => replaceAllFrom pat rep k s'
      | O =>
          if String.prefix pat s
          then rep ++ replaceAllFrom pat rep (String.length pat - 1) s'
          else String c (replaceAllFrom pat rep 0 s')
      end
  end.

Definition replaceAll (s pat rep : string) : string :=
  replaceAllFrom pat rep 0 s.

(** [s.split(sep)] for a one-character separator. *)
Fixpoint split1 (sep : ascii) (s : string) : list string :=
  match s with
  | EmptyString => [EmptyString]
  | String c s' =>
      if Ascii.eqb c sep then EmptyString :: split1 sep s'
      else match split1 sep s' with
           | [] => [String c EmptyString]
           | w :: ws => String c w :: ws
           end
  end.

End JsString.

(** ** The manifest parser *)

Module Parser.
Import JsString.

(** One manifest entry, [{ hash, path }]. *)
Record AssetEntry : Type := mkEntry { hash : string; path : string }.

(** The two un-escape passes of line 303, in source order. *)
Definition unescapePath (p : string) : string :=
  replaceAll (replaceAll p (String BSL "n") (String LF ""))
             (String BSL (String BSL "")) (String BSL "").

(** The path segment before any decoding, [line.slice(delimiterIndex + 2)]. *)
Definition rawPath (line : string) : string :=
  sliceFrom line (indexOf line "  " + 2).

(** [parseAssetIndexEntry], lines 297-309. *)
Definition parseAssetIndexEntry (line : string) : AssetEntry :=
  let delimiterIndex := indexOf line "  " in
  let hash0 := slice line 0 delimiterIndex in
  let path0 := sliceFrom line (delimiterIndex + 2) in
  let '(hash1, path1) :=
    if String.eqb (charAt0 line) (String BSL "")
    then (sliceFrom hash0 1, unescapePath path0)
    else (hash0, path0) in
  let path2 := if startsWith path1 "./" then path1 else "./" ++ path1 in
  {| hash := hash1; path := path2 |}.

End Parser.


(** ** The platform: what the browser answers to the worker *)

Module Platform.

(** A response body held by the cache; opaque to the worker. *)
Definition Body : Type := string.

(** The part of an HTTP response that [fetchAssetIndex] looks at.
    [bytes] is what [await response.bytes()] gives: [None] when the call
    throws or the promise is rejected (the body cannot be read, or the
    browser has no such method). *)
Record HttpResponse : Type := mkResponse {
  ok : bool;
  bytes : option Body;
  lastModifiedHeader : option string
}.

(** One activation of the worker's code runs against an environment that
    fixes the URL arithmetic of the scope and says how each platform call
    ends.  A [true] fault flag means that the request fires [error].  The
    calls of Cache Storage other than the fetch made by [cache.add]
    ([open], [match], [keys], [delete]) are taken to succeed. *)
Record Env : Type := mkEnv {
  (** [new URL(self.registration.scope).pathname] *)
  scopePath : string;
  (** [new URL(path, self.registration.scope).href], which is also the URL
      of the request that [cache.add(path)] makes: the worker script is
      registered next to its scope. *)
  resolveUrl : string -> string;
  (** [new URL(url).pathname] *)
  pathname : string -> string;
  (** [fetch('./assets/offline-index.txt')] with the given
      [If-Modified-Since] header; [None] when the fetch throws. *)
  fetchManifest : option string -> option HttpResponse;
  (** [await crypto.subtle.digest('SHA-256', bytes)], as a byte sequence;
      [None] when the promise is rejected. *)
  sha256 : Body -> option (list N);
  (** [new TextDecoder().decode(bytes)]: the text of a UTF-8 byte
      sequence, without a leading byte order mark. *)
  decode : Body -> string;
  (** The fetch made by [cache.add(path)]; [None] when it rejects
      (network error or a response that is not ok). *)
  fetchAsset : string -> option Body;
  (** [indexedDB.open] fires [error]. *)
  openFails : bool;
  (** [store.get(key)] fires [error]. *)
  getFails : string -> bool;
  (** [store.put(value)] fires [error], by key. *)
  putFails : string -> bool;
  (** [store.delete(key)] fires [error]. *)
  deleteFails : string -> bool;
  (** [store.getAllKeys()] fires [error]. *)
  getAllKeysFails : bool;
  (** [store.clear()] fires [error]. *)
  clearFails : bool
}.

(** How a promise ends.  [Pending] is a promise that is never settled. *)
Inductive Outcome : Type := Fulfilled | Rejected | Pending.

(** An open connection to the index database. *)
Inductive IDBDatabase : Type := Db.

(** The object store ['asset']. *)
Inductive IDBObjectStore : Type := AssetStore.

(** The request an IndexedDB event is fired at: [event.target]. *)
Record IDBRequest : Type := mkRequest { source : IDBObjectStore }.

(** The [success] and [error] events of an [IDBRequest] are plain DOM
    [Event]s.  The request, with its [result], [error] and [source], is
    reached through [target]. *)
Record Event : Type := mkEvent { target : IDBRequest }.

(** [event.source]: the DOM [Event] interface has no such member, so the
    read yields [undefined]. *)
Definition eventSource (event : Event) : option IDBObjectStore := None.

End Platform.

(** ** The manifest fetcher *)

Module Fetcher.
Import JsString Parser Platform.

(** The parsed manifest, [{ hash, lastModified, entries }]. *)
Record AssetIndex : Type := mkIndex {
  indexHash : string;
  lastModified : option string;
  entries : list AssetEntry
}.

Definition hexDigit (n : N) : ascii :=
  match n with
  | 0%N => "0" | 1%N => "1" | 2%N => "2" | 3%N => "3"
  | 4%N => "4" | 5%N => "5" | 6%N => "6" | 7%N => "7"
  | 8%N => "8" | 9%N => "9" | 10%N => "a" | 11%N => "b"
  | 12%N => "c" | 13%N => "d" | 14%N => "e" | _ => "f"
  end%char.

(** [n.toString(16).padStart(2, '0')] for a byte. *)
Definition byteHex (n : N) : string :=
  String (hexDigit (N.div n 16)) (String (hexDigit (N.modulo n 16)) "").

(** [toHex], lines 315-321. *)
Definition toHex (arrayBuffer : list N) : string :=
  String.concat "" (map byteHex arrayBuffer).

(** JavaScript truthiness of an optional string. *)
Definition truthy (v : option string) : bool :=
  match v with
  | Some s => negb (String.eqb s "")
  | None => false
  end.

(** [fetchAssetIndex], lines 255-292.  Every failure, thrown or not,
    ends in [null] and is not logged: the [catch] of line 289 covers the
    fetch, the read of the body and the digest, which is awaited at
    line 284. *)
Definition fetchAssetIndex (E : Env) (lastModified : option string)
  : option AssetIndex :=
  let ifModifiedSince := if truthy lastModified then lastModified else None in
  match fetchManifest E ifModifiedSince with
  | None => None
  | Some response =>
      if negb (ok response) then None
      else
        match bytes response with
        | None => None
        | Some utf8Text =>
            let indexHash := sha256 E utf8Text in
            let text := decode E utf8Text in
            let index :=
              map parseAssetIndexEntry
                  (filter (fun line => 0 < len line) (split1 LF text)) in
            let index' :=
              match List.find (fun e => String.eqb (path e) "./index.html")
                              index with
              | Some indexHtmlEntry =>
                  {| hash := hash indexHtmlEntry; path := "./" |} :: index
              | None => index
              end in
            match indexHash with
            | None => None
            | Some digest =>
                Some {| indexHash := toHex digest;
                        lastModified := lastModifiedHeader response;
                        entries := index' |}
            end
        end
  end.

End Fetcher.

(** ** The two stores *)

Module Store.
Import Parser Platform Fetcher.

Definition IDB_KEY_OFFLINE_INDEX : string := "offline-index.txt".

(** A record of the object store ['asset'], keyed by [path].  Asset
    records come from manifest entries and have no [lastModified]; the
    record under [IDB_KEY_OFFLINE_INDEX] is the sentinel. *)
Record IndexRecord : Type := mkRecord {
  recPath : string;
  recHash : string;
  recLastModified : option string
}.

(** The record that [idbPut(db, IDB_STORE_ASSET, entry)] stores. *)
Definition entryRecord (entry : AssetEntry) : IndexRecord :=
  {| recPath := path entry; recHash := hash entry; recLastModified := None |}.

(** The record written at lines 139-143. *)
Definition sentinelRecord (assetIndex : AssetIndex) : IndexRecord :=
  {| recPath := IDB_KEY_OFFLINE_INDEX;
     recHash := indexHash assetIndex;
     recLastModified := lastModified assetIndex |}.

(** What the worker can change: the index (object store, by key path),
    the blob cache (by request URL), the console's error log, and the
    asset requests sent to the network by [cache.add], oldest first. *)
Record St : Type := mkSt {
  index : gmap string IndexRecord;
  cache : gmap string Body;
  log : list string;
  fetched : list string
}.

Definition emptySt : St :=
  {| index := ∅; cache := ∅; log := []; fetched := [] |}.

Definition setIndex (i : gmap string IndexRecord) (s : St) : St :=
  {| index := i; cache := cache s; log := log s; fetched := fetched s |}.

Definition setCache (c : gmap string Body) (s : St) : St :=
  {| index := index s; cache := c; log := log s; fetched := fetched s |}.

(** [console.error(msg, error)]. *)
Definition consoleError (msg : string) (s : St) : St :=
  {| index := index s; cache := cache s; log := log s ++ [msg];
     fetched := fetched s |}.

Definition noteFetch (p : string) (s : St) : St :=
  {| index := index s; cache := cache s; log := log s;
     fetched := fetched s ++ [p] |}.

(** [idbGet], lines 197-209, read from the records [known]: [None] is a
    rejected promise, [Some None] resolves to [undefined]. *)
Definition idbGet (E : Env) (known : gmap string IndexRecord) (key : string)
  : option (option IndexRecord) :=
  if getFails E key then None else Some (known !! key).

(** [idbPut], lines 217-229: [None] is a rejected promise. *)
Definition idbPut (E : Env) (value : IndexRecord) (s : St) : option St :=
  if putFails E (recPath value) then None
  else Some (setIndex (<[recPath value := value]> (index s)) s).

(** [idbDelete], lines 238-250: [None] is a rejected promise. *)
Definition idbDelete (E : Env) (key : string) (s : St) : option St :=
  if deleteFails E key then None
  else Some (setIndex (delete key (index s)) s).

(** [cache.add(path)]: fetch, then store under the request URL. *)
Definition cacheAdd (E : Env) (p : string) (s : St) : option St :=
  match fetchAsset E p with
  | None => None
  | Some body => Some (setCache (<[resolveUrl E p := body]> (cache s)) s)
  end.

(** The order of IndexedDB keys that are strings: by code unit. *)
Definition keyLe (a b : string) : Prop := String.leb a b = true.

#[global] Instance keyLe_dec (a b : string) : Decision (keyLe a b) :=
  decide (String.leb a b = true).

(** [store.getAllKeys()], line 79: the keys of the records, in ascending
    order. *)
Definition getAllKeys (index : gmap string IndexRecord) : list string :=
  merge_sort keyLe (elements (dom index)).

(** ['./' + new URL(request.url).pathname.slice(scopePath.length)],
    line 133. *)
Definition derivedPath (E : Env) (url : string) : string :=
  "./" ++ JsString.sliceFrom (pathname E url) (JsString.len (scopePath E)).

End Store.

(** ** The synchronization coordinator *)

Module Coordinator.
Import Parser Platform Fetcher Store.

(** [currentEntry?.hash === entry.hash], line 156. *)
Definition sameHash (currentEntry : option IndexRecord) (entry : AssetEntry)
  : bool :=
  match currentEntry with
  | Some r => String.eqb (recHash r) (hash entry)
  | None => false
  end.

(** [updateOfflineAsset], lines 154-163.  The boolean is [true] when the
    returned promise is fulfilled.  [known] holds the records that the
    [idbGet] of line 155 reads: every task of step 4 issues this read
    inside the [map] call of line 113, before any task writes. *)
Definition updateOfflineAsset (E : Env) (known : gmap string IndexRecord)
    (entry : AssetEntry) (s : St) : bool * St :=
  match idbGet E known (path entry) with
  | None => (false, s)
  | Some currentEntry =>
      if sameHash currentEntry entry then (true, s)
      else
        let s1 := noteFetch (path entry) s in
        match cacheAdd E (path entry) s1 with
        | None => (false, s1)
        | Some s2 =>
            match idbPut E (entryRecord entry) s2 with
            | None => (false, s2)
            | Some s3 => (true, s3)
            end
        end
  end.

(** Step 4, lines 112-116: one [updateOfflineAsset] task per entry.
    Every task runs to its end whether or not another one fails; the
    boolean says whether [Promise.all] is fulfilled. *)
Fixpoint updateAll (E : Env) (known : gmap string IndexRecord)
    (entries : list AssetEntry) (s : St) : bool * St :=
  match entries with
  | [] => (true, s)
  | entry :: rest =>
      let '(ok1, s1) := updateOfflineAsset E known entry s in
      let '(ok2, s2) := updateAll E known rest s1 in
      (ok1 && ok2, s2)
  end.

(** The [error] listener of the [getAllKeys] request, lines 86-98, for
    a given value of [event.source].  [None] as result: the promise of
    line 76 is never settled, because the listener throws ([store] is
    [undefined], or [reject] is not bound: the executor of line 76 only
    names [resolve]). *)
Definition onGetAllKeysError (E : Env) (store : option IDBObjectStore)
    (s : St) : option (list string) * St :=
  let s1 := consoleError "Failed to retrieve known asset entries:" s in
  match store with
  | None => (None, s1)
  | Some _ =>
      if clearFails E
      then (None, consoleError "Failed to clear asset store:" s1)
      else (Some [], setIndex ∅ s1)
  end.

(** Lines 76-99: the keys of the index, [previouslyKnownEntries]. *)
Definition readKnownEntries (E : Env) (s : St) : option (list string) * St :=
  if getAllKeysFails E
  then onGetAllKeysError E
         (eventSource {| target := {| source := AssetStore |} |}) s
  else (Some (getAllKeys (index s)), s).

(** Step 3, lines 100-110: drop index records whose body is gone. *)
Fixpoint pruneMissing (E : Env) (keys : list string) (s : St) : St :=
  match keys with
  | [] => s
  | p :: rest =>
      let s1 :=
        match cache s !! resolveUrl E p with
        | Some _ => s
        | None =>
            match idbDelete E p s with
            | Some s' => s'
            | None =>
                consoleError
                  ("Failed to delete asset index entry for missing cache entry ("
                     ++ p ++ "):") s
            end
        end in
      pruneMissing E rest s1
  end.

(** [knownPaths.has(p)], line 118. *)
Definition knownPath (assetIndex : AssetIndex) (p : string) : bool :=
  bool_decide (p ∈ map path (entries assetIndex)).

(** Step 5, lines 119-129: drop index records of paths that left the
    manifest. *)
Fixpoint deleteObsolete (E : Env) (assetIndex : AssetIndex)
    (keys : list string) (s : St) : St :=
  match keys with
  | [] => s
  | p :: rest =>
      let s1 :=
        if knownPath assetIndex p then s
        else
          match idbDelete E p s with
          | Some s' => s'
          | None =>
              consoleError
                ("Failed to delete obsolete asset index entry (" ++ p ++ "):") s
          end in
      deleteObsolete E assetIndex rest s1
  end.

(** Step 6, lines 130-137: drop cached bodies of paths that left the
    manifest. *)
Fixpoint evictCache (E : Env) (assetIndex : AssetIndex)
    (cacheKeys : list string) (s : St) : St :=
  match cacheKeys with
  | [] => s
  | url :: rest =>
      let s1 :=
        if knownPath assetIndex (derivedPath E url) then s
        else setCache (delete url (cache s)) s in
      evictCache E assetIndex rest s1
  end.

(** [refreshCache], lines 66-146. *)
Definition refreshCache (E : Env) (cachedAssetIndex : option AssetIndex)
    (offlineAssetIndexDB : option IDBDatabase) (s : St) : Outcome * St :=
  let assetIndex :=
    match cachedAssetIndex with
    | Some a => Some a
    | None => fetchAssetIndex E None
    end in
  let offlineAssetIndex :=
    match offlineAssetIndexDB with
    | Some db => Some db
    | None => if openFails E then None else Some Db
    end in
  match offlineAssetIndex with
  | None => (Rejected, s)
  | Some _ =>
      match assetIndex with
      | None => (Fulfilled, s)
      | Some assetIndex =>
          match readKnownEntries E s with
          | (None, s1) => (Pending, s1)
          | (Some previouslyKnownEntries, s1) =>
              let s2 := pruneMissing E previouslyKnownEntries s1 in
              match updateAll E (index s2) (entries assetIndex) s2 with
              | (false, s3) => (Rejected, s3)
              | (true, s3) =>
                  let s4 := deleteObsolete E assetIndex previouslyKnownEntries s3 in
                  let s5 := evictCache E assetIndex (elements (dom (cache s4))) s4 in
                  match idbPut E (sentinelRecord assetIndex) s5 with
                  | None => (Rejected, s5)
                  | Some s6 => (Fulfilled, s6)
                  end
              end
          end
      end
  end.

End Coordinator.

(** ** The worker: single-flight refresh and the request interceptor *)

Module Worker.
Import JsString Parser Platform Fetcher Store Coordinator.

(** One call of [refreshCache]: the promise it returned, named by a
    number, and the arguments it was called with. *)
Record Cycle : Type := mkCycle {
  cycleId : nat;
  cycleIndex : option AssetIndex;
  cycleDb : option IDBDatabase
}.

(** The worker's global state.  [refreshCachePromise] is the variable of
    line 7.  [started] lists the cycles begun so far, newest first,
    [settled] those whose promise has settled; [catchers] counts the
    [catch] handlers of line 39 that wait for the cycle in flight. *)
Record W : Type := mkW {
  refreshCachePromise : option Cycle;
  started : list nat;
  settled : list nat;
  catchers : nat;
  store : St
}.

Definition initial (s : St) : W :=
  {| refreshCachePromise := None; started := []; settled := [];
     catchers := 0; store := s |}.

(** [synchronizedRefreshCache], lines 52-60: the promise whose outcome
    the caller receives, and the worker afterwards. *)
Definition synchronizedRefreshCache (cachedAssetIndex : option AssetIndex)
    (offlineAssetIndexDB : option IDBDatabase) (w : W) : nat * W :=
  match refreshCachePromise w with
  | None =>
      let c := {| cycleId := List.length (started w);
                  cycleIndex := cachedAssetIndex;
                  cycleDb := offlineAssetIndexDB |} in
      (cycleId c,
       {| refreshCachePromise := Some c;
          started := cycleId c :: started w;
          settled := settled w;
          catchers := catchers w;
          store := store w |})
  | Some c => (cycleId c, w)
  end.

(** The cycles that were started and have not settled. *)
Definition outstanding (w : W) : list nat :=
  filter (fun i => i ∉ settled w) (started w).

Definition setStore (s : St) (w : W) : W :=
  {| refreshCachePromise := refreshCachePromise w; started := started w;
     settled := settled w; catchers := catchers w; store := s |}.

Definition addCatcher (w : W) : W :=
  {| refreshCachePromise := refreshCachePromise w; started := started w;
     settled := settled w; catchers := S (catchers w); store := store w |}.

(** Where the response of a request comes from. *)
Inductive Served : Type :=
| FromNetwork
| FromCache (body : Body).

(** The platform calls a request handler makes, in order. *)
Inductive Action : Type :=
| NetFetch (url : string)
| IdbOpen
| IdbGet (key : string)
| IdbClose
| ManifestFetch (ifModifiedSince : option string)
| Refresh (promise : nat)
| CacheMatch (url : string).

(** Line 48: [(await caches.match(request)) ?? fetch(event.request)]. *)
Definition cacheOrNetwork (url : string) (w : W) : Served * list Action :=
  match cache (store w) !! url with
  | Some body => (FromCache body, [CacheMatch url])
  | None => (FromNetwork, [CacheMatch url; NetFetch url])
  end.

(** Line 26: the request is for the scope root or its document. *)
Definition isEntryPoint (E : Env) (url : string) : bool :=
  let rel := sliceFrom (pathname E url) (len (scopePath E)) in
  String.eqb rel "" || String.eqb rel "index.html".

(** Lines 29-34: the handle and the sentinel read inside [try]. *)
Definition readSentinel (E : Env) (w : W)
  : option IDBDatabase * option IndexRecord * list Action * W :=
  if openFails E
  then (None, None, [IdbOpen],
        setStore (consoleError "Failed to retrieve offline index entry:" (store w)) w)
  else
    match idbGet E (index (store w)) IDB_KEY_OFFLINE_INDEX with
    | None =>
        (Some Db, None, [IdbOpen; IdbGet IDB_KEY_OFFLINE_INDEX],
         setStore (consoleError "Failed to retrieve offline index entry:" (store w)) w)
    | Some cachedIndex =>
        (Some Db, cachedIndex, [IdbOpen; IdbGet IDB_KEY_OFFLINE_INDEX], w)
    end.

(** [assetIndex.hash !== cachedIndex?.hash], line 37. *)
Definition hashDiffers (assetIndex : AssetIndex) (cachedIndex : option IndexRecord)
  : bool :=
  match cachedIndex with
  | Some r => negb (String.eqb (indexHash assetIndex) (recHash r))
  | None => true
  end.

(** [cachedIndex?.lastModified], line 36. *)
Definition lastModifiedOf (cachedIndex : option IndexRecord) : option string :=
  match cachedIndex with
  | Some r => recLastModified r
  | None => None
  end.

(** The [If-Modified-Since] value that [fetchAssetIndex] sends. *)
Definition conditional (lm : option string) : option string :=
  if truthy lm then lm else None.

(** The [fetch] listener, lines 16-50, run without another event in
    between: the response's origin, the platform calls made, and the
    worker afterwards. *)
Definition onFetch (E : Env) (url : string) (w : W)
  : Served * list Action * W :=
  match refreshCachePromise w with
  | Some _ => (FromNetwork, [NetFetch url], w)
  | None =>
      if isEntryPoint E url then
        let '(offlineAssetIndexDB, cachedIndex, acts, w1) := readSentinel E w in
        match offlineAssetIndexDB with
        | None =>
            let '(r, acts') := cacheOrNetwork url w1 in (r, (acts ++ acts')%list, w1)
        | Some db =>
            let lm := lastModifiedOf cachedIndex in
            let acts1 := (acts ++ [ManifestFetch (conditional lm)])%list in
            match fetchAssetIndex E lm with
            | Some assetIndex =>
                if hashDiffers assetIndex cachedIndex then
                  let '(p, w2) :=
                    synchronizedRefreshCache (Some assetIndex) (Some db) w1 in
                  (FromNetwork, (acts1 ++ [Refresh p; NetFetch url])%list, addCatcher w2)
                else
                  let '(r, acts') := cacheOrNetwork url w1 in
                  (r, (acts1 ++ [IdbClose] ++ acts')%list, w1)
            | None =>
                let '(r, acts') := cacheOrNetwork url w1 in
                (r, (acts1 ++ [IdbClose] ++ acts')%list, w1)
            end
        end
      else
        let '(r, acts) := cacheOrNetwork url w in (r, acts, w)
  end.

(** The cycle in flight runs to its end under [E]; when its promise
    settles, the [finally] callback of lines 55-57 clears
    [refreshCachePromise] and each [catch] handler of line 39 logs a
    rejection.  A cycle whose promise stays pending keeps the variable
    set.  In the worker such a promise stays pending for good; here a
    later [Settle] runs the cycle once more, so the model has runs that
    the worker has not, and what holds of every run of the model holds of
    every run of the worker. *)
Definition settle (E : Env) (w : W) : W :=
  match refreshCachePromise w with
  | None => w
  | Some c =>
      let '(o, s) := refreshCache E (cycleIndex c) (cycleDb c) (store w) in
      match o with
      | Pending => setStore s w
      | Fulfilled =>
          {| refreshCachePromise := None; started := started w;
             settled := cycleId c :: settled w; catchers := 0; store := s |}
      | Rejected =>
          {| refreshCachePromise := None; started := started w;
             settled := cycleId c :: settled w; catchers := 0;
             store := Nat.iter (catchers w)
                        (consoleError "Failed to refresh offline cache:") s |}
      end
  end.

(** What happens to the worker. *)
Inductive WorkerEvent : Type :=
| Activate
| Fetch (E : Env) (url : string)
| Settle (E : Env).

Definition step (w : W) (ev : WorkerEvent) : W :=
  match ev with
  | Activate => snd (synchronizedRefreshCache None None w)
  | Fetch E url => snd (onFetch E url w)
  | Settle E => settle E w
  end.

Definition run (evs : list WorkerEvent) (w : W) : W := fold_left step evs w.

End Worker.

(** ** Vocabulary of the specification *)

Module SpecDefs.
Import JsString Parser Platform Fetcher Store Coordinator Worker.

(** Remove from a map every listed key that passes a test: the common
    shape of steps 3, 5 and 6. *)
Fixpoint deleteWhere {V : Type} (f : string -> bool) (keys : list string)
    (m : gmap string V) : gmap string V :=
  match keys with
  | [] => m
  | k :: rest => deleteWhere f rest (if f k then delete k m else m)
  end.

(** Step 3 removes the record of [p]: no body in the cache, and the
    delete request succeeds. *)
Definition pruned (E : Env) (c : gmap string Body) (p : string) : bool :=
  negb (bool_decide (is_Some (c !! resolveUrl E p))) && negb (deleteFails E p).

(** Step 5 removes the record of [p]. *)
Definition obsolete (E : Env) (assetIndex : AssetIndex) (p : string) : bool :=
  negb (knownPath assetIndex p) && negb (deleteFails E p).

(** Step 6 removes the body stored under [url]. *)
Definition evicted (E : Env) (assetIndex : AssetIndex) (url : string) : bool :=
  negb (knownPath assetIndex (derivedPath E url)).

(** The paths of a manifest. *)
Definition paths (assetIndex : AssetIndex) : list string :=
  map path (entries assetIndex).


(** No IndexedDB request fails and every asset of the manifest can be
    fetched. *)
Definition faultFree (E : Env) (assetIndex : AssetIndex) : Prop :=
  openFails E = false
  /\ getAllKeysFails E = false
  /\ (forall k, getFails E k = false)
  /\ (forall k, putFails E k = false)
  /\ (forall k, deleteFails E k = false)
  /\ (forall p, p ∈ paths assetIndex -> is_Some (fetchAsset E p)).

(** Two environments agree on the URL arithmetic of the scope. *)
Definition sameScope (E1 E2 : Env) : Prop :=
  scopePath E1 = scopePath E2
  /\ (forall p, resolveUrl E1 p = resolveUrl E2 p)
  /\ (forall u, pathname E1 u = pathname E2 u).

(** The stores mirror the manifest: every entry is recorded with its
    digest and has a body, nothing else is recorded or cached, and the
    sentinel holds the manifest's digest. *)
Definition converged (E : Env) (assetIndex : AssetIndex) (s : St) : Prop :=
  (forall e, e ∈ entries assetIndex ->
     (exists r, index s !! path e = Some r /\ recHash r = hash e)
     /\ is_Some (cache s !! resolveUrl E (path e)))
  /\ (forall k, is_Some (index s !! k) ->
        k ∈ paths assetIndex \/ k = IDB_KEY_OFFLINE_INDEX)
  /\ (forall u, is_Some (cache s !! u) ->
        derivedPath E u ∈ paths assetIndex)
  /\ index s !! IDB_KEY_OFFLINE_INDEX = Some (sentinelRecord assetIndex).

(** The first pass of line 303: backslash-n becomes a line feed. *)
Definition pass1 (s : string) : string :=
  replaceAll s (String BSL "n") (String LF "").

(** The second pass: two backslashes become one. *)
Definition pass2 (s : string) : string :=
  replaceAll s (String BSL (String BSL "")) (String BSL "").

(** The prefix normalization of lines 305-307. *)
Definition normalizePath (p : string) : string :=
  if startsWith p "./" then p else "./" ++ p.

(** The five ways a task of step 4 can end: outcome and state. *)
Inductive TaskEnd (E : Env) (known : gmap string IndexRecord)
    (entry : AssetEntry) (s : St) : bool -> St -> Prop :=
| ReadFailed :
    getFails E (path entry) = true ->
    TaskEnd E known entry s false s
| Skipped :
    getFails E (path entry) = false ->
    sameHash (known !! path entry) entry = true ->
    TaskEnd E known entry s true s
| FetchFailed :
    getFails E (path entry) = false ->
    sameHash (known !! path entry) entry = false ->
    fetchAsset E (path entry) = None ->
    TaskEnd E known entry s false (noteFetch (path entry) s)
| WriteFailed body :
    getFails E (path entry) = false ->
    sameHash (known !! path entry) entry = false ->
    fetchAsset E (path entry) = Some body ->
    putFails E (path entry) = true ->
    TaskEnd E known entry s false
      (setCache (<[resolveUrl E (path entry) := body]> (cache s))
                (noteFetch (path entry) s))
| Updated body :
    getFails E (path entry) = false ->
    sameHash (known !! path entry) entry = false ->
    fetchAsset E (path entry) = Some body ->
    putFails E (path entry) = false ->
    TaskEnd E known entry s true
      (setIndex (<[path entry := entryRecord entry]> (index s))
         (setCache (<[resolveUrl E (path entry) := body]> (cache s))
                   (noteFetch (path entry) s))).

(** Whether the task of [entry] is fulfilled: this depends on the
    platform and on the records read at line 155 only. *)
Definition taskOk (E : Env) (known : gmap string IndexRecord)
    (entry : AssetEntry) : bool :=
  negb (getFails E (path entry))
  && (sameHash (known !! path entry) entry
      || match fetchAsset E (path entry) with
         | Some _ => negb (putFails E (path entry))
         | None => false
         end).

(** The manifest a cycle works with: the one handed over, else the one
    fetched (line 68). *)
Definition resolvedIndex (E : Env) (cachedAssetIndex : option AssetIndex)
  : option AssetIndex :=
  match cachedAssetIndex with
  | Some a => Some a
  | None => fetchAssetIndex E None
  end.

(** The cycle obtains a database handle (line 70). *)
Definition dbAvailable (E : Env) (offlineAssetIndexDB : option IDBDatabase)
  : bool :=
  match offlineAssetIndexDB with
  | Some _ => true
  | None => negb (openFails E)
  end.

(** The state after step 3. *)
Definition afterPrune (E : Env) (s : St) : St :=
  pruneMissing E (getAllKeys (index s)) s.

(** The outcome and state of step 4. *)
Definition afterUpdate (E : Env) (a : AssetIndex) (s : St) : bool * St :=
  updateAll E (index (afterPrune E s)) (entries a) (afterPrune E s).

(** The state after steps 5 and 6. *)
Definition afterEvict (E : Env) (a : AssetIndex) (s : St) : St :=
  let s4 := deleteObsolete E a (getAllKeys (index s)) (snd (afterUpdate E a s)) in
  evictCache E a (elements (dom (cache s4))) s4.

(** Per-path failure isolation, read literally, for a cycle for [a] from
    the stores [s] in which the update of the entry [e] fails (its asset
    cannot be fetched or its record cannot be written): the failure is
    logged, the entry's record and body are what they were, the cycle
    still goes on to its last step (the sentinel is written) with every
    other entry recorded, and the entry's digest still mismatches. *)
Definition isolatedFailure (E : Env) (a : AssetIndex) (e : AssetEntry)
    (s : St) : Prop :=
  e ∈ entries a ->
  sameHash (index s !! path e) e = false ->
  fetchAsset E (path e) = None \/ putFails E (path e) = true ->
  let s' := snd (refreshCache E (Some a) None s) in
  (exists msg, msg ∈ log s' /\ msg ∉ log s)
  /\ index s' !! path e = index s !! path e
  /\ cache s' !! resolveUrl E (path e) = cache s !! resolveUrl E (path e)
  /\ index s' !! IDB_KEY_OFFLINE_INDEX = Some (sentinelRecord a)
  /\ (forall e', e' ∈ entries a -> e' <> e ->
        exists r, index s' !! path e' = Some r /\ recHash r = hash e')
  /\ sameHash (index s' !! path e) e = false.

(** The bookkeeping of cycles is consistent: cycle numbers are below the
    count of started cycles, only started cycles settle, and the cycles
    still outstanding are the one in [refreshCachePromise], if any. *)
Definition consistent (w : W) : Prop :=
  (forall i, i ∈ started w -> (i < List.length (started w))%nat)
  /\ (forall i, i ∈ settled w -> i ∈ started w)
  /\ outstanding w = match refreshCachePromise w with
                     | Some c => [cycleId c]
                     | None => []
                     end.

(** What the entry-point check reads as sentinel: nothing when the read
    fails. *)
Definition sentinelRead (E : Env) (w : W) : option IndexRecord :=
  if getFails E IDB_KEY_OFFLINE_INDEX then None
  else index (store w) !! IDB_KEY_OFFLINE_INDEX.

(** Fault tolerance of the entry-point check, read literally: when the
    index cannot be opened, the sentinel cannot be read or the manifest
    cannot be fetched, the error is logged, no refresh is triggered, and
    the request is served from the cache if present, else from the
    network. *)
Definition entryCheckTolerant (E : Env) (url : string) (w : W) : Prop :=
  isEntryPoint E url = true ->
  refreshCachePromise w = None ->
  openFails E = true
  \/ getFails E IDB_KEY_OFFLINE_INDEX = true
  \/ fetchAssetIndex E (lastModifiedOf (sentinelRead E w)) = None ->
  let '(r, _, w') := onFetch E url w in
  log (store w') <> log (store w)
  /\ refreshCachePromise w' = None
  /\ started w' = started w
  /\ r = fst (cacheOrNetwork url w).

End SpecDefs.

(** ** Concrete platforms and manifests *)

Module Fixtures.
Import JsString Parser Platform Fetcher Store Coordinator Worker.

(** A scope at [https://h/app/]: paths resolve below it and the path name
    of a URL is what follows the origin.  The manifests served on this
    platform are ASCII texts, which decode to themselves. *)
Definition appEnv : Env :=
  {| scopePath := "/app/";
     resolveUrl := fun p =>
       "https://h/app/" ++ (if startsWith p "./" then sliceFrom p 2 else p);
     pathname := fun u => sliceFrom u 9;
     fetchManifest := fun _ => None;
     sha256 := fun _ => Some [];
     decode := fun utf8Text => utf8Text;
     fetchAsset := fun p => Some ("body of " ++ p);
     openFails := false;
     getFails := fun _ => false;
     putFails := fun _ => false;
     deleteFails := fun _ => false;
     getAllKeysFails := false;
     clearFails := false |}.

Definition entryA : AssetEntry := {| hash := "h1"; path := "./a.js" |}.
Definition entryB : AssetEntry := {| hash := "h2"; path := "./b.css" |}.

Definition manifestAB : AssetIndex :=
  {| indexHash := "d0"; lastModified := Some "Mon, 01 Jan 2024 00:00:00 GMT";
     entries := [entryA; entryB] |}.

Definition manifestA : AssetIndex :=
  {| indexHash := "d1"; lastModified := Some "Tue, 02 Jan 2024 00:00:00 GMT";
     entries := [entryA] |}.

(** Stores that hold an older version of [./a.js]. *)
Definition staleA : St :=
  {| index := {[ "./a.js" := {| recPath := "./a.js"; recHash := "h0";
                                recLastModified := None |} ]};
     cache := {[ "https://h/app/a.js" := "old body" ]};
     log := [];
     fetched := [] |}.

(** The platform of [appEnv], except that writing the record of
    [./a.js] fails. *)
Definition putFaultEnv : Env :=
  {| scopePath := scopePath appEnv;
     resolveUrl := resolveUrl appEnv;
     pathname := pathname appEnv;
     fetchManifest := fetchManifest appEnv;
     sha256 := sha256 appEnv;
     decode := decode appEnv;
     fetchAsset := fetchAsset appEnv;
     openFails := false;
     getFails := fun _ => false;
     putFails := fun k => String.eqb k "./a.js";
     deleteFails := fun _ => false;
     getAllKeysFails := false;
     clearFails := false |}.

(** The platform of [appEnv], except that the object store is unreadable:
    reading the key list fails, and so would clearing the store. *)
Definition keysFaultEnv : Env :=
  {| scopePath := scopePath appEnv;
     resolveUrl := resolveUrl appEnv;
     pathname := pathname appEnv;
     fetchManifest := fetchManifest appEnv;
     sha256 := sha256 appEnv;
     decode := decode appEnv;
     fetchAsset := fetchAsset appEnv;
     openFails := false;
     getFails := fun _ => false;
     putFails := fun _ => false;
     deleteFails := fun _ => false;
     getAllKeysFails := true;
     clearFails := true |}.

(** The manifest of [manifestAB] on the wire. *)
Definition manifestText : string :=
  "h1  a.js" ++ String LF ("h2  b.css" ++ String LF "").

(** The platform of [appEnv], except that the manifest is served and
    reading the sentinel fails. *)
Definition sentinelFaultEnv : Env :=
  {| scopePath := scopePath appEnv;
     resolveUrl := resolveUrl appEnv;
     pathname := pathname appEnv;
     fetchManifest := fun _ =>
       Some {| ok := true; bytes := Some manifestText;
               lastModifiedHeader := Some "Mon, 01 Jan 2024 00:00:00 GMT" |};
     sha256 := fun _ => Some [208%N];
     decode := decode appEnv;
     fetchAsset := fetchAsset appEnv;
     openFails := false;
     getFails := fun k => String.eqb k IDB_KEY_OFFLINE_INDEX;
     putFails := fun _ => false;
     deleteFails := fun _ => false;
     getAllKeysFails := false;
     clearFails := false |}.

(** The platform of [appEnv] with a URL parser that percent-encodes the
    spaces of a path, as URL parsers do. *)
Definition encodingEnv : Env :=
  {| scopePath := scopePath appEnv;
     resolveUrl := fun p =>
       "https://h/app/"
       ++ replaceAll (if startsWith p "./" then sliceFrom p 2 else p) " " "%20";
     pathname := pathname appEnv;
     fetchManifest := fetchManifest appEnv;
     sha256 := sha256 appEnv;
     decode := decode appEnv;
     fetchAsset := fetchAsset appEnv;
     openFails := false;
     getFails := fun _ => false;
     putFails := fun _ => false;
     deleteFails := fun _ => false;
     getAllKeysFails := false;
     clearFails := false |}.

(** A manifest with a path that contains a space. *)
Definition manifestSpace : AssetIndex :=
  {| indexHash := "d2"; lastModified := None;
     entries := [ {| hash := "h3"; path := "./a b.js" |} ] |}.

(** The stores after a first cycle for [manifestAB]. *)
Definition convergedAB : St :=
  snd (refreshCache appEnv (Some manifestAB) None emptySt).

End Fixtures.

(** ** The parts of [fetchAssetIndex] and the names of the stores *)

Module ManifestText.
Import JsString Parser Platform Fetcher.

(** Lines 271-272: the lines of the manifest, empty ones dropped. *)
Definition manifestLines (text : string) : list string :=
  filter (fun line => 0 < len line) (split1 LF text).

(** Lines 275-281: the root entry put first when [./index.html] is
    listed. *)
Definition withRoot (index : list AssetEntry) : list AssetEntry :=
  match List.find (fun e => String.eqb (path e) "./index.html") index with
  | Some indexHtmlEntry =>
      {| hash := hash indexHtmlEntry; path := "./" |} :: index
  | None => index
  end.

(** Lines 271-281: the entries of the manifest whose text is [text]. *)
Definition manifestEntries (text : string) : list AssetEntry :=
  withRoot (map parseAssetIndexEntry (manifestLines text)).

(** A text file: every line followed by a line feed. *)
Definition unlines (ls : list string) : string :=
  String.concat "" (map (fun l => l ++ String LF "") ls).

End ManifestText.

Module Naming.

(** The name of the cache, line 69 of the worker and line 47 of the
    manager. *)
Definition cacheName (scopePath : string) : string :=
  "ioV9x-" ++ scopePath ++ "-offline-v1".

(** The name of the index database, line 170 of the worker and line 48 of
    the manager. *)
Definition dbName (scopePath : string) : string :=
  "ioV9x-" ++ scopePath ++ "-offline-index".

End Naming.

(** ** More vocabulary and platforms *)

Module MoreDefs.
Import JsString Parser Platform Fetcher Store Coordinator Worker SpecDefs.
Import Fixtures ManifestText.

(** The task of [entry] goes to the network: its read works and the
    record that step 3 left for its path is missing or carries another
    digest. *)
Definition needsFetch (E : Env) (s : St) (entry : AssetEntry) : bool :=
  negb (getFails E (path entry))
  && negb (sameHash (index (afterPrune E s) !! path entry) entry).

(** A manifest that lists the document of the scope. *)
Definition rootText : string :=
  unlines ["h0  index.html"; "h1  a.js"].

(** The platform of [appEnv] serving [rootText]. *)
Definition rootEnv : Env :=
  {| scopePath := scopePath appEnv;
     resolveUrl := resolveUrl appEnv;
     pathname := pathname appEnv;
     fetchManifest := fun _ =>
       Some {| ok := true; bytes := Some rootText;
               lastModifiedHeader := None |};
     sha256 := fun _ => Some [209%N];
     decode := decode appEnv;
     fetchAsset := fetchAsset appEnv;
     openFails := false;
     getFails := fun _ => false;
     putFails := fun _ => false;
     deleteFails := fun _ => false;
     getAllKeysFails := false;
     clearFails := false |}.

(** The platform of [appEnv] serving the manifest of [manifestAB]. *)
Definition servingEnv : Env :=
  {| scopePath := scopePath appEnv;
     resolveUrl := resolveUrl appEnv;
     pathname := pathname appEnv;
     fetchManifest := fun _ =>
       Some {| ok := true; bytes := Some manifestText;
               lastModifiedHeader := Some "Mon, 01 Jan 2024 00:00:00 GMT" |};
     sha256 := fun _ => Some [208%N];
     decode := decode appEnv;
     fetchAsset := fetchAsset appEnv;
     openFails := false;
     getFails := fun _ => false;
     putFails := fun _ => false;
     deleteFails := fun _ => false;
     getAllKeysFails := false;
     clearFails := false |}.

(** [manifestAB] after a new version of [./a.js] was published. *)
Definition manifestAB' : AssetIndex :=
  {| indexHash := "d3"; lastModified := Some "Wed, 03 Jan 2024 00:00:00 GMT";
     entries := [ {| hash := "h1b"; path := "./a.js" |}; entryB ] |}.

(** A manifest without entries. *)
Definition manifestNone : AssetIndex :=
  {| indexHash := "d4"; lastModified := None; entries := [] |}.

(** A manifest with a file name that holds a space, beside a plain one. *)
Definition manifestSpaced : AssetIndex :=
  {| indexHash := "d5"; lastModified := None;
     entries := [ {| hash := "h3"; path := "./a b.js" |};
                  {| hash := "h4"; path := "./c.js" |} ] |}.

(** The platform of [appEnv], except that [./a.js] cannot be fetched. *)
Definition fetchFaultEnv : Env :=
  {| scopePath := scopePath appEnv;
     resolveUrl := resolveUrl appEnv;
     pathname := pathname appEnv;
     fetchManifest := fetchManifest appEnv;
     sha256 := sha256 appEnv;
     decode := decode appEnv;
     fetchAsset := fun p =>
       if String.eqb p "./a.js" then None else fetchAsset appEnv p;
     openFails := false;
     getFails := fun _ => false;
     putFails := fun _ => false;
     deleteFails := fun _ => false;
     getAllKeysFails := false;
     clearFails := false |}.

(** Stores in which the body of [./a.js] was dropped by the browser and a
    record of a file that is in no manifest is left without body. *)
Definition driftedAB : St :=
  {| index := <["./old.js" := {| recPath := "./old.js"; recHash := "h9";
                                 recLastModified := None |}]>
                (index convergedAB);
     cache := delete "https://h/app/a.js" (cache convergedAB);
     log := [];
     fetched := [] |}.

End MoreDefs.

(** ** The manager of the page *)

Module Manager.

(** What the page offers: lines 2 and 5, and the path name of
    [new URL("./", location.href)], line 46. *)
Record Page : Type := mkPage {
  origin : string;
  isSecureContext : bool;
  hasServiceWorker : bool;
  locationScope : string
}.

(** The platform calls of the manager. *)
Inductive Call : Type :=
| ConsoleWarn (msg : string)
| ConsoleLog (msg cacheName dbName : string)
| ConsoleError
| AddToggle (name : string) (default : bool)
| Register (script scope : string)
| Unregister (registration : nat)
| CachesHas (name : string)
| CachesDelete (name : string)
| DeleteDatabase (name : string).

(** The variable [registration] of line 10 and the calls made so far. *)
Record M : Type := mkM {
  registration : option nat;
  calls : list Call
}.

Definition call (cs : list Call) (m : M) : M :=
  {| registration := registration m; calls := (calls m ++ cs)%list |}.

(** [cleanupCachedData], lines 44-62.  [caches.has] returns a promise,
    and a promise is truthy: line 52 runs whatever the promise resolves
    to.  The listeners of lines 56-61 only log. *)
Definition cleanupCachedData (P : Page) : list Call :=
  let scopePath := locationScope P in
  let cacheName := "ioV9x-" ++ scopePath ++ "-offline-v1" in
  let dbName := "ioV9x-" ++ scopePath ++ "-offline-index" in
  [ConsoleLog "Cleaning up cached data for offline mode." cacheName dbName;
   CachesHas cacheName;
   CachesDelete cacheName;
   DeleteDatabase dbName].

(** [onChange], lines 11-35, up to the call of [register]. *)
Definition onChange (P : Page) (value : bool) (m : M) : M :=
  if negb value then
    match registration m with
    | Some r =>
        {| registration := None;
           calls := (calls m ++ Unregister r :: cleanupCachedData P)%list |}
    | None => m
    end
  else call [Register "./service-worker.js" "./"] m.

(** The callback of lines 26-33, run when [register] is fulfilled with
    [registration_]; [offlineMode] is what [settings.offlineMode] holds
    then. *)
Definition onRegistered (P : Page) (offlineMode : bool) (registration_ : nat)
    (m : M) : M :=
  if negb offlineMode then call (Unregister registration_ :: cleanupCachedData P) m
  else {| registration := Some registration_; calls := calls m |}.

(** [initServiceWorkerManager], lines 1-42: the calls made, and whether
    the toggle was added. *)
Definition initServiceWorkerManager (P : Page) : list Call * bool :=
  if String.eqb (origin P) "null" || negb (isSecureContext P) then ([], false)
  else if negb (hasServiceWorker P)
  then ([ConsoleWarn "Service workers are not supported in this browser."], false)
  else ([AddToggle "offlineMode" false], true).

(** The state at line 10. *)
Definition start : M := {| registration := None; calls := [] |}.

(** What happens to the manager once the toggle is added: the setting
    calls [onChange] (at initialisation and at every change), a
    [register] promise is fulfilled, or it is rejected (line 34). *)
Inductive ManagerEvent : Type :=
| Changed (value : bool)
| Registered (offlineMode : bool) (registration_ : nat)
| RegisterFailed.

Definition stepM (P : Page) (m : M) (ev : ManagerEvent) : M :=
  match ev with
  | Changed value => onChange P value m
  | Registered offlineMode r => onRegistered P offlineMode r m
  | RegisterFailed => call [ConsoleError] m
  end.

Definition runM (P : Page) (evs : list ManagerEvent) (m : M) : M :=
  fold_left (stepM P) evs m.

(** The value of the setting after [evs], from [mode]. *)
Fixpoint modeAfter (mode : bool) (evs : list ManagerEvent) : bool :=
  match evs with
  | [] => mode
  | Changed value :: rest => modeAfter value rest
  | _ :: rest => modeAfter mode rest
  end.

(** [settings.offlineMode] is the value last handed to [onChange]. *)
Fixpoint coherent (mode : bool) (evs : list ManagerEvent) : Prop :=
  match evs with
  | [] => True
  | Changed value :: rest => coherent value rest
  | Registered offlineMode _ :: rest =>
      offlineMode = mode /\ coherent mode rest
  | RegisterFailed :: rest => coherent mode rest
  end.

(** The registration that the last fulfilled [register] promise of [evs]
    handed over, [last] if there is none. *)
Fixpoint lastRegistered (last : option nat) (evs : list ManagerEvent)
  : option nat :=
  match evs with
  | [] => last
  | Registered _ r :: rest => lastRegistered (Some r) rest
  | _ :: rest => lastRegistered last rest
  end.

(** The calls [cs] hold [unregister] on [r], followed at once by the
    calls of [cleanupCachedData]. *)
Definition wiped (P : Page) (r : nat) (cs : list Call) : Prop :=
  exists pre post,
    cs = (pre ++ Unregister r :: cleanupCachedData P ++ post)%list.

Definition isUnregister (c : Call) : bool :=
  match c with Unregister _ => true | _ => false end.

Definition isCachesDelete (c : Call) : bool :=
  match c with CachesDelete _ => true | _ => false end.

Definition isDeleteDatabase (c : Call) : bool :=
  match c with DeleteDatabase _ => true | _ => false end.

Definition count (f : Call -> bool) (cs : list Call) : nat :=
  List.length (List.filter f cs).

End Manager.

(** * Theorems *)

Module ParserExamples.
Import JsString Parser.

Example parse_plain :
  parseAssetIndexEntry "ab12  assets/app.js"
  = {| hash := "ab12"; path := "./assets/app.js" |}.
Proof. reflexivity. Qed.

Example parse_prefixed :
  parseAssetIndexEntry "ab12  ./index.html"
  = {| hash := "ab12"; path := "./index.html" |}.
Proof. reflexivity. Qed.

Example parse_escaped :
  parseAssetIndexEntry "\ab12  a\nb\\c"
  = {| hash := "ab12";
       path := "./a" ++ String LF "b\c" |}.
Proof. reflexivity. Qed.

Example parse_no_delimiter :
  parseAssetIndexEntry "abcdef" = {| hash := "abcde"; path := "./bcdef" |}.
Proof. reflexivity. Qed.

Example split_lines :
  split1 LF ("a" ++ String LF ("" ++ String LF "b")) = ["a"; ""; "b"].
Proof. reflexivity. Qed.

End ParserExamples.

(** ** Facts about the string primitives *)

Module JsStringFacts.
Import JsString.

Lemma string_strong_ind (P : string -> Prop) :
  (forall s, (forall t, (String.length t < String.length s)%nat -> P t) -> P s) ->
  forall s, P s.
Proof.
  intros step s.
  remember (String.length s) as n eqn:Hn.
  revert s Hn.
  induction n as [n IH] using lt_wf_ind.
  intros s ->. apply step. intros t Ht. exact (IH _ Ht t eq_refl).
Qed.

Lemma append_nil (b : string) : "" ++ b = b.
Proof. reflexivity. Qed.

Lemma append_cons (c : ascii) (a b : string) :
  String c a ++ b = String c (a ++ b).
Proof. reflexivity. Qed.

Lemma length_append (a b : string) :
  String.length (a ++ b) = (String.length a + String.length b)%nat.
Proof.
  induction a as [|c a IH]; [reflexivity|].
  rewrite append_cons. simpl. now rewrite IH.
Qed.

Lemma len_append (a b : string) : len (a ++ b) = len a + len b.
Proof. unfold len. rewrite length_append. lia. Qed.

Lemma len_nonneg a : 0 <= len a.
Proof. unfold len. lia. Qed.

Lemma append_assoc (a b c : string) : (a ++ b) ++ c = a ++ (b ++ c).
Proof.
  induction a as [|x a IH]; [reflexivity|].
  rewrite !append_cons. now rewrite IH.
Qed.

Lemma substring_all (s : string) : String.substring 0 (String.length s) s = s.
Proof. induction s as [|c s IH]; simpl; [reflexivity | now rewrite IH]. Qed.

Lemma substring_app_l (a b : string) :
  String.substring 0 (String.length a) (a ++ b) = a.
Proof.
  induction a as [|c a IH].
  - rewrite append_nil. destruct b; reflexivity.
  - rewrite append_cons. simpl. now rewrite IH.
Qed.

Lemma substring_app_r (a b : string) (m : nat) :
  String.substring (String.length a) m (a ++ b) = String.substring 0 m b.
Proof.
  induction a as [|c a IH]; [reflexivity|].
  rewrite append_cons. simpl. exact IH.
Qed.

Lemma slice_app_l (a b : string) : slice (a ++ b) 0 (len a) = a.
Proof.
  unfold slice, relIndex. rewrite len_append.
  pose proof (len_nonneg a). pose proof (len_nonneg b).
  replace (0 <? 0) with false by reflexivity.
  replace (len a <? 0) with false by (symmetry; apply Z.ltb_ge; lia).
  rewrite !Z.min_l by lia. rewrite Z.sub_0_r, Z.max_l by lia.
  unfold len. rewrite Nat2Z.id. apply substring_app_l.
Qed.

Lemma sliceFrom_app_r (a b : string) : sliceFrom (a ++ b) (len a) = b.
Proof.
  unfold sliceFrom, slice, relIndex. rewrite len_append.
  pose proof (len_nonneg a). pose proof (len_nonneg b).
  replace (len a <? 0) with false by (symmetry; apply Z.ltb_ge; lia).
  replace (len a + len b <? 0) with false by (symmetry; apply Z.ltb_ge; lia).
  rewrite Z.min_l by lia. rewrite Z.min_r by lia.
  replace (len a + len b - len a) with (len b) by lia.
  rewrite Z.max_l by lia.
  unfold len. rewrite !Nat2Z.id. rewrite substring_app_r. apply substring_all.
Qed.

(** [includes] of a one-character pattern, unfolded. *)
Lemma includes_cons (c : ascii) (s p : string) :
  includes (String c s) p = String.prefix p (String c s) || includes s p.
Proof. reflexivity. Qed.

Lemma prefix_nil (s : string) : String.prefix "" s = true.
Proof. destruct s; reflexivity. Qed.

Lemma prefix_cons (a c : ascii) (p s : string) :
  String.prefix (String a p) (String c s)
  = if ascii_dec a c then String.prefix p s else false.
Proof. reflexivity. Qed.

Lemma prefix_cons_same (a : ascii) (p s : string) :
  String.prefix (String a p) (String a s) = String.prefix p s.
Proof. rewrite prefix_cons. destruct (ascii_dec a a); congruence. Qed.

Lemma prefix_cons_diff (a c : ascii) (p s : string) :
  a <> c -> String.prefix (String a p) (String c s) = false.
Proof. intros H. rewrite prefix_cons. destruct (ascii_dec a c); congruence. Qed.

Lemma prefix_cons_nil (a : ascii) (p : string) :
  String.prefix (String a p) "" = false.
Proof. reflexivity. Qed.

Lemma prefix_append (p rest : string) : String.prefix p (p ++ rest) = true.
Proof.
  induction p as [|c p IH].
  - rewrite append_nil. apply prefix_nil.
  - rewrite append_cons, prefix_cons_same. exact IH.
Qed.

Lemma indexOfFrom_hit (pat s : string) (i : Z) :
  String.prefix pat s = true -> indexOfFrom pat s i = i.
Proof. intros H. destruct s; cbn [indexOfFrom]; rewrite H; reflexivity. Qed.

Lemma indexOfFrom_miss (pat : string) (c : ascii) (s : string) (i : Z) :
  String.prefix pat (String c s) = false ->
  indexOfFrom pat (String c s) i = indexOfFrom pat s (i + 1).
Proof. intros H. cbn [indexOfFrom]. rewrite H. reflexivity. Qed.

Lemma indexOf_two_spaces (d rest : string) (i : Z) :
  includes d " " = false ->
  indexOfFrom "  " (d ++ "  " ++ rest) i = i + len d.
Proof.
  revert i. induction d as [|c d IH]; intros i Hd.
  - rewrite append_nil, indexOfFrom_hit by apply prefix_append.
    unfold len; simpl; lia.
  - rewrite includes_cons in Hd. apply orb_false_iff in Hd as [Hc Hd].
    rewrite append_cons.
    assert (Hp : String.prefix "  " (String c (d ++ "  " ++ rest)) = false).
    { destruct (ascii_dec " " c) as [<-|Hne].
      - rewrite prefix_cons_same, prefix_nil in Hc. discriminate Hc.
      - now apply prefix_cons_diff. }
    rewrite indexOfFrom_miss by exact Hp. rewrite IH by exact Hd.
    unfold len; simpl String.length. lia.
Qed.

(** *** [replaceAll] with a two-character pattern *)

Section TwoCharPattern.
Variables (a b : ascii) (rep : string).

Let pat := String a (String b "").

Lemma replaceAll_nil : replaceAll "" pat rep = "".
Proof. reflexivity. Qed.

Lemma replaceAll_match (s : string) :
  replaceAll (String a (String b s)) pat rep = rep ++ replaceAll s pat rep.
Proof.
  unfold replaceAll, pat. cbn [replaceAllFrom].
  rewrite !prefix_cons_same, prefix_nil. reflexivity.
Qed.

Lemma replaceAll_miss (c : ascii) (s : string) :
  String.prefix pat (String c s) = false ->
  replaceAll (String c s) pat rep = String c (replaceAll s pat rep).
Proof.
  intros Hp. unfold replaceAll. cbn [replaceAllFrom]. fold pat.
  rewrite Hp. reflexivity.
Qed.

Lemma prefix_two (c : ascii) (s : string) :
  String.prefix pat (String c s) = true ->
  c = a /\ exists t, s = String b t.
Proof.
  unfold pat. rewrite prefix_cons.
  destruct (ascii_dec a c) as [->|]; [|discriminate].
  destruct s as [|d t]; [discriminate|].
  rewrite prefix_cons.
  destruct (ascii_dec b d) as [->|]; [|discriminate].
  intros _. split; [reflexivity | now exists t].
Qed.

Lemma prefix_two_true (s : string) :
  String.prefix pat (String a (String b s)) = true.
Proof. unfold pat. now rewrite !prefix_cons_same, prefix_nil. Qed.

Lemma prefix_two_false (c d : ascii) (s : string) :
  c <> a \/ d <> b -> String.prefix pat (String c (String d s)) = false.
Proof.
  unfold pat. intros H. rewrite !prefix_cons.
  destruct (ascii_dec a c) as [<-|]; [|reflexivity].
  destruct (ascii_dec b d) as [<-|]; [|reflexivity].
  destruct H; congruence.
Qed.

Lemma prefix_two_single (c : ascii) :
  String.prefix pat (String c "") = false.
Proof. unfold pat. rewrite prefix_cons. destruct (ascii_dec a c); reflexivity. Qed.

End TwoCharPattern.

End JsStringFacts.

(** ** The parser: un-escaping of manifest paths *)

Module ParserSpec.
Import JsString JsStringFacts Parser SpecDefs.

Lemma unescapePath_passes (p : string) : unescapePath p = pass2 (pass1 p).
Proof. reflexivity. Qed.

Section OneCharReplacement.
Variables (a b r : ascii).

Let pat := String a (String b "").
Let rep := String r "".

Lemma replaceAll_match1 (s : string) :
  replaceAll (String a (String b s)) pat rep = String r (replaceAll s pat rep).
Proof. unfold pat, rep. now rewrite replaceAll_match. Qed.

(** The output starts with [x] only if the input does, unless [x] is
    the replacement character. *)
Lemma replaceAll_head (x : ascii) (s : string) :
  x <> r ->
  String.prefix (String x "") (replaceAll s pat rep) = true ->
  String.prefix (String x "") s = true.
Proof.
  intros Hxr. destruct s as [|c s]; [trivial|].
  destruct (String.prefix pat (String c s)) eqn:Hp.
  - apply prefix_two in Hp as [-> [t ->]].
    rewrite replaceAll_match1, prefix_cons.
    destruct (ascii_dec x r); [contradiction | discriminate].
  - unfold pat in *. rewrite replaceAll_miss by exact Hp.
    rewrite !prefix_cons, !prefix_nil. trivial.
Qed.

(** A leading [x] other than the first pattern character is kept. *)
Lemma replaceAll_head_keep (x : ascii) (s : string) :
  x <> a ->
  String.prefix (String x "") s = true ->
  String.prefix (String x "") (replaceAll s pat rep) = true.
Proof.
  intros Hxa. destruct s as [|c s]; [trivial|].
  rewrite prefix_cons. destruct (ascii_dec x c) as [<-|]; [|discriminate].
  intros _. unfold pat. rewrite replaceAll_miss.
  - now rewrite prefix_cons_same, prefix_nil.
  - apply prefix_cons_diff. congruence.
Qed.

End OneCharReplacement.

Lemma BSL_neq_LF : BSL <> LF.
Proof. discriminate. Qed.

Lemma n_neq_LF : "n"%char <> LF.
Proof. discriminate. Qed.

Lemma n_neq_BSL : "n"%char <> BSL.
Proof. discriminate. Qed.

Lemma LF_neq_BSL : LF <> BSL.
Proof. discriminate. Qed.

Lemma includes_tail (c : ascii) (s p : string) :
  includes s p = true -> includes (String c s) p = true.
Proof. intros H. rewrite includes_cons, H. apply orb_true_r. Qed.

Lemma includes_here (s p : string) :
  String.prefix p s = true -> includes s p = true.
Proof. intros H. destruct s; cbn [includes]; rewrite H; reflexivity. Qed.

Lemma includes_append_r (t s p : string) :
  includes s p = true -> includes (t ++ s) p = true.
Proof.
  intros H. induction t as [|c t IH]; [exact H|].
  rewrite append_cons. now apply includes_tail.
Qed.

(** After the first pass no backslash is followed by the letter n. *)
Lemma pass1_no_backslash_n (s : string) :
  includes (pass1 s) (String BSL "n") = false.
Proof.
  induction s as [s IH] using string_strong_ind.
  destruct s as [|c s]; [reflexivity|].
  unfold pass1 in *.
  destruct (String.prefix (String BSL "n") (String c s)) eqn:Hp.
  - apply prefix_two in Hp as [-> [t ->]].
    rewrite replaceAll_match1, includes_cons.
    rewrite prefix_cons_diff by exact BSL_neq_LF.
    apply IH. simpl. lia.
  - rewrite replaceAll_miss by exact Hp. rewrite includes_cons.
    rewrite IH by (simpl; lia). rewrite orb_false_r.
    destruct (ascii_dec BSL c) as [<-|Hc]; [|now apply prefix_cons_diff].
    rewrite prefix_cons_same in Hp |- *.
    destruct (String.prefix "n" (replaceAll s (String BSL "n") (String LF "")))
      eqn:Hn; [|reflexivity].
    apply replaceAll_head in Hn; [congruence | exact n_neq_LF].
Qed.

(** The second pass does not create a backslash followed by n. *)
Lemma pass2_no_backslash_n (s : string) :
  includes s (String BSL "n") = false ->
  includes (pass2 s) (String BSL "n") = false.
Proof.
  induction s as [s IH] using string_strong_ind.
  destruct s as [|c s]; [reflexivity|].
  unfold pass2 in *. rewrite includes_cons. intros H.
  apply orb_false_iff in H as [Hhere Htail].
  destruct (String.prefix (String BSL (String BSL "")) (String c s)) eqn:Hp.
  - apply prefix_two in Hp as [-> [t ->]].
    rewrite includes_cons in Htail. apply orb_false_iff in Htail as [Hh2 Ht2].
    rewrite replaceAll_match1, includes_cons.
    rewrite IH by (simpl; lia || exact Ht2). rewrite orb_false_r.
    rewrite prefix_cons_same in Hh2 |- *.
    destruct (String.prefix "n"
                (replaceAll t (String BSL (String BSL "")) (String BSL "")))
      eqn:Hn; [|reflexivity].
    apply replaceAll_head in Hn; [congruence | exact n_neq_BSL].
  - rewrite replaceAll_miss by exact Hp. rewrite includes_cons.
    rewrite IH by (simpl; lia || exact Htail). rewrite orb_false_r.
    destruct (ascii_dec BSL c) as [<-|Hc]; [|now apply prefix_cons_diff].
    rewrite prefix_cons_same in Hhere |- *.
    destruct (String.prefix "n"
                (replaceAll s (String BSL (String BSL "")) (String BSL "")))
      eqn:Hn; [|reflexivity].
    apply replaceAll_head in Hn; [congruence | exact n_neq_BSL].
Qed.

(** Backslash-backslash-n leaves a backslash before a line feed after the
    first pass: the second backslash is read as the start of the newline
    escape. *)
Lemma pass1_backslash_lf (s : string) :
  includes s (String BSL (String BSL "n")) = true ->
  includes (pass1 s) (String BSL (String LF "")) = true.
Proof.
  induction s as [s IH] using string_strong_ind.
  destruct s as [|c s]; [discriminate|].
  unfold pass1 in *. rewrite includes_cons. intros H.
  destruct (String.prefix (String BSL "n") (String c s)) eqn:Hp.
  - apply prefix_two in Hp as [-> [t ->]].
    rewrite replaceAll_match1. apply includes_tail.
    rewrite prefix_cons_same, prefix_cons_diff in H by exact BSL_neq_LF || discriminate.
    rewrite includes_cons, prefix_cons_diff in H by discriminate.
    apply IH; [simpl; lia | exact H].
  - rewrite replaceAll_miss by exact Hp.
    apply orb_true_iff in H as [H|H].
    + rewrite prefix_cons in H.
      destruct (ascii_dec BSL c) as [<-|]; [|discriminate].
      destruct s as [|d s]; [discriminate|].
      apply prefix_two in H as [-> [t ->]].
      rewrite replaceAll_match1. apply includes_here.
      now rewrite !prefix_cons_same, prefix_nil.
    + apply includes_tail. apply IH; [simpl; lia | exact H].
Qed.

(** The second pass keeps a backslash that stands before a line feed. *)
Lemma pass2_backslash_lf (s : string) :
  includes s (String BSL (String LF "")) = true ->
  includes (pass2 s) (String BSL (String LF "")) = true.
Proof.
  induction s as [s IH] using string_strong_ind.
  destruct s as [|c s]; [discriminate|].
  unfold pass2 in *. rewrite includes_cons. intros H.
  destruct (String.prefix (String BSL (String BSL "")) (String c s)) eqn:Hp.
  - apply prefix_two in Hp as [-> [t ->]].
    rewrite replaceAll_match1.
    rewrite prefix_cons_same, prefix_cons_diff in H by exact LF_neq_BSL.
    rewrite orb_false_l, includes_cons in H. apply orb_true_iff in H as [H|H].
    + apply includes_here. rewrite prefix_cons_same in H |- *.
      apply replaceAll_head_keep; [exact LF_neq_BSL | exact H].
    + apply includes_tail. apply IH; [simpl; lia | exact H].
  - rewrite replaceAll_miss by exact Hp.
    apply orb_true_iff in H as [H|H].
    + apply includes_here. rewrite prefix_cons in H |- *.
      destruct (ascii_dec BSL c) as [<-|]; [|discriminate].
      apply replaceAll_head_keep; [exact LF_neq_BSL | exact H].
    + apply includes_tail. apply IH; [simpl; lia | exact H].
Qed.

Lemma normalizePath_includes (p pat : string) :
  includes p pat = true -> includes (normalizePath p) pat = true.
Proof.
  intros H. unfold normalizePath.
  destruct (startsWith p "./"); [exact H | now apply includes_append_r].
Qed.

Lemma normalizePath_no_backslash_n (p : string) :
  includes p (String BSL "n") = false ->
  includes (normalizePath p) (String BSL "n") = false.
Proof.
  intros H. unfold normalizePath.
  destruct (startsWith p "./"); [exact H|].
  rewrite !append_cons, append_nil, !includes_cons.
  rewrite !prefix_cons_diff by discriminate. exact H.
Qed.

(** A line that starts with a backslash: the code takes the escaped
    branch, whatever the rest of the line is. *)
Lemma parse_escaped_path (line : string) :
  charAt0 line = String BSL "" ->
  path (parseAssetIndexEntry line)
  = normalizePath (pass2 (pass1 (rawPath line))).
Proof.
  intros H. unfold parseAssetIndexEntry. rewrite H.
  replace (String.eqb (String BSL "") (String BSL "")) with true by reflexivity.
  reflexivity.
Qed.

(** An escaped line with a space-free digest splits at the first
    two-space delimiter. *)
Lemma parse_escaped_line (digest rest : string) :
  includes digest " " = false ->
  parseAssetIndexEntry (String BSL "" ++ digest ++ "  " ++ rest)
  = {| hash := digest; path := normalizePath (unescapePath rest) |}.
Proof.
  intros Hd.
  set (line := String BSL "" ++ digest ++ "  " ++ rest).
  assert (Hidx : indexOf line "  " = len (String BSL "" ++ digest)).
  { unfold indexOf, line. rewrite append_cons, append_nil.
    rewrite indexOfFrom_miss by (apply prefix_cons_diff; discriminate).
    rewrite indexOf_two_spaces by exact Hd.
    rewrite len_append. reflexivity. }
  unfold parseAssetIndexEntry. rewrite Hidx.
  assert (Hhash : slice line 0 (len (String BSL "" ++ digest))
                  = String BSL "" ++ digest).
  { unfold line. rewrite <- append_assoc. apply slice_app_l. }
  assert (Hpath : sliceFrom line (len (String BSL "" ++ digest) + 2) = rest).
  { unfold line.
    replace (len (String BSL "" ++ digest) + 2)
      with (len ((String BSL "" ++ digest) ++ "  "))
      by (rewrite (len_append _ "  "); reflexivity).
    rewrite <- (append_assoc digest), <- (append_assoc (String BSL "")).
    apply sliceFrom_app_r. }
  rewrite Hhash, Hpath.
  replace (charAt0 line) with (String BSL "") by reflexivity.
  replace (String.eqb (String BSL "") (String BSL "")) with true by reflexivity.
  cbv zeta. cbv beta iota.
  change 1 with (len (String BSL "")).
  rewrite sliceFrom_app_r. reflexivity.
Qed.

(** C9. Parser round-trip: the escaped line made of a leading backslash,
    a digest, the two-space delimiter and the segment
    [path\nwith\\escapes] (backslash-n and backslash-backslash as
    two-character escapes) is parsed to the digest and to the path
    [./path], a line feed, [with], one backslash, [escapes]. *)
Theorem parse_escaped_roundtrip (digest : string) :
  includes digest " " = false ->
  parseAssetIndexEntry (String BSL "" ++ digest ++ "  path\nwith\\escapes")
  = {| hash := digest;
       path := "./path" ++ String LF "" ++ "with\escapes" |}.
Proof.
  intros Hd.
  change (digest ++ "  path\nwith\\escapes")
    with (digest ++ "  " ++ "path\nwith\\escapes").
  rewrite parse_escaped_line by exact Hd.
  reflexivity.
Qed.

Lemma parse_escaped_roundtrip_witness :
  parseAssetIndexEntry "\9f86d081884c7d65  path\nwith\\escapes"
  = {| hash := "9f86d081884c7d65";
       path := "./path" ++ String LF "" ++ "with\escapes" |}.
Proof.
  apply (parse_escaped_roundtrip "9f86d081884c7d65"). reflexivity.
Defined.

(** C10. On a line that starts with a backslash the newline un-escape
    runs before the backslash un-escape.  Hence a path segment that
    contains backslash-backslash-n decodes to a path that contains a
    backslash followed by a line feed, and the decoded path contains no
    backslash followed by the letter n. *)
Theorem unescape_newline_before_backslash (line : string) :
  charAt0 line = String BSL "" ->
  path (parseAssetIndexEntry line)
  = normalizePath
      (replaceAll (replaceAll (rawPath line) (String BSL "n") (String LF ""))
                  (String BSL (String BSL "")) (String BSL ""))
  /\ (includes (rawPath line) (String BSL (String BSL "n")) = true ->
      includes (path (parseAssetIndexEntry line)) (String BSL (String LF "")) = true
      /\ includes (path (parseAssetIndexEntry line)) (String BSL "n") = false).
Proof.
  intros Hline. pose proof (parse_escaped_path line Hline) as Hpath.
  split; [exact Hpath|]. intros Hraw. rewrite Hpath. split.
  - apply normalizePath_includes, pass2_backslash_lf, pass1_backslash_lf, Hraw.
  - apply normalizePath_no_backslash_n, pass2_no_backslash_n,
      pass1_no_backslash_n.
Qed.

Lemma unescape_newline_before_backslash_witness :
  path (parseAssetIndexEntry "\ab12  dir\\name")
  = "./dir\" ++ String LF "" ++ "ame"
  /\ includes (path (parseAssetIndexEntry "\ab12  dir\\name"))
       (String BSL (String LF "")) = true
  /\ includes (path (parseAssetIndexEntry "\ab12  dir\\name"))
       (String BSL "n") = false.
Proof.
  destruct (unescape_newline_before_backslash "\ab12  dir\\name" eq_refl)
    as [Hp Hc].
  split; [rewrite Hp; reflexivity | apply Hc; reflexivity].
Defined.

End ParserSpec.

(** ** The coordinator, phase by phase *)

Module CoordinatorFacts.
Import JsString JsStringFacts Parser Platform Fetcher Store Coordinator SpecDefs.

Lemma elem_of_map_1 {A B : Type} (f : A -> B) (l : list A) (y : B) :
  y ∈ map f l -> exists x, y = f x /\ x ∈ l.
Proof.
  rewrite list_elem_of_In, in_map_iff. intros [x [Hx Hin]].
  exists x. split; [congruence | now apply list_elem_of_In].
Qed.

Lemma elem_of_map_2 {A B : Type} (f : A -> B) (l : list A) (x : A) :
  x ∈ l -> f x ∈ map f l.
Proof. rewrite !list_elem_of_In. apply in_map. Qed.

Lemma elem_of_getAllKeys (m : gmap string IndexRecord) (k : string) :
  k ∈ getAllKeys m <-> is_Some (m !! k).
Proof.
  unfold getAllKeys.
  now rewrite merge_sort_Permutation, elem_of_elements, elem_of_dom.
Qed.

Lemma getAllKeys_empty : getAllKeys ∅ = [].
Proof.
  unfold getAllKeys. rewrite dom_empty_L, elements_empty. reflexivity.
Qed.

Lemma deleteWhere_lookup {V : Type} (f : string -> bool) (keys : list string)
    (m : gmap string V) (k : string) :
  deleteWhere f keys m !! k
  = if bool_decide (k ∈ keys) && f k then None else m !! k.
Proof.
  revert m. induction keys as [|p rest IH]; intros m; cbn [deleteWhere].
  - rewrite bool_decide_eq_false_2 by apply not_elem_of_nil. reflexivity.
  - rewrite IH. destruct (decide (k = p)) as [->|Hne].
    + rewrite (bool_decide_eq_true_2 (p ∈ p :: rest)) by (apply elem_of_cons; now left).
      destruct (f p); cbn [andb].
      * rewrite lookup_delete_eq. now destruct (bool_decide (p ∈ rest)).
      * now rewrite andb_false_r.
    + assert (Hiff : bool_decide (k ∈ p :: rest) = bool_decide (k ∈ rest)).
      { apply bool_decide_ext. rewrite elem_of_cons. tauto. }
      rewrite Hiff. destruct (bool_decide (k ∈ rest) && f k); [reflexivity|].
      destruct (f p); [now rewrite lookup_delete_ne by congruence | reflexivity].
Qed.

Lemma deleteWhere_lookup_Some {V : Type} (f : string -> bool) (keys : list string)
    (m : gmap string V) (k : string) (v : V) :
  deleteWhere f keys m !! k = Some v -> m !! k = Some v.
Proof.
  rewrite deleteWhere_lookup.
  destruct (bool_decide (k ∈ keys) && f k); [discriminate | trivial].
Qed.

Section Phases.
Variable E : Env.

(** *** Step 3 *)

Lemma pruneMissing_cache keys s : cache (pruneMissing E keys s) = cache s.
Proof.
  revert s. induction keys as [|p rest IH]; intros s; cbn [pruneMissing];
    [reflexivity|].
  rewrite IH. destruct (cache s !! resolveUrl E p); [reflexivity|].
  unfold idbDelete. destruct (deleteFails E p); reflexivity.
Qed.

Lemma pruneMissing_fetched keys s :
  fetched (pruneMissing E keys s) = fetched s.
Proof.
  revert s. induction keys as [|p rest IH]; intros s; cbn [pruneMissing];
    [reflexivity|].
  rewrite IH. destruct (cache s !! resolveUrl E p); [reflexivity|].
  unfold idbDelete. destruct (deleteFails E p); reflexivity.
Qed.

Lemma pruneMissing_index keys s :
  index (pruneMissing E keys s)
  = deleteWhere (pruned E (cache s)) keys (index s).
Proof.
  revert s. induction keys as [|p rest IH]; intros s;
    cbn [pruneMissing deleteWhere]; [reflexivity|].
  rewrite IH.
  assert (Hp : pruned E (cache s) p
               = match cache s !! resolveUrl E p with
                 | Some _ => false
                 | None => negb (deleteFails E p)
                 end).
  { unfold pruned. destruct (cache s !! resolveUrl E p) as [b|] eqn:Hc.
    - rewrite bool_decide_eq_true_2 by eauto. reflexivity.
    - rewrite bool_decide_eq_false_2 by (intros [? ?]; discriminate).
      reflexivity. }
  rewrite Hp. destruct (cache s !! resolveUrl E p); [reflexivity|].
  unfold idbDelete. destruct (deleteFails E p); reflexivity.
Qed.

(** *** Step 5 *)

Lemma deleteObsolete_cache a keys s :
  cache (deleteObsolete E a keys s) = cache s.
Proof.
  revert s. induction keys as [|p rest IH]; intros s; cbn [deleteObsolete];
    [reflexivity|].
  rewrite IH. destruct (knownPath a p); [reflexivity|].
  unfold idbDelete. destruct (deleteFails E p); reflexivity.
Qed.

Lemma deleteObsolete_fetched a keys s :
  fetched (deleteObsolete E a keys s) = fetched s.
Proof.
  revert s. induction keys as [|p rest IH]; intros s; cbn [deleteObsolete];
    [reflexivity|].
  rewrite IH. destruct (knownPath a p); [reflexivity|].
  unfold idbDelete. destruct (deleteFails E p); reflexivity.
Qed.

Lemma deleteObsolete_index a keys s :
  index (deleteObsolete E a keys s)
  = deleteWhere (obsolete E a) keys (index s).
Proof.
  revert s. induction keys as [|p rest IH]; intros s;
    cbn [deleteObsolete deleteWhere]; [reflexivity|].
  rewrite IH.
  replace (obsolete E a p)
    with (negb (knownPath a p) && negb (deleteFails E p)) by reflexivity.
  destruct (knownPath a p); [reflexivity|].
  unfold idbDelete. destruct (deleteFails E p); reflexivity.
Qed.

(** *** Step 6 *)

Lemma evictCache_index a keys s : index (evictCache E a keys s) = index s.
Proof.
  revert s. induction keys as [|u rest IH]; intros s; cbn [evictCache];
    [reflexivity|].
  rewrite IH. destruct (knownPath a (derivedPath E u)); reflexivity.
Qed.

Lemma evictCache_fetched a keys s :
  fetched (evictCache E a keys s) = fetched s.
Proof.
  revert s. induction keys as [|u rest IH]; intros s; cbn [evictCache];
    [reflexivity|].
  rewrite IH. destruct (knownPath a (derivedPath E u)); reflexivity.
Qed.

Lemma evictCache_log a keys s : log (evictCache E a keys s) = log s.
Proof.
  revert s. induction keys as [|u rest IH]; intros s; cbn [evictCache];
    [reflexivity|].
  rewrite IH. destruct (knownPath a (derivedPath E u)); reflexivity.
Qed.

Lemma evictCache_cache a keys s :
  cache (evictCache E a keys s)
  = deleteWhere (evicted E a) keys (cache s).
Proof.
  revert s. induction keys as [|u rest IH]; intros s;
    cbn [evictCache deleteWhere]; [reflexivity|].
  rewrite IH.
  replace (evicted E a u)
    with (negb (knownPath a (derivedPath E u))) by reflexivity.
  destruct (knownPath a (derivedPath E u)); reflexivity.
Qed.

(** After step 6 the cache holds the bodies whose derived path is in
    the manifest, and only those. *)
Lemma evictCache_all_lookup a s u :
  cache (evictCache E a (elements (dom (cache s))) s) !! u
  = if knownPath a (derivedPath E u) then cache s !! u else None.
Proof.
  rewrite evictCache_cache, deleteWhere_lookup. unfold evicted.
  destruct (knownPath a (derivedPath E u)); cbn [negb].
  - now rewrite andb_false_r.
  - rewrite andb_true_r. case_bool_decide as Hin; [reflexivity|].
    rewrite elem_of_elements, elem_of_dom in Hin.
    destruct (cache s !! u) eqn:Hu; [|reflexivity].
    exfalso. apply Hin. eauto.
Qed.

End Phases.

End CoordinatorFacts.

(** ** Step 4: the update tasks *)

Module UpdateFacts.
Import JsString Parser Platform Fetcher Store Coordinator SpecDefs.

Section Update.
Variable E : Env.
Variable known : gmap string IndexRecord.

Lemma updateOfflineAsset_end entry s :
  TaskEnd E known entry s (fst (updateOfflineAsset E known entry s))
                  (snd (updateOfflineAsset E known entry s)).
Proof.
  unfold updateOfflineAsset, idbGet, cacheAdd, idbPut.
  destruct (getFails E (path entry)) eqn:Hg;
    [now apply ReadFailed|].
  destruct (sameHash (known !! path entry) entry) eqn:Hh;
    [now apply Skipped|].
  destruct (fetchAsset E (path entry)) as [body|] eqn:Hf;
    [|now apply FetchFailed].
  cbn [entryRecord recPath].
  destruct (putFails E (path entry)) eqn:Hp; cbn [fst snd].
  - exact (WriteFailed E known entry s body Hg Hh Hf Hp).
  - exact (Updated E known entry s body Hg Hh Hf Hp).
Qed.

Lemma task_index_frame entry s ok s' k :
  TaskEnd E known entry s ok s' -> k <> path entry -> index s' !! k = index s !! k.
Proof.
  intros H Hk. destruct H; try reflexivity.
  cbn [setIndex index]. now rewrite lookup_insert_ne by congruence.
Qed.

Lemma task_index_dom entry s ok s' k :
  TaskEnd E known entry s ok s' -> is_Some (index s' !! k) ->
  is_Some (index s !! k) \/ k = path entry.
Proof.
  intros H Hk. destruct (decide (k = path entry)) as [|Hne]; [now right|].
  left. now rewrite <- (task_index_frame _ _ _ _ _ H Hne).
Qed.

Lemma task_cache_mono entry s ok s' u :
  TaskEnd E known entry s ok s' -> is_Some (cache s !! u) -> is_Some (cache s' !! u).
Proof.
  intros H Hu. destruct H; try exact Hu; cbn [setIndex setCache cache noteFetch];
    (destruct (decide (u = resolveUrl E (path entry))) as [->|Hne];
     [rewrite lookup_insert_eq; eauto
     |now rewrite lookup_insert_ne by congruence]).
Qed.

Lemma task_cache_frame entry s ok s' u :
  TaskEnd E known entry s ok s' -> u <> resolveUrl E (path entry) ->
  cache s' !! u = cache s !! u.
Proof.
  intros H Hu. destruct H; try reflexivity; cbn [setIndex setCache cache noteFetch];
    now rewrite lookup_insert_ne by congruence.
Qed.

Lemma task_log entry s ok s' : TaskEnd E known entry s ok s' -> log s' = log s.
Proof. intros H. destruct H; reflexivity. Qed.

Lemma task_fetched entry s ok s' :
  TaskEnd E known entry s ok s' ->
  fetched s' = fetched s
  \/ (sameHash (known !! path entry) entry = false
      /\ fetched s' = (fetched s ++ [path entry])%list).
Proof. intros H. destruct H; auto. Qed.

(** *** All tasks *)

Lemma updateAll_cons entry rest s :
  updateAll E known (entry :: rest) s
  = (fst (updateOfflineAsset E known entry s)
     && fst (updateAll E known rest (snd (updateOfflineAsset E known entry s))),
     snd (updateAll E known rest (snd (updateOfflineAsset E known entry s)))).
Proof.
  cbn [updateAll].
  destruct (updateOfflineAsset E known entry s) as [ok1 s1]. cbn [fst snd].
  destruct (updateAll E known rest s1) as [ok2 s2]. reflexivity.
Qed.

Lemma updateAll_index_frame es s k :
  k ∉ map path es ->
  index (snd (updateAll E known es s)) !! k = index s !! k.
Proof.
  revert s. induction es as [|e rest IH]; intros s Hk; [reflexivity|].
  rewrite updateAll_cons. cbn [snd]. cbn [map] in Hk.
  rewrite not_elem_of_cons in Hk. destruct Hk as [Hne Hrest].
  rewrite IH by exact Hrest.
  exact (task_index_frame _ _ _ _ _ (updateOfflineAsset_end e s) Hne).
Qed.

Lemma updateAll_index_dom es s k :
  is_Some (index (snd (updateAll E known es s)) !! k) ->
  is_Some (index s !! k) \/ k ∈ map path es.
Proof.
  destruct (decide (k ∈ map path es)) as [|Hk]; [now right|].
  rewrite updateAll_index_frame by exact Hk. now left.
Qed.

Lemma updateAll_cache_mono es s u :
  is_Some (cache s !! u) ->
  is_Some (cache (snd (updateAll E known es s)) !! u).
Proof.
  revert s. induction es as [|e rest IH]; intros s Hu; [exact Hu|].
  rewrite updateAll_cons. cbn [snd]. apply IH.
  exact (task_cache_mono _ _ _ _ _ (updateOfflineAsset_end e s) Hu).
Qed.

Lemma updateAll_cache_frame es s u :
  u ∉ map (fun e => resolveUrl E (path e)) es ->
  cache (snd (updateAll E known es s)) !! u = cache s !! u.
Proof.
  revert s. induction es as [|e rest IH]; intros s Hu; [reflexivity|].
  rewrite updateAll_cons. cbn [snd]. cbn [map] in Hu.
  rewrite not_elem_of_cons in Hu. destruct Hu as [Hne Hrest].
  rewrite IH by exact Hrest.
  exact (task_cache_frame _ _ _ _ _ (updateOfflineAsset_end e s) Hne).
Qed.

Lemma updateAll_log es s : log (snd (updateAll E known es s)) = log s.
Proof.
  revert s. induction es as [|e rest IH]; intros s; [reflexivity|].
  rewrite updateAll_cons. cbn [snd]. rewrite IH.
  exact (task_log _ _ _ _ (updateOfflineAsset_end e s)).
Qed.

(** Entries whose recorded digest matches produce no request at all. *)
Lemma updateAll_noop es s :
  (forall e, e ∈ es -> sameHash (known !! path e) e = true) ->
  snd (updateAll E known es s) = s.
Proof.
  revert s. induction es as [|e rest IH]; intros s Hall; [reflexivity|].
  rewrite updateAll_cons. cbn [snd].
  assert (He : snd (updateOfflineAsset E known e s) = s).
  { pose proof (updateOfflineAsset_end e s) as H.
    assert (Hs : sameHash (known !! path e) e = true)
      by (apply Hall, elem_of_cons; now left).
    destruct H; congruence. }
  rewrite He. apply IH. intros e' He'. apply Hall, elem_of_cons. now right.
Qed.

Lemma updateAll_noop_ok es s :
  (forall e, e ∈ es -> sameHash (known !! path e) e = true) ->
  (forall e, e ∈ es -> getFails E (path e) = false) ->
  updateAll E known es s = (true, s).
Proof.
  revert s. induction es as [|e rest IH]; intros s Hall Hget; [reflexivity|].
  rewrite updateAll_cons.
  assert (Hs : sameHash (known !! path e) e = true)
    by (apply Hall, elem_of_cons; now left).
  assert (Hg : getFails E (path e) = false)
    by (apply Hget, elem_of_cons; now left).
  assert (He : updateOfflineAsset E known e s = (true, s)).
  { unfold updateOfflineAsset, idbGet. now rewrite Hg, Hs. }
  rewrite He. cbn [fst snd].
  rewrite IH; [reflexivity | |]; intros e' He'; [apply Hall | apply Hget];
    apply elem_of_cons; now right.
Qed.

(** With no fault every task is fulfilled. *)
Lemma updateAll_faultFree es s :
  (forall k, getFails E k = false) ->
  (forall k, putFails E k = false) ->
  (forall e, e ∈ es -> is_Some (fetchAsset E (path e))) ->
  fst (updateAll E known es s) = true.
Proof.
  intros Hget Hput. revert s.
  induction es as [|e rest IH]; intros s Hfetch; [reflexivity|].
  rewrite updateAll_cons. cbn [fst]. apply andb_true_iff. split.
  - pose proof (updateOfflineAsset_end e s) as H.
    assert (Hf : is_Some (fetchAsset E (path e)))
      by (apply Hfetch, elem_of_cons; now left).
    destruct H; try reflexivity.
    + rewrite Hget in *. discriminate.
    + destruct Hf as [b Hb]. congruence.
    + rewrite Hput in *. discriminate.
  - apply IH. intros e' He'. apply Hfetch, elem_of_cons. now right.
Qed.

(** When every task is fulfilled, each entry was either up to date and
    left alone, or fetched and recorded. *)
Lemma updateAll_done es s :
  NoDup (map path es) ->
  fst (updateAll E known es s) = true ->
  forall e, e ∈ es ->
    (sameHash (known !! path e) e = true
     /\ index (snd (updateAll E known es s)) !! path e = index s !! path e)
    \/ (index (snd (updateAll E known es s)) !! path e = Some (entryRecord e)
        /\ is_Some (cache (snd (updateAll E known es s))
                      !! resolveUrl E (path e))).
Proof.
  revert s. induction es as [|e0 rest IH]; intros s Hnd Hok e He.
  - now apply elem_of_nil in He.
  - rewrite updateAll_cons in Hok |- *. cbn [fst snd] in Hok |- *.
    cbn [map] in Hnd. apply NoDup_cons in Hnd as [Hfresh Hnd].
    apply andb_true_iff in Hok as [Hok0 Hok].
    pose proof (updateOfflineAsset_end e0 s) as H0.
    destruct (updateOfflineAsset E known e0 s) as [ok0 s1].
    cbn [fst snd] in *. subst ok0.
    apply elem_of_cons in He as [->|He].
    + rewrite updateAll_index_frame by exact Hfresh.
      inversion H0 as [|? Hs|  | |b ? ? Hb ?]; subst.
      * left. split; [assumption | reflexivity].
      * right. cbn [setIndex setCache index cache].
        split; [apply lookup_insert_eq|].
        apply updateAll_cache_mono.
        cbn [setIndex setCache cache]. rewrite lookup_insert_eq. eauto.
    + assert (Hne : path e <> path e0).
      { intros Heq. apply Hfresh. rewrite <- Heq.
        now apply CoordinatorFacts.elem_of_map_2. }
      destruct (IH s1 Hnd Hok e He) as [[Hs Hi]|Hr]; [left|now right].
      split; [exact Hs|]. rewrite Hi.
      exact (task_index_frame _ _ _ _ _ H0 Hne).
Qed.

End Update.

End UpdateFacts.

(** ** One refresh cycle *)

Module RefreshFacts.
Import JsString JsStringFacts Parser Platform Fetcher Store Coordinator SpecDefs.
Import CoordinatorFacts UpdateFacts.

Section Cycle.
Variable E : Env.

(** A cycle that has its manifest, its handle and the key list runs
    steps 3 to 7. *)
Lemma refreshCache_steps cached db a s :
  resolvedIndex E cached = Some a ->
  dbAvailable E db = true ->
  getAllKeysFails E = false ->
  refreshCache E cached db s
  = if fst (afterUpdate E a s)
    then match idbPut E (sentinelRecord a) (afterEvict E a s) with
         | Some s6 => (Fulfilled, s6)
         | None => (Rejected, afterEvict E a s)
         end
    else (Rejected, snd (afterUpdate E a s)).
Proof.
  intros Ha Hdb Hkeys. unfold refreshCache, readKnownEntries.
  unfold resolvedIndex in Ha. rewrite Ha, Hkeys.
  assert (Hh : match db with
               | Some d => Some d
               | None => if openFails E then None else Some Db
               end <> None).
  { destruct db; [discriminate|]. cbn in Hdb.
    destruct (openFails E); [discriminate Hdb | discriminate]. }
  destruct (match db with
            | Some d => Some d
            | None => if openFails E then None else Some Db
            end); [|congruence].
  unfold afterEvict, afterUpdate, afterPrune.
  destruct (updateAll E _ (entries a) _) as [[|] s3]; cbn [fst snd];
    [|reflexivity].
  destruct (idbPut E (sentinelRecord a) _); reflexivity.
Qed.

(** A fulfilled cycle had its handle and its key list. *)
Lemma refreshCache_fulfilled cached db a s s' :
  resolvedIndex E cached = Some a ->
  refreshCache E cached db s = (Fulfilled, s') ->
  dbAvailable E db = true /\ getAllKeysFails E = false.
Proof.
  intros Ha. unfold refreshCache, readKnownEntries, dbAvailable.
  unfold resolvedIndex in Ha. rewrite Ha.
  destruct db as [d|]; [|destruct (openFails E); [discriminate|]];
    (destruct (getAllKeysFails E); [cbn; discriminate | auto]).
Qed.

Lemma afterPrune_cache s : cache (afterPrune E s) = cache s.
Proof. apply pruneMissing_cache. Qed.

Lemma afterPrune_fetched s : fetched (afterPrune E s) = fetched s.
Proof. apply pruneMissing_fetched. Qed.

Lemma afterPrune_lookup s k :
  index (afterPrune E s) !! k
  = if pruned E (cache s) k then None else index s !! k.
Proof.
  unfold afterPrune. rewrite pruneMissing_index, deleteWhere_lookup.
  case_bool_decide as Hin; [reflexivity|]. cbn [andb].
  rewrite elem_of_getAllKeys in Hin.
  destruct (index s !! k) eqn:Hk; [exfalso; apply Hin; eauto|].
  now destruct (pruned E (cache s) k).
Qed.

Lemma afterPrune_lookup_cached s k :
  is_Some (cache s !! resolveUrl E k) ->
  index (afterPrune E s) !! k = index s !! k.
Proof.
  intros Hc. rewrite afterPrune_lookup. unfold pruned.
  now rewrite bool_decide_eq_true_2 by exact Hc.
Qed.

Lemma afterPrune_lookup_Some s k r :
  index (afterPrune E s) !! k = Some r -> index s !! k = Some r.
Proof.
  rewrite afterPrune_lookup. destruct (pruned E (cache s) k);
    [discriminate | trivial].
Qed.

(** With a working delete, a record that survives step 3 has a body. *)
Lemma afterPrune_has_body s k :
  deleteFails E k = false ->
  is_Some (index (afterPrune E s) !! k) ->
  is_Some (cache s !! resolveUrl E k).
Proof.
  intros Hdel. rewrite afterPrune_lookup. unfold pruned. rewrite Hdel.
  case_bool_decide as Hc; [intros _; exact Hc|].
  cbn. intros [? ?]; discriminate.
Qed.

Lemma sameHash_true cur e :
  sameHash cur e = true -> exists r, cur = Some r /\ recHash r = hash e.
Proof.
  destruct cur as [r|]; [|discriminate]. cbn. intros H.
  apply String.eqb_eq in H. eauto.
Qed.

Lemma sameHash_intro r e :
  recHash r = hash e -> sameHash (Some r) e = true.
Proof. cbn. intros ->. apply String.eqb_refl. Qed.

Lemma knownPath_true a p : knownPath a p = true <-> p ∈ paths a.
Proof. unfold knownPath, paths. apply bool_decide_eq_true. Qed.

Lemma knownPath_false a p : knownPath a p = false <-> p ∉ paths a.
Proof. unfold knownPath, paths. apply bool_decide_eq_false. Qed.

Lemma scoped_not_sentinel p :
  startsWith p "./" = true -> p <> IDB_KEY_OFFLINE_INDEX.
Proof. intros H ->. discriminate H. Qed.

Lemma afterEvict_index a s k :
  index (afterEvict E a s) !! k
  = if bool_decide (is_Some (index s !! k)) && obsolete E a k then None
    else index (snd (afterUpdate E a s)) !! k.
Proof.
  unfold afterEvict. cbv zeta.
  rewrite evictCache_index, deleteObsolete_index, deleteWhere_lookup.
  assert (Hb : bool_decide (k ∈ getAllKeys (index s))
               = bool_decide (is_Some (index s !! k))).
  { apply bool_decide_ext. apply elem_of_getAllKeys. }
  now rewrite Hb.
Qed.

Lemma afterEvict_cache a s u :
  cache (afterEvict E a s) !! u
  = if knownPath a (derivedPath E u)
    then cache (snd (afterUpdate E a s)) !! u else None.
Proof.
  unfold afterEvict. cbv zeta. rewrite evictCache_all_lookup.
  now rewrite deleteObsolete_cache.
Qed.

Lemma afterEvict_fetched a s :
  fetched (afterEvict E a s) = fetched (snd (afterUpdate E a s)).
Proof.
  unfold afterEvict. cbv zeta.
  now rewrite evictCache_fetched, deleteObsolete_fetched.
Qed.

(** What a fulfilled cycle went through. *)
Lemma fulfilled_shape cached db a s s' :
  resolvedIndex E cached = Some a ->
  refreshCache E cached db s = (Fulfilled, s') ->
  fst (afterUpdate E a s) = true
  /\ putFails E IDB_KEY_OFFLINE_INDEX = false
  /\ s' = setIndex (<[IDB_KEY_OFFLINE_INDEX := sentinelRecord a]>
                      (index (afterEvict E a s)))
                   (afterEvict E a s).
Proof.
  intros Ha Hrun.
  destruct (refreshCache_fulfilled _ _ _ _ _ Ha Hrun) as [Hdb Hkeys].
  rewrite (refreshCache_steps _ _ _ _ Ha Hdb Hkeys) in Hrun.
  destruct (fst (afterUpdate E a s)); [|discriminate].
  unfold idbPut in Hrun. cbn [sentinelRecord recPath] in Hrun.
  destruct (putFails E IDB_KEY_OFFLINE_INDEX); [discriminate|].
  injection Hrun as <-. auto.
Qed.


(** A fulfilled cycle leaves no record for a path outside the manifest
    whose delete request works, and no body whose derived path is outside
    the manifest. *)
Lemma refresh_evicts cached db a s s' :
  resolvedIndex E cached = Some a ->
  refreshCache E cached db s = (Fulfilled, s') ->
  (forall k, k ∉ paths a -> k <> IDB_KEY_OFFLINE_INDEX ->
     deleteFails E k = false -> index s' !! k = None)
  /\ (forall u, derivedPath E u ∉ paths a -> cache s' !! u = None).
Proof.
  intros Ha Hrun.
  destruct (fulfilled_shape _ _ _ _ _ Ha Hrun) as (_ & _ & ->).
  cbn [setIndex index cache]. split.
  - intros k Hk Hks Hdel. rewrite lookup_insert_ne by congruence.
    rewrite afterEvict_index. unfold obsolete.
    apply knownPath_false in Hk as Hkn. rewrite Hkn, Hdel.
    cbn [negb andb]. rewrite andb_true_r.
    case_bool_decide as Hin; [reflexivity|].
    unfold afterUpdate. rewrite updateAll_index_frame by exact Hk.
    rewrite afterPrune_lookup.
    destruct (index s !! k) eqn:Hr; [exfalso; apply Hin; eauto|].
    now destruct (pruned E (cache s) k).
  - intros u Hu. rewrite afterEvict_cache. apply knownPath_false in Hu.
    now rewrite Hu.
Qed.

(** With no fault at all the cycle is fulfilled. *)
Lemma refresh_faultFree cached db a s :
  resolvedIndex E cached = Some a ->
  faultFree E a ->
  fst (refreshCache E cached db s) = Fulfilled.
Proof.
  intros Ha (Hopen & Hkeys & Hget & Hput & _ & Hfetch).
  rewrite (refreshCache_steps _ db _ s Ha); [| |exact Hkeys].
  - unfold afterUpdate. rewrite updateAll_faultFree; try assumption.
    + unfold idbPut. now rewrite Hput.
    + intros e He. apply Hfetch. now apply elem_of_map_2.
  - unfold dbAvailable. destruct db; [reflexivity | now rewrite Hopen].
Qed.

(** Without a database handle the cycle is rejected at line 67. *)
Lemma refreshCache_no_db cached db s :
  dbAvailable E db = false ->
  refreshCache E cached db s = (Rejected, s).
Proof.
  unfold dbAvailable, refreshCache. destruct db; [discriminate|].
  destruct (openFails E); [reflexivity | discriminate].
Qed.

(** When [getAllKeys] fails, the listener of lines 86-98 logs, then
    throws on [store.clear()]: the promise of line 76 stays pending
    and so does the cycle. *)
Lemma refreshCache_pending cached db a s :
  resolvedIndex E cached = Some a ->
  dbAvailable E db = true ->
  getAllKeysFails E = true ->
  refreshCache E cached db s
  = (Pending, consoleError "Failed to retrieve known asset entries:" s).
Proof.
  intros Ha Hdb Hkeys. unfold refreshCache, readKnownEntries.
  unfold resolvedIndex in Ha. rewrite Ha, Hkeys.
  unfold dbAvailable in Hdb. destruct db as [d|].
  - reflexivity.
  - destruct (openFails E); [discriminate Hdb | reflexivity].
Qed.

(** A cycle over stores that already mirror the manifest asks the
    network for nothing and, when fulfilled, changes nothing. *)
Lemma refresh_converged_noop cached db a s o s2 :
  converged E a s ->
  (forall p, p ∈ paths a -> startsWith p "./" = true) ->
  resolvedIndex E cached = Some a ->
  refreshCache E cached db s = (o, s2) ->
  fetched s2 = fetched s
  /\ (o = Fulfilled -> index s2 = index s /\ cache s2 = cache s).
Proof.
  intros (Hent & Hkeys & Hbodies & Hsent) Hscoped Ha Hrun.
  destruct (dbAvailable E db) eqn:Hdb;
    [|rewrite refreshCache_no_db in Hrun by exact Hdb;
      injection Hrun as <- <-; split; [reflexivity | discriminate]].
  destruct (getAllKeysFails E) eqn:Hgk;
    [rewrite (refreshCache_pending _ _ _ _ Ha Hdb Hgk) in Hrun;
     injection Hrun as <- <-; split; [reflexivity | discriminate]|].
  rewrite (refreshCache_steps _ _ _ _ Ha Hdb Hgk) in Hrun.
  assert (Hsame : forall e, e ∈ entries a ->
            sameHash (index (afterPrune E s) !! path e) e = true).
  { intros e He. destruct (Hent e He) as [(r & Hr & Hh) Hc].
    rewrite afterPrune_lookup_cached by exact Hc. rewrite Hr.
    now apply sameHash_intro. }
  assert (Hup : snd (afterUpdate E a s) = afterPrune E s)
    by (apply updateAll_noop, Hsame).
  destruct (fst (afterUpdate E a s)).
  2:{ injection Hrun as <- <-. rewrite Hup, afterPrune_fetched.
      split; [reflexivity | discriminate]. }
  assert (Hf : fetched (afterEvict E a s) = fetched s)
    by now rewrite afterEvict_fetched, Hup, afterPrune_fetched.
  unfold idbPut in Hrun. cbn [sentinelRecord recPath] in Hrun.
  destruct (putFails E IDB_KEY_OFFLINE_INDEX).
  { injection Hrun as <- <-. split; [exact Hf | discriminate]. }
  injection Hrun as <- <-. split; [exact Hf|]. intros _.
  cbn [setIndex index cache]. split.
  - apply map_eq. intros k.
    destruct (decide (k = IDB_KEY_OFFLINE_INDEX)) as [->|Hne].
    + now rewrite lookup_insert_eq, Hsent.
    + rewrite lookup_insert_ne by congruence.
      rewrite afterEvict_index, Hup, afterPrune_lookup.
      destruct (index s !! k) as [r|] eqn:Hk.
      * destruct (Hkeys k) as [Hp|Hp]; [eauto | | contradiction].
        unfold obsolete. apply knownPath_true in Hp as Hkn. rewrite Hkn.
        cbn [negb andb]. rewrite andb_false_r.
        apply elem_of_map_1 in Hp as (e & -> & He).
        destruct (Hent e He) as [_ Hc]. unfold pruned.
        rewrite bool_decide_eq_true_2 by exact Hc. reflexivity.
      * rewrite bool_decide_eq_false_2 by (intros [? ?]; discriminate).
        cbn [andb]. now destruct (pruned E (cache s) k).
  - apply map_eq. intros u.
    rewrite afterEvict_cache, Hup, afterPrune_cache.
    destruct (cache s !! u) as [b|] eqn:Hu.
    + assert (Hp : derivedPath E u ∈ paths a) by (apply Hbodies; eauto).
      apply knownPath_true in Hp. now rewrite Hp.
    + now destruct (knownPath a (derivedPath E u)).
Qed.

(** A fault-tolerant reading of the second run: with working requests
    it is fulfilled. *)
Lemma refresh_converged_fulfilled cached db a s :
  converged E a s ->
  resolvedIndex E cached = Some a ->
  dbAvailable E db = true ->
  getAllKeysFails E = false ->
  (forall p, p ∈ paths a -> getFails E p = false) ->
  putFails E IDB_KEY_OFFLINE_INDEX = false ->
  fst (refreshCache E cached db s) = Fulfilled.
Proof.
  intros (Hent & _) Ha Hdb Hgk Hget Hput.
  rewrite (refreshCache_steps _ _ _ _ Ha Hdb Hgk).
  unfold afterUpdate. rewrite updateAll_noop_ok.
  - cbn [fst]. unfold idbPut. cbn [sentinelRecord recPath].
    now rewrite Hput.
  - intros e He. destruct (Hent e He) as [(r & Hr & Hh) Hc].
    rewrite afterPrune_lookup_cached by exact Hc. rewrite Hr.
    now apply sameHash_intro.
  - intros e He. apply Hget. now apply elem_of_map_2.
Qed.

End Cycle.

Lemma derivedPath_scope E1 E2 u :
  sameScope E1 E2 -> derivedPath E1 u = derivedPath E2 u.
Proof. intros (Hs & _ & Hp). unfold derivedPath. now rewrite Hs, Hp. Qed.

Lemma converged_scope E1 E2 a s :
  sameScope E1 E2 -> converged E1 a s -> converged E2 a s.
Proof.
  intros Hsc (Hent & Hkeys & Hbodies & Hsent).
  pose proof Hsc as (_ & Hres & _).
  repeat split; try assumption.
  - now apply Hent.
  - rewrite <- Hres. now apply Hent.
  - intros u Hu. rewrite <- (derivedPath_scope _ _ u Hsc). now apply Hbodies.
Qed.

End RefreshFacts.

(** ** Convergence, idempotence and eviction *)

Module RefreshSpec.
Import JsString JsStringFacts Parser Platform Fetcher Store Coordinator SpecDefs.
Import CoordinatorFacts UpdateFacts RefreshFacts Fixtures.


Lemma faultFree_appEnv a : faultFree appEnv a.
Proof. repeat split. intros p _. cbn. eauto. Defined.

Lemma elements_dom_empty {V : Type} :
  elements (dom (∅ : gmap string V)) = [].
Proof. rewrite dom_empty_L. apply elements_empty. Qed.

Lemma afterPrune_empty E : afterPrune E emptySt = emptySt.
Proof.
  unfold afterPrune. cbn [emptySt index]. now rewrite getAllKeys_empty.
Qed.

Lemma sameScope_refl E : sameScope E E.
Proof. repeat split. Defined.






(** Where the hypothesis on paths matters: on a platform that
    percent-encodes, the body of a path with a space is stored under the
    encoded URL, line 133 derives the encoded path from it, and step 6
    evicts the body that step 4 has just fetched; the next cycle prunes
    the record and fetches again. *)
Example encoded_path_is_evicted :
  derivedPath encodingEnv (resolveUrl encodingEnv "./a b.js") = "./a%20b.js"
  /\ fst (refreshCache encodingEnv (Some manifestSpace) None emptySt) = Fulfilled
  /\ cache (snd (refreshCache encodingEnv (Some manifestSpace) None emptySt)) = ∅
  /\ fetched (snd (refreshCache encodingEnv (Some manifestSpace) None
                     (snd (refreshCache encodingEnv (Some manifestSpace) None
                             emptySt))))
     = ["./a b.js"; "./a b.js"].
Proof. vm_compute. repeat split. Qed.

End RefreshSpec.

(** ** Step 4 when a task fails *)

Module FailureFacts.
Import JsString Parser Platform Fetcher Store Coordinator SpecDefs.
Import CoordinatorFacts UpdateFacts.

Section Failure.
Variable E : Env.
Variable known : gmap string IndexRecord.

Lemma task_ok entry s :
  fst (updateOfflineAsset E known entry s) = taskOk E known entry.
Proof.
  unfold updateOfflineAsset, taskOk, idbGet, cacheAdd, idbPut.
  destruct (getFails E (path entry)); [reflexivity|].
  destruct (sameHash (known !! path entry) entry); [reflexivity|].
  destruct (fetchAsset E (path entry)); [|reflexivity].
  cbn [entryRecord recPath].
  destruct (putFails E (path entry)); reflexivity.
Qed.

(** [Promise.all] is fulfilled exactly when every task is. *)
Lemma updateAll_ok es s :
  fst (updateAll E known es s) = forallb (taskOk E known) es.
Proof.
  revert s. induction es as [|e rest IH]; intros s; [reflexivity|].
  rewrite updateAll_cons. cbn [fst forallb]. now rewrite task_ok, IH.
Qed.

Lemma updateAll_fails es s e :
  e ∈ es -> taskOk E known e = false ->
  fst (updateAll E known es s) = false.
Proof.
  intros He Hf. rewrite updateAll_ok.
  destruct (forallb (taskOk E known) es) eqn:Hall; [|reflexivity].
  rewrite forallb_forall in Hall. rewrite <- Hf. symmetry. apply Hall.
  now apply list_elem_of_In.
Qed.

(** A task that is not fulfilled leaves its index record alone. *)
Lemma task_failed_index entry s k :
  taskOk E known entry = false ->
  index (snd (updateOfflineAsset E known entry s)) !! k = index s !! k.
Proof.
  intros Hf. pose proof (updateOfflineAsset_end E known entry s) as T.
  rewrite task_ok, Hf in T.
  destruct (updateOfflineAsset E known entry s) as [ok1 s1].
  cbn [snd] in *. inversion T; subst; reflexivity.
Qed.

Lemma updateAll_failed_index es s e :
  NoDup (map path es) -> e ∈ es -> taskOk E known e = false ->
  index (snd (updateAll E known es s)) !! path e = index s !! path e.
Proof.
  revert s. induction es as [|e0 rest IH]; intros s Hnd He Hf.
  - now apply elem_of_nil in He.
  - rewrite updateAll_cons. cbn [snd]. cbn [map] in Hnd.
    apply NoDup_cons in Hnd as [Hfresh Hnd].
    apply elem_of_cons in He as [->|He].
    + rewrite updateAll_index_frame by exact Hfresh.
      now apply task_failed_index.
    + rewrite IH by assumption.
      apply (task_index_frame _ _ _ _ _ _ _ (updateOfflineAsset_end E known e0 s)).
      intros Heq. apply Hfresh. rewrite <- Heq. now apply elem_of_map_2.
Qed.

(** A task whose fetch fails leaves the cache alone. *)
Lemma updateAll_failed_cache es s p :
  fetchAsset E p = None ->
  (forall e0, e0 ∈ es ->
     path e0 = p \/ resolveUrl E (path e0) <> resolveUrl E p) ->
  cache (snd (updateAll E known es s)) !! resolveUrl E p
  = cache s !! resolveUrl E p.
Proof.
  intros Hfetch. revert s.
  induction es as [|e0 rest IH]; intros s Hsep; [reflexivity|].
  rewrite updateAll_cons. cbn [snd].
  rewrite IH by (intros e1 He1; apply Hsep, elem_of_cons; now right).
  pose proof (updateOfflineAsset_end E known e0 s) as T.
  destruct (updateOfflineAsset E known e0 s) as [ok1 s1].
  cbn [fst snd] in *.
  destruct (Hsep e0) as [Hp|Hu]; [apply elem_of_cons; now left | |].
  - inversion T as [| | |b ? ? Hb|b ? ? Hb]; subst; try reflexivity;
      congruence.
  - apply (task_cache_frame _ _ _ _ _ _ _ T). congruence.
Qed.

(** A task that is fulfilled leaves a record with the entry's digest,
    whatever happens to the other tasks. *)
Lemma updateAll_entry_done es s e :
  NoDup (map path es) -> e ∈ es -> taskOk E known e = true ->
  index s !! path e = known !! path e ->
  exists r, index (snd (updateAll E known es s)) !! path e = Some r
            /\ recHash r = hash e.
Proof.
  revert s. induction es as [|e0 rest IH]; intros s Hnd He Hok Hagree.
  - now apply elem_of_nil in He.
  - rewrite updateAll_cons. cbn [snd]. cbn [map] in Hnd.
    apply NoDup_cons in Hnd as [Hfresh Hnd].
    pose proof (updateOfflineAsset_end E known e0 s) as T.
    pose proof (task_ok e0 s) as Hfst.
    destruct (updateOfflineAsset E known e0 s) as [ok1 s1].
    cbn [fst snd] in *.
    apply elem_of_cons in He as [->|He].
    + rewrite updateAll_index_frame by exact Hfresh.
      rewrite Hfst, Hok in T.
      inversion T as [|? Hs| | |b ? ? Hb ?]; subst.
      * rewrite Hagree. unfold sameHash in Hs.
        destruct (known !! path e0) as [r|]; [|discriminate].
        exists r. split; [reflexivity | now apply String.eqb_eq].
      * exists (entryRecord e0). cbn [setIndex index].
        split; [apply lookup_insert_eq | reflexivity].
    + apply IH; try assumption. rewrite <- Hagree.
      apply (task_index_frame _ _ _ _ _ _ _ T).
      intros Heq. apply Hfresh. rewrite <- Heq. now apply elem_of_map_2.
Qed.

(** The requests that step 4 sends only grow the list. *)
Lemma updateAll_fetched_app es s :
  exists l, fetched (snd (updateAll E known es s)) = (fetched s ++ l)%list.
Proof.
  revert s. induction es as [|e0 rest IH]; intros s.
  - exists []. cbn. now rewrite app_nil_r.
  - rewrite updateAll_cons. cbn [snd].
    destruct (IH (snd (updateOfflineAsset E known e0 s))) as [l Hl].
    rewrite Hl.
    destruct (task_fetched _ _ _ _ _ _ (updateOfflineAsset_end E known e0 s))
      as [->|[_ ->]].
    + now exists l.
    + exists (path e0 :: l). now rewrite <- app_assoc.
Qed.

(** An entry whose digest comparison shows a mismatch is requested
    from the network. *)
Lemma updateAll_fetches es s e :
  e ∈ es -> getFails E (path e) = false ->
  sameHash (known !! path e) e = false ->
  exists l, fetched (snd (updateAll E known es s)) = (fetched s ++ l)%list
            /\ path e ∈ l.
Proof.
  revert s. induction es as [|e0 rest IH]; intros s He Hget Hs.
  - now apply elem_of_nil in He.
  - rewrite updateAll_cons. cbn [snd].
    pose proof (updateOfflineAsset_end E known e0 s) as T.
    destruct (updateOfflineAsset E known e0 s) as [ok1 s1].
    cbn [fst snd] in *.
    apply elem_of_cons in He as [->|He].
    + destruct (updateAll_fetched_app rest s1) as [l Hl].
      rewrite Hl.
      assert (Hf : fetched s1 = (fetched s ++ [path e0])%list)
        by (inversion T; subst; congruence || reflexivity).
      rewrite Hf. exists (path e0 :: l).
      split; [now rewrite <- app_assoc | apply elem_of_cons; now left].
    + destruct (IH s1 He Hget Hs) as (l & Hl & Hin).
      rewrite Hl.
      destruct (task_fetched _ _ _ _ _ _ T) as [->|[_ ->]].
      * now exists l.
      * exists (path e0 :: l).
        split; [now rewrite <- app_assoc | apply elem_of_cons; now right].
Qed.

End Failure.

End FailureFacts.

(** ** Failures inside a cycle *)

Module FailureSpec.
Import JsString JsStringFacts Parser Platform Fetcher Store Coordinator SpecDefs.
Import CoordinatorFacts UpdateFacts RefreshFacts FailureFacts Fixtures.

(** The asset requests of a cycle are those of step 4. *)
Lemma refreshCache_fetched E cached db a s :
  resolvedIndex E cached = Some a ->
  dbAvailable E db = true ->
  getAllKeysFails E = false ->
  fetched (snd (refreshCache E cached db s))
  = fetched (snd (afterUpdate E a s)).
Proof.
  intros Ha Hdb Hgk. rewrite (refreshCache_steps _ _ _ _ _ Ha Hdb Hgk).
  destruct (fst (afterUpdate E a s)); [|reflexivity].
  unfold idbPut. destruct (putFails E _); cbn [snd setIndex fetched];
    apply afterEvict_fetched.
Qed.

Lemma sameHash_after_prune E s e :
  sameHash (index s !! path e) e = false ->
  sameHash (index (afterPrune E s) !! path e) e = false.
Proof.
  intros H. rewrite afterPrune_lookup.
  now destruct (pruned E (cache s) (path e)).
Qed.

(** C6 as stated fails: when the record of [./a.js] cannot be written,
    the cycle has already replaced the cached body of [./a.js], logs
    nothing, and stops before the sentinel is written. *)
Lemma isolatedFailure_counterexample :
  ~ isolatedFailure putFaultEnv manifestAB entryA staleA.
Proof.
  unfold isolatedFailure. intros H.
  assert (HA : entryA ∈ entries manifestAB) by (apply elem_of_cons; now left).
  destruct (H HA eq_refl (or_intror eq_refl)) as (_ & _ & Hcache & _).
  vm_compute in Hcache. discriminate Hcache.
Qed.

(** The same run, conjunct by conjunct. *)
Example put_fault_run :
  let s' := snd (refreshCache putFaultEnv (Some manifestAB) None staleA) in
  fst (refreshCache putFaultEnv (Some manifestAB) None staleA) = Rejected
  /\ log s' = []
  /\ cache staleA !! "https://h/app/a.js" = Some "old body"
  /\ cache s' !! "https://h/app/a.js" = Some "body of ./a.js"
  /\ index s' !! "./a.js"
     = Some {| recPath := "./a.js"; recHash := "h0"; recLastModified := None |}
  /\ index s' !! IDB_KEY_OFFLINE_INDEX = None
  /\ fetched s' = ["./a.js"; "./b.css"].
Proof. vm_compute. repeat split. Qed.

(** C7, as the code has it.  When reading the key list of the index
    fails, the error listener logs and then calls [clear] on
    [event.source], which is [undefined]: the listener throws, the
    promise of line 76 is never settled, and neither is the cycle.  The
    index is not cleared, nothing is fetched and no later step runs.  Had
    the listener reached the store, a failing [clear] would end the same
    way, with the index as it was, because [reject] is not bound at
    line 96. *)
Theorem index_read_failure_never_settles (E : Env)
    (cached : option AssetIndex) (db : option IDBDatabase) (a : AssetIndex)
    (s : St) :
  resolvedIndex E cached = Some a ->
  dbAvailable E db = true ->
  getAllKeysFails E = true ->
  refreshCache E cached db s
  = (Pending, consoleError "Failed to retrieve known asset entries:" s)
  /\ index (snd (refreshCache E cached db s)) = index s
  /\ cache (snd (refreshCache E cached db s)) = cache s
  /\ fetched (snd (refreshCache E cached db s)) = fetched s
  /\ (clearFails E = true ->
      fst (onGetAllKeysError E (Some AssetStore) s) = None
      /\ index (snd (onGetAllKeysError E (Some AssetStore) s)) = index s).
Proof.
  intros Ha Hdb Hgk.
  rewrite (refreshCache_pending _ _ _ _ _ Ha Hdb Hgk). cbn [snd].
  do 4 (split; [reflexivity|]).
  intros Hclear. unfold onGetAllKeysError. rewrite Hclear.
  split; reflexivity.
Qed.

Lemma index_read_failure_never_settles_witness :
  refreshCache keysFaultEnv (Some manifestAB) None staleA
  = (Pending, consoleError "Failed to retrieve known asset entries:" staleA)
  /\ index (snd (refreshCache keysFaultEnv (Some manifestAB) None staleA))
     = index staleA
  /\ fst (onGetAllKeysError keysFaultEnv (Some AssetStore) staleA) = None.
Proof.
  destruct (index_read_failure_never_settles keysFaultEnv (Some manifestAB)
              None manifestAB staleA eq_refl eq_refl eq_refl)
    as (Hrun & Hidx & _ & _ & Hclear).
  split; [exact Hrun|]. split; [exact Hidx | exact (proj1 (Hclear eq_refl))].
Defined.

End FailureSpec.

(** ** The worker: single flight and request handling *)

Module WorkerSpec.
Import JsString Parser Platform Fetcher Store Coordinator Worker SpecDefs.
Import Fixtures.

Lemma filter_not_in_cons (c : nat) (X l : list nat) :
  filter (fun i => i ∉ c :: X) l
  = filter (fun i => i <> c) (filter (fun i => i ∉ X) l).
Proof.
  induction l as [|x l IH]; [reflexivity|].
  destruct (decide (x ∈ X)) as [Hx|Hx].
  - rewrite (filter_cons_False (fun i => i ∉ X)) by tauto.
    rewrite filter_cons_False; [exact IH|].
    rewrite not_elem_of_cons. tauto.
  - rewrite (filter_cons_True (fun i => i ∉ X)) by exact Hx.
    destruct (decide (x = c)) as [->|Hc].
    + rewrite filter_cons_False by (rewrite not_elem_of_cons; tauto).
      rewrite filter_cons_False by tauto. exact IH.
    + rewrite filter_cons_True by (rewrite not_elem_of_cons; tauto).
      rewrite filter_cons_True by exact Hc. now rewrite IH.
Qed.

Lemma consistent_initial s : consistent (initial s).
Proof.
  repeat split; cbn; intros i Hi; now apply elem_of_nil in Hi.
Qed.

(** [synchronizedRefreshCache] while a cycle is in flight. *)
Lemma synchronized_in_flight m db w c :
  refreshCachePromise w = Some c ->
  synchronizedRefreshCache m db w = (cycleId c, w).
Proof. intros H. unfold synchronizedRefreshCache. now rewrite H. Qed.

Lemma consistent_synchronized m db w :
  consistent w -> consistent (snd (synchronizedRefreshCache m db w)).
Proof.
  intros (Hlt & Hsub & Hout). unfold synchronizedRefreshCache.
  destruct (refreshCachePromise w) as [c|] eqn:Hflag.
  { cbn [snd]. unfold consistent. rewrite Hflag. auto. }
  cbn [snd]. repeat split; cbn [started settled refreshCachePromise cycleId].
  - intros i Hi. cbn [List.length]. apply elem_of_cons in Hi as [->|Hi];
      [lia | specialize (Hlt i Hi); lia].
  - intros i Hi. apply elem_of_cons. right. now apply Hsub.
  - unfold outstanding in *. cbn [started settled].
    rewrite filter_cons_True.
    + now rewrite Hout.
    + intros Hin. apply Hsub, Hlt in Hin. lia.
Qed.

Lemma consistent_fields w w' :
  refreshCachePromise w' = refreshCachePromise w ->
  started w' = started w ->
  settled w' = settled w ->
  consistent w -> consistent w'.
Proof.
  intros Hf Hs Hd. unfold consistent, outstanding. now rewrite Hf, Hs, Hd.
Qed.

Lemma onFetch_cases E url w :
  (refreshCachePromise (snd (onFetch E url w)) = refreshCachePromise w
   /\ started (snd (onFetch E url w)) = started w
   /\ settled (snd (onFetch E url w)) = settled w)
  \/ exists m db w1,
       refreshCachePromise w1 = refreshCachePromise w
       /\ started w1 = started w /\ settled w1 = settled w
       /\ snd (onFetch E url w)
          = addCatcher (snd (synchronizedRefreshCache m db w1)).
Proof.
  unfold onFetch.
  destruct (refreshCachePromise w) as [c|] eqn:Hflag;
    [left; cbn [snd]; repeat split; congruence|].
  destruct (isEntryPoint E url);
    [|destruct (cacheOrNetwork url w); left; cbn [snd]; repeat split;
      congruence].
  assert (Hrs : refreshCachePromise (snd (readSentinel E w)) = refreshCachePromise w
                /\ started (snd (readSentinel E w)) = started w
                /\ settled (snd (readSentinel E w)) = settled w).
  { unfold readSentinel. destruct (openFails E); [now repeat split|].
    destruct (idbGet E _ _); now repeat split. }
  destruct (readSentinel E w) as [[[odb cachedIndex] acts] w1].
  cbn [snd] in Hrs. destruct Hrs as (Hf1 & Hs1 & Hd1).
  destruct odb as [d|];
    [|destruct (cacheOrNetwork url w1); left; cbn [snd]; repeat split;
      congruence].
  destruct (fetchAssetIndex E (lastModifiedOf cachedIndex)) as [assetIndex|];
    [|destruct (cacheOrNetwork url w1); left; cbn [snd]; repeat split;
      congruence].
  destruct (hashDiffers assetIndex cachedIndex);
    [|destruct (cacheOrNetwork url w1); left; cbn [snd]; repeat split;
      congruence].
  right. exists (Some assetIndex), (Some d), w1.
  destruct (synchronizedRefreshCache (Some assetIndex) (Some d) w1).
  repeat split; congruence.
Qed.

Lemma consistent_onFetch E url w :
  consistent w -> consistent (snd (onFetch E url w)).
Proof.
  intros Hw.
  destruct (onFetch_cases E url w) as [(Hf & Hs & Hd)|(m & db & w1 & Hf & Hs & Hd & ->)].
  - exact (consistent_fields _ _ Hf Hs Hd Hw).
  - apply (consistent_fields (snd (synchronizedRefreshCache m db w1)));
      try reflexivity.
    apply consistent_synchronized.
    exact (consistent_fields _ _ Hf Hs Hd Hw).
Qed.

Lemma consistent_settle E w : consistent w -> consistent (settle E w).
Proof.
  intros Hw. unfold settle.
  destruct (refreshCachePromise w) as [c|] eqn:Hflag; [|exact Hw].
  destruct (refreshCache E (cycleIndex c) (cycleDb c) (store w)) as [o s].
  destruct Hw as (Hlt & Hsub & Hout). rewrite Hflag in Hout.
  assert (Hc : cycleId c ∈ started w).
  { unfold outstanding in Hout.
    assert (Hin : cycleId c ∈ filter (fun i => i ∉ settled w) (started w))
      by (rewrite Hout; apply elem_of_cons; now left).
    now apply list_elem_of_filter in Hin as [_ Hin]. }
  destruct o.
  - repeat split; cbn [started settled refreshCachePromise]; try assumption.
    + intros i Hi. apply elem_of_cons in Hi as [->|Hi]; auto.
    + unfold outstanding in *. cbn [started settled].
      rewrite filter_not_in_cons, Hout. now rewrite filter_cons_False by tauto.
  - repeat split; cbn [started settled refreshCachePromise]; try assumption.
    + intros i Hi. apply elem_of_cons in Hi as [->|Hi]; auto.
    + unfold outstanding in *. cbn [started settled].
      rewrite filter_not_in_cons, Hout. now rewrite filter_cons_False by tauto.
  - unfold setStore. repeat split; cbn [started settled refreshCachePromise];
      try assumption.
    unfold outstanding. cbn [started settled]. now rewrite Hflag.
Qed.

Lemma consistent_step w ev : consistent w -> consistent (step w ev).
Proof.
  intros Hw. destruct ev as [|E url|E]; cbn [step].
  - now apply consistent_synchronized.
  - now apply consistent_onFetch.
  - now apply consistent_settle.
Qed.

Lemma consistent_run evs w : consistent w -> consistent (run evs w).
Proof.
  revert w. induction evs as [|ev evs IH]; intros w Hw; [exact Hw|].
  cbn [run fold_left]. apply IH. now apply consistent_step.
Qed.

Lemma iter_consoleError_log n msg s :
  log (Nat.iter n (consoleError msg) s) = (log s ++ replicate n msg)%list.
Proof.
  induction n as [|n IH].
  - cbn. now rewrite app_nil_r.
  - change (Nat.iter (S n) (consoleError msg) s)
      with (consoleError msg (Nat.iter n (consoleError msg) s)).
    cbn [consoleError log]. rewrite IH, <- app_assoc. f_equal.
    clear IH. induction n as [|n IH]; [reflexivity|].
    cbn [replicate app]. now rewrite IH.
Qed.

(** A rejected cycle clears [refreshCachePromise] and is logged once per
    [catch] handler of line 39; a cycle started by the [activate] listener
    has none. *)
Lemma settle_rejected E w c s :
  refreshCachePromise w = Some c ->
  refreshCache E (cycleIndex c) (cycleDb c) (store w) = (Rejected, s) ->
  refreshCachePromise (settle E w) = None
  /\ log (store (settle E w))
     = (log s ++ replicate (catchers w) "Failed to refresh offline cache:")%list.
Proof.
  intros Hflag Hrun. unfold settle. rewrite Hflag, Hrun.
  cbn [refreshCachePromise store]. split; [reflexivity|].
  apply iter_consoleError_log.
Qed.

(** A cycle whose promise never settles keeps [refreshCachePromise] set:
    from then on every request is forwarded to the network. *)
Lemma settle_pending E w c s :
  refreshCachePromise w = Some c ->
  refreshCache E (cycleIndex c) (cycleDb c) (store w) = (Pending, s) ->
  refreshCachePromise (settle E w) = Some c
  /\ forall E' url,
       fst (onFetch E' url (settle E w)) = (FromNetwork, [NetFetch url]).
Proof.
  intros Hflag Hrun. unfold settle. rewrite Hflag, Hrun.
  cbn [setStore refreshCachePromise]. split; [exact Hflag|].
  intros E' url. unfold onFetch.
  replace (refreshCachePromise (setStore s w)) with (Some c) by now symmetry.
  reflexivity.
Qed.

(** C1. Single flight: in every state the worker can reach, a call of
    [synchronizedRefreshCache] made while a cycle is outstanding returns
    the promise of that cycle and starts nothing; at any time at most one
    started cycle has not settled, and it is the one the variable
    [refreshCachePromise] holds. *)
Theorem single_flight (evs : list WorkerEvent) (s0 : St)
    (m : option AssetIndex) (db : option IDBDatabase) (c : Cycle) :
  refreshCachePromise (run evs (initial s0)) = Some c ->
  synchronizedRefreshCache m db (run evs (initial s0))
  = (cycleId c, run evs (initial s0))
  /\ outstanding (run evs (initial s0)) = [cycleId c]
  /\ outstanding (snd (synchronizedRefreshCache m db (run evs (initial s0))))
     = [cycleId c].
Proof.
  intros Hflag.
  pose proof (consistent_run evs _ (consistent_initial s0)) as (_ & _ & Hout).
  rewrite Hflag in Hout.
  rewrite (synchronized_in_flight _ _ _ _ Hflag). cbn [snd]. auto.
Qed.

Lemma single_flight_witness :
  synchronizedRefreshCache (Some manifestA) None (run [Activate] (initial emptySt))
  = (0%nat, run [Activate] (initial emptySt))
  /\ outstanding (run [Activate] (initial emptySt)) = [0%nat].
Proof.
  destruct (single_flight [Activate] emptySt (Some manifestA) None
              {| cycleId := 0; cycleIndex := None; cycleDb := None |} eq_refl)
    as (Hcall & Hout & _).
  split; [exact Hcall | exact Hout].
Defined.

(** C2. A request whose handling begins while a cycle is in flight is
    answered from the network: the handler's only platform call is the
    network fetch of the request, the cache is not consulted, and the
    worker's state is unchanged. *)
Theorem in_flight_request_bypasses_cache (E : Env) (url : string) (w : W)
    (c : Cycle) :
  refreshCachePromise w = Some c ->
  onFetch E url w = (FromNetwork, [NetFetch url], w)
  /\ forall u, CacheMatch u ∉ snd (fst (onFetch E url w)).
Proof.
  intros Hflag. unfold onFetch. rewrite Hflag. split; [reflexivity|].
  intros u Hin. cbn [fst snd] in Hin.
  apply elem_of_cons in Hin as [Hin|Hin]; [discriminate Hin|].
  now apply elem_of_nil in Hin.
Qed.

Lemma in_flight_request_bypasses_cache_witness :
  onFetch appEnv "https://h/app/a.js" (run [Activate] (initial convergedAB))
  = (FromNetwork, [NetFetch "https://h/app/a.js"],
     run [Activate] (initial convergedAB)).
Proof.
  exact (proj1 (in_flight_request_bypasses_cache appEnv "https://h/app/a.js"
                  (run [Activate] (initial convergedAB))
                  {| cycleId := 0; cycleIndex := None; cycleDb := None |}
                  eq_refl)).
Defined.

Lemma cacheOrNetwork_log url w msg :
  cacheOrNetwork url (setStore (consoleError msg (store w)) w)
  = cacheOrNetwork url w.
Proof. reflexivity. Qed.

(** C8 as stated fails: the index opens, reading the sentinel fails, the
    manifest is served; the handler then starts a refresh. *)
Lemma entryCheckTolerant_counterexample :
  ~ entryCheckTolerant sentinelFaultEnv "https://h/app/index.html"
      (initial convergedAB).
Proof.
  unfold entryCheckTolerant. intros H.
  specialize (H eq_refl eq_refl (or_intror (or_introl eq_refl))).
  vm_compute in H. destruct H as (_ & Hflag & _). discriminate Hflag.
Qed.

(** C8, as the code has it, for a navigation entry-point request that
    arrives while no cycle is in flight.  If the index cannot be opened,
    the error is logged, no refresh is triggered and the request is
    served from the cache if present, else from the network.  If the
    manifest cannot be fetched, no refresh is triggered and the request is
    served the same way; the failed fetch itself is not logged.  If the
    index opens and only the read of the sentinel fails, the error is
    logged and the check goes on without a recorded digest: the manifest
    is fetched unconditionally and, once obtained, a refresh is triggered
    and the request is served from the network. *)
Theorem entry_check_faults (E : Env) (url : string) (w : W) :
  isEntryPoint E url = true ->
  refreshCachePromise w = None ->
  (openFails E = true ->
     onFetch E url w
     = (fst (cacheOrNetwork url w),
        IdbOpen :: snd (cacheOrNetwork url w),
        setStore (consoleError "Failed to retrieve offline index entry:"
                               (store w)) w))
  /\ (openFails E = false ->
      fetchAssetIndex E (lastModifiedOf (sentinelRead E w)) = None ->
      onFetch E url w
      = (fst (cacheOrNetwork url w),
         ([IdbOpen; IdbGet IDB_KEY_OFFLINE_INDEX;
           ManifestFetch (conditional (lastModifiedOf (sentinelRead E w)));
           IdbClose] ++ snd (cacheOrNetwork url w))%list,
         if getFails E IDB_KEY_OFFLINE_INDEX
         then setStore (consoleError "Failed to retrieve offline index entry:"
                                     (store w)) w
         else w))
  /\ (forall m,
        openFails E = false ->
        getFails E IDB_KEY_OFFLINE_INDEX = true ->
        fetchAssetIndex E None = Some m ->
        onFetch E url w
        = (FromNetwork,
           [IdbOpen; IdbGet IDB_KEY_OFFLINE_INDEX; ManifestFetch None;
            Refresh (List.length (started w)); NetFetch url],
           {| refreshCachePromise :=
                Some {| cycleId := List.length (started w);
                        cycleIndex := Some m;
                        cycleDb := Some Db |};
              started := List.length (started w) :: started w;
              settled := settled w;
              catchers := S (catchers w);
              store := consoleError "Failed to retrieve offline index entry:"
                                    (store w) |})).
Proof.
  intros Hentry Hflag. unfold onFetch. rewrite Hflag, Hentry.
  unfold readSentinel, sentinelRead, idbGet. split; [|split].
  - intros Hopen. rewrite Hopen, cacheOrNetwork_log.
    now destruct (cacheOrNetwork url w).
  - intros Hopen Hnone. rewrite Hopen.
    destruct (getFails E IDB_KEY_OFFLINE_INDEX); rewrite Hnone;
      rewrite ?cacheOrNetwork_log; now destruct (cacheOrNetwork url w).
  - intros m Hopen Hget Hm. rewrite Hopen, Hget.
    cbn [lastModifiedOf]. rewrite Hm. cbn [hashDiffers].
    unfold synchronizedRefreshCache. cbn [setStore refreshCachePromise].
    rewrite Hflag. reflexivity.
Qed.

Lemma entry_check_faults_witness :
  onFetch sentinelFaultEnv "https://h/app/index.html" (initial convergedAB)
  = (FromNetwork,
     [IdbOpen; IdbGet IDB_KEY_OFFLINE_INDEX; ManifestFetch None;
      Refresh 0; NetFetch "https://h/app/index.html"],
     {| refreshCachePromise :=
          Some {| cycleId := 0; cycleIndex := Some manifestAB;
                  cycleDb := Some Db |};
        started := [0%nat];
        settled := [];
        catchers := 1;
        store := consoleError "Failed to retrieve offline index entry:"
                              convergedAB |}).
Proof.
  destruct (entry_check_faults sentinelFaultEnv "https://h/app/index.html"
              (initial convergedAB) eq_refl eq_refl) as (_ & _ & H).
  exact (H manifestAB eq_refl eq_refl eq_refl).
Defined.

End WorkerSpec.


(** ** More on the parser *)

Module ParserMore.
Import JsString JsStringFacts Parser SpecDefs ParserSpec.

Lemma normalizePath_scoped (p : string) :
  startsWith (normalizePath p) "./" = true.
Proof.
  unfold normalizePath. destruct (startsWith p "./") eqn:H; [exact H|].
  unfold startsWith. apply prefix_append.
Qed.

Lemma parse_path_normalized (line : string) :
  exists p, path (parseAssetIndexEntry line) = normalizePath p.
Proof.
  unfold parseAssetIndexEntry.
  destruct (String.eqb (charAt0 line) (String BSL "")); eexists; reflexivity.
Qed.

Lemma parse_path_prefix (line : string) :
  startsWith (path (parseAssetIndexEntry line)) "./" = true.
Proof.
  destruct (parse_path_normalized line) as [p ->]. apply normalizePath_scoped.
Qed.

(** X1. Whatever the line, the parsed path is scope-relative: it starts with
    [./], and so it is never the key of the sentinel record. *)
Theorem parsed_path_scoped (line : string) :
  startsWith (path (parseAssetIndexEntry line)) "./" = true
  /\ path (parseAssetIndexEntry line) <> Store.IDB_KEY_OFFLINE_INDEX.
Proof.
  pose proof (parse_path_prefix line) as H. split; [exact H|].
  intros Heq. rewrite Heq in H. discriminate H.
Qed.

Lemma indexOfFrom_absent (pat s : string) (i : Z) :
  includes s pat = false -> indexOfFrom pat s i = -1.
Proof.
  revert i. induction s as [|c s IH]; intros i H.
  - cbn [includes] in H. rewrite orb_false_r in H.
    cbn [indexOfFrom]. now rewrite H.
  - rewrite includes_cons in H. apply orb_false_iff in H as [Hp Hs].
    rewrite indexOfFrom_miss by exact Hp. now apply IH.
Qed.

(** X2. A line that does not start with a backslash and whose digest has no
    space: the digest is what precedes the first two spaces, the path is
    what follows, taken literally (no un-escaping) and made scope-relative. *)
Theorem parse_plain_line (digest rest : string) :
  includes digest " " = false ->
  charAt0 (digest ++ "  " ++ rest) <> String BSL "" ->
  parseAssetIndexEntry (digest ++ "  " ++ rest)
  = {| hash := digest; path := normalizePath rest |}.
Proof.
  intros Hd Hplain.
  set (line := digest ++ "  " ++ rest) in *.
  assert (Hidx : indexOf line "  " = len digest).
  { unfold indexOf, line. now rewrite indexOf_two_spaces by exact Hd. }
  unfold parseAssetIndexEntry. rewrite Hidx.
  assert (Hhash : slice line 0 (len digest) = digest)
    by apply slice_app_l.
  assert (Hpath : sliceFrom line (len digest + 2) = rest).
  { unfold line.
    replace (len digest + 2) with (len (digest ++ "  "))
      by (rewrite len_append; reflexivity).
    rewrite <- append_assoc. apply sliceFrom_app_r. }
  rewrite Hhash, Hpath.
  assert (Hne : String.eqb (charAt0 line) (String BSL "") = false)
    by now apply String.eqb_neq.
  rewrite Hne. reflexivity.
Qed.

Lemma parse_plain_line_witness :
  parseAssetIndexEntry "ab12  dir\name.js"
  = {| hash := "ab12"; path := "./dir\name.js" |}.
Proof.
  apply (parse_plain_line "ab12" "dir\name.js"); [reflexivity | discriminate].
Defined.

Lemma replaceAll_absent (a b : ascii) (rep s : string) :
  includes s (String a "") = false ->
  replaceAll s (String a (String b "")) rep = s.
Proof.
  induction s as [|c s IH]; intros H; [reflexivity|].
  rewrite includes_cons in H. apply orb_false_iff in H as [Hc Hs].
  rewrite replaceAll_miss.
  - now rewrite IH.
  - rewrite prefix_cons in Hc |- *. destruct (ascii_dec a c); [|reflexivity].
    rewrite prefix_nil in Hc. discriminate Hc.
Qed.

(** X4. Un-escaping leaves a path without backslash as it is. *)
Theorem unescapePath_no_backslash (p : string) :
  includes p (String BSL "") = false -> unescapePath p = p.
Proof.
  intros H. unfold unescapePath.
  rewrite (replaceAll_absent BSL "n" _ p H).
  apply replaceAll_absent, H.
Qed.

Lemma unescapePath_no_backslash_witness :
  unescapePath "assets/app v2.js" = "assets/app v2.js".
Proof. apply unescapePath_no_backslash. reflexivity. Defined.

Lemma slice_drop_last (s : string) (d : ascii) :
  slice (s ++ String d "") 0 (-1) = s.
Proof.
  unfold slice, relIndex. rewrite len_append.
  pose proof (len_nonneg s).
  replace (len (String d "")) with 1 by reflexivity.
  replace (0 <? 0) with false by reflexivity.
  replace (-1 <? 0) with true by reflexivity.
  rewrite Z.min_l by lia.
  replace (Z.max ((len s + 1 + -1) `max` 0 - 0) 0) with (len s) by lia.
  unfold len. rewrite Nat2Z.id. apply substring_app_l.
Qed.

(** X3. A line without the two-space delimiter is not refused: [indexOf]
    answers [-1], so the digest is the line without its last character and
    the path is the line without its first character, made scope-relative.
    A line of one character gives the empty digest and the path [./]. *)
Theorem parse_without_delimiter (c d : ascii) (mid : string) :
  includes (String c (mid ++ String d "")) "  " = false ->
  c <> BSL ->
  parseAssetIndexEntry (String c (mid ++ String d ""))
  = {| hash := String c mid; path := normalizePath (mid ++ String d "") |}
  /\ parseAssetIndexEntry (String c "") = {| hash := ""; path := "./" |}.
Proof.
  intros Hnone Hc.
  assert (Hne : String.eqb (String c "") (String BSL "") = false).
  { apply String.eqb_neq. congruence. }
  split.
  - set (line := String c (mid ++ String d "")) in *.
    assert (Hidx : indexOf line "  " = -1)
      by now apply indexOfFrom_absent.
    unfold parseAssetIndexEntry. rewrite Hidx.
    change (-1 + 2) with (len (String c "")).
    assert (Hhash : slice line 0 (-1) = String c mid).
    { unfold line. rewrite <- append_cons. apply slice_drop_last. }
    assert (Hpath : sliceFrom line (len (String c "")) = mid ++ String d "").
    { unfold line. rewrite <- (append_nil (mid ++ String d "")), <- append_cons.
      apply sliceFrom_app_r. }
    rewrite Hhash, Hpath.
    replace (charAt0 line) with (String c "") by reflexivity.
    rewrite Hne. reflexivity.
  - unfold parseAssetIndexEntry.
    assert (Hidx : indexOf (String c "") "  " = -1).
    { apply indexOfFrom_absent. rewrite includes_cons.
      rewrite prefix_cons. destruct (ascii_dec " " c); reflexivity. }
    rewrite Hidx. cbn [charAt0]. rewrite Hne. reflexivity.
Qed.

Lemma parse_without_delimiter_witness :
  parseAssetIndexEntry "ab12 app.js"
  = {| hash := "ab12 app.j"; path := "./b12 app.js" |}.
Proof.
  exact (proj1 (parse_without_delimiter "a" "s" "b12 app.j" eq_refl
                  ltac:(discriminate))).
Defined.

End ParserMore.

(** ** Hex digests and store names *)

Module EncodingSpec.
Import JsString JsStringFacts Fetcher Naming.

Lemma append_nil_r (s : string) : s ++ "" = s.
Proof.
  induction s as [|c s IH]; [reflexivity|]. now rewrite append_cons, IH.
Qed.

Lemma concat_cons (x : string) (xs : list string) :
  String.concat "" (x :: xs) = x ++ String.concat "" xs.
Proof.
  destruct xs as [|y ys]; cbn [String.concat].
  - now rewrite append_nil_r.
  - now rewrite append_nil.
Qed.

Lemma toHex_cons (n : N) (l : list N) :
  toHex (n :: l)
  = String (hexDigit (N.div n 16)) (String (hexDigit (N.modulo n 16)) (toHex l)).
Proof.
  unfold toHex. cbn [map]. rewrite concat_cons. unfold byteHex.
  now rewrite !append_cons, append_nil.
Qed.

(** Two hexadecimal digits per byte. *)
Theorem toHex_length (arrayBuffer : list N) :
  String.length (toHex arrayBuffer) = (2 * List.length arrayBuffer)%nat.
Proof.
  induction arrayBuffer as [|n l IH]; [reflexivity|].
  rewrite toHex_cons. cbn [String.length List.length]. rewrite IH. lia.
Qed.

Lemma small_cases (n : N) :
  (n < 16)%N ->
  n = 0%N \/ n = 1%N \/ n = 2%N \/ n = 3%N \/ n = 4%N \/ n = 5%N \/ n = 6%N
  \/ n = 7%N \/ n = 8%N \/ n = 9%N \/ n = 10%N \/ n = 11%N \/ n = 12%N
  \/ n = 13%N \/ n = 14%N \/ n = 15%N.
Proof. lia. Qed.

Lemma hexDigit_inj (n m : N) :
  (n < 16)%N -> (m < 16)%N -> hexDigit n = hexDigit m -> n = m.
Proof.
  intros Hn Hm.
  apply small_cases in Hn. apply small_cases in Hm.
  repeat match goal with
         | H : _ \/ _ |- _ => destruct H as [H|H]
         end; subst; intros Heq; solve [reflexivity | discriminate Heq].
Qed.

Lemma byte_digits_inj (n m : N) :
  (n < 256)%N -> (m < 256)%N ->
  hexDigit (N.div n 16) = hexDigit (N.div m 16) ->
  hexDigit (N.modulo n 16) = hexDigit (N.modulo m 16) ->
  n = m.
Proof.
  intros Hn Hm Hhi Hlo.
  apply hexDigit_inj in Hhi;
    [|apply N.Div0.div_lt_upper_bound; lia..].
  apply hexDigit_inj in Hlo; [|apply N.mod_lt; lia..].
  rewrite (N.div_mod n 16), (N.div_mod m 16) by lia. now rewrite Hhi, Hlo.
Qed.

(** X5. On bytes, [toHex] loses nothing: two digests with the same
    hexadecimal text are the same digest. *)
Theorem toHex_injective (l1 l2 : list N) :
  Forall (fun n => (n < 256)%N) l1 ->
  Forall (fun n => (n < 256)%N) l2 ->
  toHex l1 = toHex l2 -> l1 = l2.
Proof.
  intros H1. revert l2.
  induction H1 as [|n l1 Hn H1 IH]; intros l2 H2 Heq.
  - destruct l2 as [|m l2]; [reflexivity|].
    rewrite toHex_cons in Heq. discriminate Heq.
  - destruct H2 as [|m l2 Hm H2]; [rewrite toHex_cons in Heq; discriminate Heq|].
    rewrite !toHex_cons in Heq. injection Heq as Hhi Hlo Htl.
    f_equal; [now apply byte_digits_inj | now apply IH].
Qed.

Lemma toHex_injective_witness :
  toHex [171%N; 18%N] = "ab12" /\ [171%N; 18%N] = [171%N; 18%N].
Proof.
  split; [reflexivity|].
  apply toHex_injective; [| |reflexivity];
    repeat constructor.
Defined.

Lemma append_inj_l (p a b : string) : p ++ a = p ++ b -> a = b.
Proof.
  induction p as [|c p IH]; [trivial|].
  rewrite !append_cons. intros H. injection H as H. now apply IH.
Qed.

Lemma append_inj_r (a b suffix : string) :
  a ++ suffix = b ++ suffix -> a = b.
Proof.
  revert b. induction a as [|c a IH]; intros b H.
  - destruct b as [|d b]; [reflexivity|].
    apply (f_equal String.length) in H.
    rewrite append_nil, append_cons in H. cbn [String.length] in H.
    rewrite length_append in H. lia.
  - destruct b as [|d b].
    + apply (f_equal String.length) in H.
      rewrite append_nil, append_cons in H. cbn [String.length] in H.
      rewrite length_append in H. lia.
    + rewrite !append_cons in H. injection H as -> H. f_equal. now apply IH.
Qed.

(** X6. The two stores are named after the scope path and nothing else: two
    scopes share a cache, or an index database, only if their paths are
    equal. *)
Theorem store_names_by_scope (p q : string) :
  (cacheName p = cacheName q -> p = q)
  /\ (dbName p = dbName q -> p = q).
Proof.
  unfold cacheName, dbName. split; intros H;
    apply append_inj_l in H; now apply append_inj_r in H.
Qed.

End EncodingSpec.

(** ** The manifest fetcher *)

Module FetcherSpec.
Import JsString JsStringFacts Parser Platform Fetcher Store SpecDefs.
Import ManifestText ParserMore EncodingSpec Fixtures.

(** [fetchAssetIndex] in terms of its parts. *)
Lemma fetchAssetIndex_parts (E : Env) (lm : option string) :
  fetchAssetIndex E lm
  = match fetchManifest E (if truthy lm then lm else None) with
    | None => None
    | Some response =>
        if negb (ok response) then None
        else
          match bytes response with
          | None => None
          | Some utf8Text =>
              match sha256 E utf8Text with
              | None => None
              | Some digest =>
                  Some {| indexHash := toHex digest;
                          lastModified := lastModifiedHeader response;
                          entries := manifestEntries (decode E utf8Text) |}
              end
          end
    end.
Proof. reflexivity. Qed.

Lemma fetchAssetIndex_Some (E : Env) (lm : option string) (a : AssetIndex) :
  fetchAssetIndex E lm = Some a ->
  exists response utf8Text digest,
    fetchManifest E (if truthy lm then lm else None) = Some response
    /\ ok response = true
    /\ bytes response = Some utf8Text
    /\ sha256 E utf8Text = Some digest
    /\ a = {| indexHash := toHex digest;
              lastModified := lastModifiedHeader response;
              entries := manifestEntries (decode E utf8Text) |}.
Proof.
  rewrite fetchAssetIndex_parts.
  destruct (fetchManifest E _) as [response|]; [|discriminate].
  destruct (ok response) eqn:Hok; [|discriminate].
  destruct (bytes response) as [utf8Text|] eqn:Hb; [|discriminate].
  destruct (sha256 E utf8Text) as [digest|] eqn:Hd; [|discriminate].
  cbn [negb]. intros H. injection H as <-.
  now exists response, utf8Text, digest.
Qed.

(** X7. The fetcher answers [null] exactly when the fetch throws, the
    response is not ok, the body cannot be read, or the digest is
    rejected.  The content of a body that was read never makes it answer
    [null]: every text, the empty one included, gives a manifest. *)
Theorem fetchAssetIndex_null (E : Env) (lm : option string) :
  fetchAssetIndex E lm = None
  <-> (fetchManifest E (if truthy lm then lm else None) = None
       \/ exists response,
            fetchManifest E (if truthy lm then lm else None) = Some response
            /\ (ok response = false
                \/ bytes response = None
                \/ exists utf8Text,
                     bytes response = Some utf8Text
                     /\ sha256 E utf8Text = None)).
Proof.
  rewrite fetchAssetIndex_parts.
  destruct (fetchManifest E _) as [response|]; [|intuition].
  split.
  - intros H. right. exists response. split; [reflexivity|].
    destruct (ok response); [|now left]. right. cbn [negb] in H.
    destruct (bytes response) as [utf8Text|]; [|now left]. right.
    exists utf8Text. split; [reflexivity|].
    destruct (sha256 E utf8Text); [discriminate H | reflexivity].
  - intros [H|(r & H & Hr)]; [discriminate H|]. injection H as <-.
    destruct Hr as [->|[->|(utf8Text & -> & ->)]];
      [reflexivity | now destruct (ok response)
      | now destruct (ok response)].
Qed.

Lemma split1_not_nil (sep : ascii) (s : string) : split1 sep s <> [].
Proof.
  destruct s as [|c s]; cbn [split1]; [discriminate|].
  destruct (Ascii.eqb c sep); [discriminate|].
  destruct (split1 sep s); discriminate.
Qed.

Lemma split1_app (sep : ascii) (a b : string) :
  split1 sep (a ++ String sep b) = (split1 sep a ++ split1 sep b)%list.
Proof.
  induction a as [|c a IH].
  - rewrite append_nil. cbn [split1]. now rewrite Ascii.eqb_refl.
  - rewrite append_cons. cbn [split1]. rewrite IH.
    destruct (Ascii.eqb c sep); [reflexivity|].
    pose proof (split1_not_nil sep a) as Hne.
    destruct (split1 sep a) as [|w ws]; [congruence | reflexivity].
Qed.

Lemma split1_line (sep : ascii) (l : string) :
  includes l (String sep "") = false -> split1 sep l = [l].
Proof.
  induction l as [|c l IH]; intros H; [reflexivity|].
  rewrite includes_cons in H. apply orb_false_iff in H as [Hc Hl].
  cbn [split1].
  assert (Hne : Ascii.eqb c sep = false).
  { apply Ascii.eqb_neq. intros ->.
    rewrite prefix_cons_same, prefix_nil in Hc. discriminate Hc. }
  rewrite Hne, IH by exact Hl. reflexivity.
Qed.

Lemma unlines_cons (l : string) (ls : list string) :
  unlines (l :: ls) = l ++ String LF (unlines ls).
Proof.
  unfold unlines. cbn [map]. rewrite concat_cons, append_assoc.
  now rewrite append_cons, append_nil.
Qed.

Lemma split1_unlines (ls : list string) :
  Forall (fun l => includes l (String LF "") = false) ls ->
  split1 LF (unlines ls) = (ls ++ [""])%list.
Proof.
  induction 1 as [|l ls Hl Hls IH]; [reflexivity|].
  rewrite unlines_cons, split1_app, split1_line by exact Hl.
  now rewrite IH.
Qed.

(** X8. The lines of a text file are its entries: of a text in which every
    line ends with a line feed, the empty lines are dropped, the final line
    feed adds nothing, and every other line gives one entry, in order. *)
Theorem manifest_lines (ls : list string) :
  Forall (fun l => includes l (String LF "") = false) ls ->
  manifestLines (unlines ls) = filter (fun l => 0 < len l) ls
  /\ manifestEntries (unlines ls)
     = withRoot (map parseAssetIndexEntry (filter (fun l => 0 < len l) ls)).
Proof.
  intros Hls.
  assert (H : manifestLines (unlines ls) = filter (fun l => 0 < len l) ls).
  { unfold manifestLines. rewrite split1_unlines by exact Hls.
    rewrite filter_app. rewrite filter_cons_False by (unfold len; cbn; lia).
    rewrite filter_nil. apply app_nil_r. }
  split; [exact H|]. unfold manifestEntries. now rewrite H.
Qed.

Lemma manifest_lines_witness :
  manifestEntries (unlines ["h1  a.js"; ""; "h2  b.css"])
  = [ {| hash := "h1"; path := "./a.js" |};
      {| hash := "h2"; path := "./b.css" |} ].
Proof.
  rewrite (proj2 (manifest_lines ["h1  a.js"; ""; "h2  b.css"]
                    ltac:(repeat constructor))).
  reflexivity.
Defined.

Lemma withRoot_paths (index : list AssetEntry) (p : string) :
  p ∈ map path (withRoot index) -> p = "./" \/ p ∈ map path index.
Proof.
  unfold withRoot. destruct (List.find _ index); [|now right].
  cbn [map path]. rewrite elem_of_cons. tauto.
Qed.

Lemma fetched_path_prefix (E : Env) (lm : option string) (a : AssetIndex) :
  fetchAssetIndex E lm = Some a ->
  forall p, p ∈ paths a -> startsWith p "./" = true.
Proof.
  intros Ha p Hp.
  apply fetchAssetIndex_Some in Ha
    as (response & utf8Text & digest & _ & _ & _ & _ & ->).
  unfold paths in Hp. cbn [entries] in Hp. unfold manifestEntries in Hp.
  apply withRoot_paths in Hp as [->|Hp]; [reflexivity|].
  rewrite map_map in Hp.
  apply CoordinatorFacts.elem_of_map_1 in Hp as (line & -> & _).
  apply parse_path_prefix.
Qed.

(** X9. Every path of a fetched manifest is scope-relative, the root entry
    included: no entry can take the key of the sentinel record. *)
Theorem fetched_paths_scoped (E : Env) (lm : option string) (a : AssetIndex) :
  fetchAssetIndex E lm = Some a ->
  forall p, p ∈ paths a ->
    startsWith p "./" = true /\ p <> IDB_KEY_OFFLINE_INDEX.
Proof.
  intros Ha p Hp. pose proof (fetched_path_prefix E lm a Ha p Hp) as H.
  split; [exact H|]. intros ->. discriminate H.
Qed.

Lemma fetched_paths_scoped_witness :
  startsWith "./a.js" "./" = true /\ "./a.js" <> IDB_KEY_OFFLINE_INDEX.
Proof.
  apply (fetched_paths_scoped sentinelFaultEnv None manifestAB eq_refl).
  apply elem_of_cons. now left.
Defined.

(** X10. The root entry: when [./index.html] is listed, the manifest starts
    with an entry for [./] that carries the digest of the first
    [./index.html] entry, followed by the listed entries; when it is not
    listed, the manifest is the listed entries and nothing else. *)
Theorem fetched_root_entry (E : Env) (lm : option string) (a : AssetIndex) :
  fetchAssetIndex E lm = Some a ->
  exists response utf8Text listed,
    fetchManifest E (if truthy lm then lm else None) = Some response
    /\ bytes response = Some utf8Text
    /\ listed = map parseAssetIndexEntry (manifestLines (decode E utf8Text))
    /\ ("./index.html" ∉ map path listed -> entries a = listed)
    /\ ("./index.html" ∈ map path listed ->
        exists e,
          List.find (fun e => String.eqb (path e) "./index.html") listed = Some e
          /\ path e = "./index.html"
          /\ entries a = {| hash := hash e; path := "./" |} :: listed).
Proof.
  intros Ha. apply fetchAssetIndex_Some in Ha
    as (response & utf8Text & digest & Hr & _ & Hb & _ & ->).
  exists response, utf8Text,
    (map parseAssetIndexEntry (manifestLines (decode E utf8Text))).
  split; [exact Hr|]. split; [exact Hb|]. split; [reflexivity|].
  cbn [entries]. unfold manifestEntries, withRoot.
  set (listed := map parseAssetIndexEntry (manifestLines (decode E utf8Text))).
  destruct (List.find _ listed) as [e|] eqn:Hfind.
  - apply find_some in Hfind as Hsome. destruct Hsome as [Hin Heq].
    apply String.eqb_eq in Heq. split.
    + intros Hno. exfalso. apply Hno. rewrite <- Heq.
      apply CoordinatorFacts.elem_of_map_2. now apply list_elem_of_In.
    + intros _. exists e. auto.
  - split; [reflexivity|]. intros Hyes. exfalso.
    apply CoordinatorFacts.elem_of_map_1 in Hyes as (e & He & Hin).
    apply list_elem_of_In in Hin.
    pose proof (find_none _ _ Hfind e Hin) as Hn. cbn in Hn.
    rewrite <- He, String.eqb_refl in Hn. discriminate Hn.
Qed.

Lemma fetched_root_entry_witness :
  exists a, fetchAssetIndex MoreDefs.rootEnv None = Some a
            /\ entries a = [ {| hash := "h0"; path := "./" |};
                             {| hash := "h0"; path := "./index.html" |};
                             {| hash := "h1"; path := "./a.js" |} ].
Proof.
  destruct (fetchAssetIndex MoreDefs.rootEnv None) as [a|] eqn:Ha;
    [|vm_compute in Ha; discriminate Ha].
  exists a. split; [reflexivity|].
  destruct (fetched_root_entry MoreDefs.rootEnv None a Ha)
    as (response & utf8Text & listed & Hr & Hb & Hl & _ & Hroot).
  vm_compute in Hr. injection Hr as <-. vm_compute in Hb. injection Hb as <-.
  vm_compute in Hl. subst listed.
  destruct Hroot as (e & Hfind & _ & ->).
  - apply elem_of_cons. now left.
  - vm_compute in Hfind. injection Hfind as <-. reflexivity.
Defined.

End FetcherSpec.

(** ** More on the refresh cycle *)

Module CycleFacts.
Import JsString Parser Platform Fetcher Store Coordinator SpecDefs MoreDefs.
Import CoordinatorFacts UpdateFacts RefreshFacts FailureSpec.

Section Tasks.
Variable E : Env.
Variable known : gmap string IndexRecord.

(** The requests of step 4, exactly. *)
Lemma updateAll_fetched_exact es s :
  fetched (snd (updateAll E known es s))
  = (fetched s
     ++ map path
          (List.filter
             (fun e => negb (getFails E (path e))
                       && negb (sameHash (known !! path e) e)) es))%list.
Proof.
  revert s. induction es as [|e rest IH]; intros s.
  - cbn. now rewrite app_nil_r.
  - rewrite updateAll_cons. cbn [snd List.filter]. rewrite IH.
    pose proof (updateOfflineAsset_end E known e s) as T.
    destruct (updateOfflineAsset E known e s) as [ok1 s1]. cbn [fst snd] in *.
    inversion T as [Hg|Hg Hs|Hg Hs Hf|b Hg Hs Hf Hp|b Hg Hs Hf Hp]; subst;
      rewrite Hg; try rewrite Hs; cbn [negb andb map];
      cbn [noteFetch setCache setIndex fetched];
      try reflexivity; now rewrite <- app_assoc.
Qed.


(** The bodies in the cache after step 4 were there before or were
    fetched for an entry. *)
Lemma updateAll_cache_origin es s u b :
  cache (snd (updateAll E known es s)) !! u = Some b ->
  cache s !! u = Some b
  \/ exists e, e ∈ es /\ u = resolveUrl E (path e)
               /\ fetchAsset E (path e) = Some b.
Proof.
  revert s. induction es as [|e rest IH]; intros s H; [now left|].
  rewrite updateAll_cons in H. cbn [snd] in H.
  apply IH in H as [H|(e' & He' & Hu & Hf)].
  - pose proof (updateOfflineAsset_end E known e s) as T.
    destruct (updateOfflineAsset E known e s) as [ok1 s1]. cbn [fst snd] in *.
    inversion T as [| | |b0 ? ? Hf0 ?|b0 ? ? Hf0 ?]; subst; try (now left);
      cbn [setIndex setCache cache noteFetch] in H;
      (destruct (decide (u = resolveUrl E (path e))) as [->|Hne];
       [rewrite lookup_insert_eq in H; injection H as ->; right; exists e;
        split; [apply elem_of_cons; now left | now split]
       |rewrite lookup_insert_ne in H by congruence; now left]).
  - right. exists e'. split; [apply elem_of_cons; now right | now split].
Qed.

End Tasks.

Section Cases.
Variable E : Env.

(** Without a manifest the cycle returns at line 73. *)
Lemma refreshCache_no_manifest cached db s :
  resolvedIndex E cached = None ->
  dbAvailable E db = true ->
  refreshCache E cached db s = (Fulfilled, s).
Proof.
  intros Ha Hdb. unfold refreshCache. unfold resolvedIndex in Ha. rewrite Ha.
  unfold dbAvailable in Hdb. destruct db; [reflexivity|].
  destruct (openFails E); [discriminate Hdb | reflexivity].
Qed.

(** The four ways through [refreshCache]. *)
Lemma refreshCache_cases cached db s :
  (dbAvailable E db = false /\ refreshCache E cached db s = (Rejected, s))
  \/ (dbAvailable E db = true /\ resolvedIndex E cached = None
      /\ refreshCache E cached db s = (Fulfilled, s))
  \/ (exists a, resolvedIndex E cached = Some a /\ dbAvailable E db = true
                /\ getAllKeysFails E = true
                /\ refreshCache E cached db s
                   = (Pending,
                      consoleError "Failed to retrieve known asset entries:" s))
  \/ (exists a, resolvedIndex E cached = Some a /\ dbAvailable E db = true
                /\ getAllKeysFails E = false
                /\ refreshCache E cached db s
                   = if fst (afterUpdate E a s)
                     then match idbPut E (sentinelRecord a) (afterEvict E a s) with
                          | Some s6 => (Fulfilled, s6)
                          | None => (Rejected, afterEvict E a s)
                          end
                     else (Rejected, snd (afterUpdate E a s))).
Proof.
  destruct (dbAvailable E db) eqn:Hdb;
    [|left; split; [reflexivity | now apply refreshCache_no_db]].
  right. destruct (resolvedIndex E cached) as [a|] eqn:Ha;
    [|left; repeat split; now apply refreshCache_no_manifest].
  right. destruct (getAllKeysFails E) eqn:Hgk; [left | right]; exists a;
    repeat split; try assumption.
  - now apply refreshCache_pending with (a := a).
  - now apply refreshCache_steps.
Qed.

Lemma afterUpdate_fetched a s :
  fetched (snd (afterUpdate E a s))
  = (fetched s ++ map path (List.filter (needsFetch E s) (entries a)))%list.
Proof.
  unfold afterUpdate. rewrite updateAll_fetched_exact, afterPrune_fetched.
  reflexivity.
Qed.

End Cases.

End CycleFacts.

(** ** Convergence, idempotence and failed updates *)

Module CycleClaims.
Import JsString JsStringFacts Parser Platform Fetcher Store Coordinator Worker.
Import SpecDefs MoreDefs Fixtures.
Import CoordinatorFacts UpdateFacts RefreshFacts FailureFacts FailureSpec.
Import CycleFacts.

Section FaultyPath.
Variable E : Env.
Variable known : gmap string IndexRecord.

(** No task writes the record of a path whose asset cannot be fetched or
    whose record cannot be written. *)
Lemma updateAll_faulty_index es s p :
  fetchAsset E p = None \/ putFails E p = true ->
  index (snd (updateAll E known es s)) !! p = index s !! p.
Proof.
  intros Hfault. revert s.
  induction es as [|e0 rest IH]; intros s; [reflexivity|].
  rewrite updateAll_cons. cbn [snd]. rewrite IH.
  pose proof (updateOfflineAsset_end E known e0 s) as T.
  destruct (updateOfflineAsset E known e0 s) as [ok1 s1]. cbn [fst snd] in *.
  destruct (decide (p = path e0)) as [->|Hne].
  - inversion T as [| | | |b ? ? Hb Hp]; subst; try reflexivity.
    destruct Hfault; congruence.
  - exact (task_index_frame _ _ _ _ _ _ _ T Hne).
Qed.

(** A body stored for a path stays as long as no other path resolves to
    its URL. *)
Lemma updateAll_cache_keep es s p body :
  fetchAsset E p = Some body ->
  (forall e0, e0 ∈ es ->
     path e0 = p \/ resolveUrl E (path e0) <> resolveUrl E p) ->
  cache s !! resolveUrl E p = Some body ->
  cache (snd (updateAll E known es s)) !! resolveUrl E p = Some body.
Proof.
  intros Hfetch. revert s.
  induction es as [|e0 rest IH]; intros s Hsep Hc; [exact Hc|].
  rewrite updateAll_cons. cbn [snd].
  apply IH; [intros e1 He1; apply Hsep, elem_of_cons; now right|].
  pose proof (updateOfflineAsset_end E known e0 s) as T.
  destruct (updateOfflineAsset E known e0 s) as [ok1 s1]. cbn [fst snd] in *.
  destruct (Hsep e0) as [Hp|Hu]; [apply elem_of_cons; now left | |].
  - inversion T as [| | |b ? ? Hb|b ? ? Hb]; subst; try exact Hc;
      cbn [setIndex setCache cache noteFetch];
      rewrite lookup_insert_eq; congruence.
  - rewrite (task_cache_frame _ _ _ _ _ _ _ T); [exact Hc | congruence].
Qed.

(** A task that fetched its asset leaves the body in the cache. *)
Lemma updateAll_written_cache es s e body :
  e ∈ es ->
  getFails E (path e) = false ->
  sameHash (known !! path e) e = false ->
  fetchAsset E (path e) = Some body ->
  (forall e0, e0 ∈ es ->
     path e0 = path e \/ resolveUrl E (path e0) <> resolveUrl E (path e)) ->
  cache (snd (updateAll E known es s)) !! resolveUrl E (path e) = Some body.
Proof.
  intros He Hget Hmis Hfetch. revert s He.
  induction es as [|e0 rest IH]; intros s He Hsep;
    [now apply elem_of_nil in He|].
  rewrite updateAll_cons. cbn [snd].
  assert (Hrest : forall e1, e1 ∈ rest ->
            path e1 = path e
            \/ resolveUrl E (path e1) <> resolveUrl E (path e))
    by (intros e1 He1; apply Hsep, elem_of_cons; now right).
  apply elem_of_cons in He as [->|He]; [|now apply IH].
  apply updateAll_cache_keep; try assumption.
  pose proof (updateOfflineAsset_end E known e0 s) as T.
  destruct (updateOfflineAsset E known e0 s) as [ok1 s1]. cbn [fst snd] in *.
  inversion T as [| | |b ? ? Hb|b ? ? Hb]; subst; try congruence;
    cbn [setIndex setCache cache noteFetch];
    rewrite lookup_insert_eq; congruence.
Qed.

End FaultyPath.

(** C6, as the code has it.  In a cycle that reaches step 4, let the
    update of an entry fail: the comparison of line 156 shows a mismatch
    (on the records that step 3 left) and the asset cannot be fetched or
    the record cannot be written.  Then the cycle is rejected in the
    state that step 4 leaves: steps 5, 6 and 7 do not run, so no obsolete
    record is deleted, no body is evicted and the sentinel is not
    written.  Step 4 logs nothing: the rejection is logged once by each
    [catch] handler attached to the cycle.  The entry's record is not
    replaced, so its digest still mismatches; its cached body is
    untouched when the fetch failed and is the new body when only the
    write failed (as long as no other path of the manifest resolves to the
    same URL).  Every task runs to its end: each entry that needs it is
    requested, and the entries whose requests work are recorded (when no
    path is listed twice).  On the next cycle the entry is requested
    again. *)
Theorem update_failure_rejects_cycle (E : Env) (cached : option AssetIndex)
    (db : option IDBDatabase) (a : AssetIndex) (e : AssetEntry) (s : St) :
  resolvedIndex E cached = Some a ->
  dbAvailable E db = true ->
  getAllKeysFails E = false ->
  e ∈ entries a ->
  getFails E (path e) = false ->
  sameHash (index (afterPrune E s) !! path e) e = false ->
  fetchAsset E (path e) = None \/ putFails E (path e) = true ->
  let r := refreshCache E cached db s in
  r = (Rejected, snd (afterUpdate E a s))
  /\ index (snd r) !! path e = index (afterPrune E s) !! path e
  /\ (index (snd r) !! path e = index s !! path e
      \/ index (snd r) !! path e = None)
  /\ sameHash (index (snd r) !! path e) e = false
  /\ ((forall e0, e0 ∈ entries a ->
         path e0 = path e
         \/ resolveUrl E (path e0) <> resolveUrl E (path e)) ->
      (fetchAsset E (path e) = None ->
       cache (snd r) !! resolveUrl E (path e)
       = cache s !! resolveUrl E (path e))
      /\ (forall body, fetchAsset E (path e) = Some body ->
            cache (snd r) !! resolveUrl E (path e) = Some body))
  /\ fetched (snd r)
     = (fetched s ++ map path (List.filter (needsFetch E s) (entries a)))%list
  /\ (NoDup (paths a) ->
      forall e', e' ∈ entries a ->
        getFails E (path e') = false ->
        is_Some (fetchAsset E (path e')) ->
        putFails E (path e') = false ->
        exists r', index (snd r) !! path e' = Some r'
                   /\ recHash r' = hash e')
  /\ (forall k, k ∉ paths a ->
        index (snd r) !! k = index (afterPrune E s) !! k)
  /\ (forall k, k ∉ paths a -> is_Some (cache s !! resolveUrl E k) ->
        index (snd r) !! k = index s !! k)
  /\ (forall u, is_Some (cache s !! u) -> is_Some (cache (snd r) !! u))
  /\ (IDB_KEY_OFFLINE_INDEX ∉ paths a ->
      index (snd r) !! IDB_KEY_OFFLINE_INDEX
      = index s !! IDB_KEY_OFFLINE_INDEX
      \/ index (snd r) !! IDB_KEY_OFFLINE_INDEX = None)
  /\ log (snd r) = log (afterPrune E s)
  /\ (forall w c,
        refreshCachePromise w = Some c ->
        cycleIndex c = cached -> cycleDb c = db -> store w = s ->
        refreshCachePromise (settle E w) = None
        /\ log (store (settle E w))
           = (log (afterPrune E s)
              ++ replicate (catchers w) "Failed to refresh offline cache:")%list)
  /\ (forall E2 cached2 db2,
        resolvedIndex E2 cached2 = Some a ->
        dbAvailable E2 db2 = true ->
        getAllKeysFails E2 = false ->
        getFails E2 (path e) = false ->
        exists l,
          fetched (snd (refreshCache E2 cached2 db2 (snd r)))
          = (fetched (snd r) ++ l)%list
          /\ path e ∈ l).
Proof.
  intros Ha Hdb Hgk He Hget Hmis Hfault r.
  set (known := index (afterPrune E s)) in *.
  assert (Hbad : taskOk E known e = false).
  { unfold taskOk. rewrite Hget, Hmis. cbn [negb andb orb].
    destruct Hfault as [-> | Hput]; [reflexivity|].
    rewrite Hput. now destruct (fetchAsset E (path e)). }
  assert (Hfail : fst (afterUpdate E a s) = false)
    by (eapply updateAll_fails; eassumption).
  assert (Hr : r = (Rejected, snd (afterUpdate E a s))).
  { unfold r. rewrite (refreshCache_steps _ _ _ _ _ Ha Hdb Hgk).
    now rewrite Hfail. }
  assert (Hidx : index (snd (afterUpdate E a s)) !! path e = known !! path e)
    by now apply updateAll_faulty_index.
  assert (Hframe : forall k, k ∉ paths a ->
            index (snd (afterUpdate E a s)) !! k = known !! k).
  { intros k Hk. unfold afterUpdate. now apply updateAll_index_frame. }
  rewrite Hr. cbn [fst snd].
  split; [reflexivity|]. split; [exact Hidx|]. split.
  { rewrite Hidx. unfold known. rewrite afterPrune_lookup.
    destruct (pruned E (cache s) (path e)); auto. }
  split; [now rewrite Hidx|]. split.
  { intros Hsep. split.
    - intros Hnone. unfold afterUpdate.
      rewrite updateAll_failed_cache by assumption.
      now rewrite afterPrune_cache.
    - intros body Hbody. unfold afterUpdate.
      now apply updateAll_written_cache. }
  split; [apply afterUpdate_fetched|]. split.
  { intros Hnd e' He' Hg' Hf' Hp'. unfold afterUpdate.
    apply updateAll_entry_done; try assumption; [|reflexivity].
    unfold taskOk. rewrite Hg', Hp'. destruct Hf' as [b ->].
    cbn [negb andb]. apply orb_true_r. }
  split; [exact Hframe|]. split.
  { intros k Hk Hbody. rewrite Hframe by exact Hk.
    now apply afterPrune_lookup_cached. }
  split.
  { intros u Hu. unfold afterUpdate. apply updateAll_cache_mono.
    now rewrite afterPrune_cache. }
  split.
  { intros Hk. rewrite Hframe by exact Hk. unfold known.
    rewrite afterPrune_lookup.
    destruct (pruned E (cache s) IDB_KEY_OFFLINE_INDEX); auto. }
  split; [apply updateAll_log|]. split.
  { intros w c Hflag Hci Hcd Hst.
    assert (Hrun : refreshCache E (cycleIndex c) (cycleDb c) (store w)
                   = (Rejected, snd (afterUpdate E a s)))
      by (rewrite Hci, Hcd, Hst; exact Hr).
    destruct (WorkerSpec.settle_rejected E w c _ Hflag Hrun) as [Hnone Hlog].
    split; [exact Hnone|]. rewrite Hlog. f_equal. apply updateAll_log. }
  intros E2 cached2 db2 Ha2 Hdb2 Hgk2 Hget2.
  rewrite (refreshCache_fetched _ _ _ _ _ Ha2 Hdb2 Hgk2).
  unfold afterUpdate at 1.
  destruct (updateAll_fetches E2
              (index (afterPrune E2 (snd (afterUpdate E a s))))
              (entries a) (afterPrune E2 (snd (afterUpdate E a s))) e He Hget2)
    as (l & Hl & Hin).
  - apply sameHash_after_prune. now rewrite Hidx.
  - exists l. split; [|exact Hin]. now rewrite Hl, afterPrune_fetched.
Qed.

Lemma update_failure_rejects_cycle_witness :
  (fst (refreshCache putFaultEnv (Some manifestAB) None staleA) = Rejected
   /\ cache (snd (refreshCache putFaultEnv (Some manifestAB) None staleA))
        !! "https://h/app/a.js" = Some "body of ./a.js"
   /\ index (snd (refreshCache putFaultEnv (Some manifestAB) None staleA))
        !! "./a.js" = index staleA !! "./a.js")
  /\ (fst (refreshCache fetchFaultEnv (Some manifestAB) None driftedAB) = Rejected
      /\ index (snd (refreshCache fetchFaultEnv (Some manifestAB) None driftedAB))
           !! "./a.js" = None
      /\ fetched (snd (refreshCache fetchFaultEnv (Some manifestAB) None driftedAB))
         = ["./a.js"]).
Proof.
  assert (HA : entryA ∈ entries manifestAB)
    by (apply elem_of_cons; now left).
  assert (Hsep : forall E, resolveUrl E = resolveUrl appEnv ->
            forall e0, e0 ∈ entries manifestAB ->
              path e0 = path entryA
              \/ resolveUrl E (path e0) <> resolveUrl E (path entryA)).
  { intros E HE e0 He0. rewrite HE. apply list_elem_of_In in He0. cbn in He0.
    destruct He0 as [<-|[<-|[]]]; [now left | right; discriminate]. }
  split.
  - destruct (update_failure_rejects_cycle putFaultEnv (Some manifestAB) None
                manifestAB entryA staleA eq_refl eq_refl eq_refl HA eq_refl
                ltac:(vm_compute; reflexivity) (or_intror eq_refl))
      as (Hr & Hidx & _ & _ & Hcache & _).
    split; [now rewrite Hr|]. split.
    + apply (proj2 (Hcache (Hsep putFaultEnv eq_refl))). reflexivity.
    + etransitivity; [exact Hidx | vm_compute; reflexivity].
  - destruct (update_failure_rejects_cycle fetchFaultEnv (Some manifestAB) None
                manifestAB entryA driftedAB eq_refl eq_refl eq_refl HA eq_refl
                ltac:(vm_compute; reflexivity) (or_introl eq_refl))
      as (Hr & Hidx & _ & _ & _ & Hfetched & _).
    split; [now rewrite Hr|]. split.
    + etransitivity; [exact Hidx | vm_compute; reflexivity].
    + etransitivity; [exact Hfetched | vm_compute; reflexivity].
Defined.

(** What a fulfilled cycle leaves for the entries of its manifest: each
    has a record with its digest and, after step 4, a body. *)
Lemma fulfilled_entries (E : Env) (cached : option AssetIndex)
    (db : option IDBDatabase) (a : AssetIndex) (s s' : St) :
  NoDup (paths a) ->
  (forall k, deleteFails E k = false) ->
  resolvedIndex E cached = Some a ->
  refreshCache E cached db s = (Fulfilled, s') ->
  forall e, e ∈ entries a ->
    (exists r, index (snd (afterUpdate E a s)) !! path e = Some r
               /\ recHash r = hash e)
    /\ is_Some (cache (snd (afterUpdate E a s)) !! resolveUrl E (path e)).
Proof.
  intros Hnd Hdel Ha Hrun e He.
  destruct (fulfilled_shape _ _ _ _ _ _ Ha Hrun) as (Hok & _ & _).
  pose proof (updateAll_done E (index (afterPrune E s)) (entries a)
                (afterPrune E s) Hnd Hok) as Hdone.
  fold (afterUpdate E a s) in Hdone.
  destruct (Hdone e He) as [[Hs Hi]|[Hi Hc]].
  - apply sameHash_true in Hs as (r & Hr & Hh). split.
    + exists r. now rewrite Hi.
    + apply updateAll_cache_mono. rewrite afterPrune_cache.
      apply afterPrune_has_body; [apply Hdel | rewrite Hr; eauto].
  - split; [|exact Hc]. exists (entryRecord e). now split.
Qed.

(** A fulfilled cycle leaves stores that mirror its manifest as soon as
    the URL of every path leads back to a path of the manifest. *)
Lemma refresh_converges_back (E : Env) (cached : option AssetIndex)
    (db : option IDBDatabase) (a : AssetIndex) (s s' : St) :
  NoDup (paths a) ->
  (forall p, p ∈ paths a -> startsWith p "./" = true) ->
  (forall p, p ∈ paths a -> derivedPath E (resolveUrl E p) ∈ paths a) ->
  (forall k, deleteFails E k = false) ->
  resolvedIndex E cached = Some a ->
  refreshCache E cached db s = (Fulfilled, s') ->
  converged E a s'.
Proof.
  intros Hnd Hscoped Hback Hdel Ha Hrun.
  pose proof (fulfilled_entries E cached db a s s' Hnd Hdel Ha Hrun) as Hentry.
  destruct (fulfilled_shape _ _ _ _ _ _ Ha Hrun) as (Hok & _ & ->).
  split; [|split; [|split]].
  - intros e He.
    assert (Hp : path e ∈ paths a) by now apply elem_of_map_2.
    apply knownPath_true in Hp as Hkn. split.
    + cbn [setIndex index].
      rewrite lookup_insert_ne
        by (apply not_eq_sym, scoped_not_sentinel, Hscoped, Hp).
      rewrite afterEvict_index. unfold obsolete.
      rewrite Hkn. cbn [negb andb].
      rewrite andb_false_r. apply Hentry, He.
    + cbn [setIndex cache]. rewrite afterEvict_cache.
      rewrite (proj2 (knownPath_true a _) (Hback _ Hp)). apply Hentry, He.
  - intros k. cbn [setIndex index].
    destruct (decide (k = IDB_KEY_OFFLINE_INDEX)) as [->|Hne]; [now right|].
    rewrite lookup_insert_ne by congruence. rewrite afterEvict_index.
    unfold obsolete. rewrite Hdel. cbn [negb]. rewrite andb_true_r.
    destruct (knownPath a k) eqn:Hk; [left; now apply knownPath_true|].
    cbn [negb]. rewrite andb_true_r.
    case_bool_decide as Hin; [intros [? ?]; discriminate|].
    intros Hsome. apply updateAll_index_dom in Hsome as [Hsome|Hsome].
    + exfalso. apply Hin. destruct Hsome as [r Hr].
      apply afterPrune_lookup_Some in Hr. eauto.
    + now left.
  - intros u. cbn [setIndex cache]. rewrite afterEvict_cache.
    destruct (knownPath a (derivedPath E u)) eqn:Hk;
      [intros _; now apply knownPath_true | intros [? ?]; discriminate].
  - cbn [setIndex index]. apply lookup_insert_eq.
Qed.

(** What step 4 leaves from empty stores for a manifest of two entries. *)
Lemma update_from_empty (E : Env) (a : AssetIndex) (A B h1 h2 : string) :
  entries a = [ {| hash := h1; path := A |}; {| hash := h2; path := B |} ] ->
  fst (afterUpdate E a emptySt) = true ->
  exists bA bB,
    fetchAsset E A = Some bA /\ fetchAsset E B = Some bB
    /\ snd (afterUpdate E a emptySt)
       = {| index := <[B := {| recPath := B; recHash := h2;
                               recLastModified := None |}]>
                       (<[A := {| recPath := A; recHash := h1;
                                  recLastModified := None |}]> ∅);
            cache := <[resolveUrl E B := bB]> (<[resolveUrl E A := bA]> ∅);
            log := [];
            fetched := [A; B] |}.
Proof.
  intros Hentries Hok.
  unfold afterUpdate in *. rewrite RefreshSpec.afterPrune_empty in *.
  rewrite Hentries in *. cbn [emptySt index] in *.
  rewrite !updateAll_cons in *. cbn [fst snd updateAll] in *.
  apply andb_true_iff in Hok as [H1 H2].
  apply andb_true_iff in H2 as [H2 _].
  pose proof (updateOfflineAsset_end E ∅ {| hash := h1; path := A |} emptySt)
    as T1.
  destruct (updateOfflineAsset E ∅ {| hash := h1; path := A |} emptySt)
    as [ok1 s1]. cbn [fst snd] in *. subst ok1.
  inversion T1 as [|? Hs| | |bA ? ? HfA ?]; subst;
    [rewrite lookup_empty in Hs; discriminate Hs|].
  match goal with
  | |- context [updateOfflineAsset E ∅ ?e ?s] =>
      pose proof (updateOfflineAsset_end E ∅ e s) as T2;
      destruct (updateOfflineAsset E ∅ e s) as [ok2 s2]
  end.
  cbn [fst snd] in *. subst ok2.
  inversion T2 as [|? Hs| | |bB ? ? HfB ?]; subst;
    [rewrite lookup_empty in Hs; discriminate Hs|].
  exists bA, bB. cbn in HfA, HfB. repeat split; assumption.
Qed.

(** C3, as the code has it.  For a manifest with the two entries A at h1
    and B at h2, from an empty cache and an empty index: with no fault
    the cycle is fulfilled, and a fulfilled cycle has requested A and B
    and leaves an index that holds exactly the record of A with h1, the
    record of B with h2 and the sentinel with the manifest's digest.  The
    cache holds the body fetched for an entry only if line 133 leads from
    the URL under which [cache.add] stored it back to a path of the
    manifest: then the cache holds exactly the bodies of A and B.  A body
    whose URL does not lead back (a path that the URL parser
    percent-encodes) is evicted by step 6 of the cycle that fetched
    it. *)
Theorem refresh_from_empty (E : Env) (cached : option AssetIndex)
    (db : option IDBDatabase) (a : AssetIndex) (A B h1 h2 : string) :
  resolvedIndex E cached = Some a ->
  entries a = [ {| hash := h1; path := A |}; {| hash := h2; path := B |} ] ->
  (faultFree E a -> fst (refreshCache E cached db emptySt) = Fulfilled)
  /\ forall s', refreshCache E cached db emptySt = (Fulfilled, s') ->
       exists bA bB,
         fetchAsset E A = Some bA /\ fetchAsset E B = Some bB
         /\ index s'
            = <[IDB_KEY_OFFLINE_INDEX := sentinelRecord a]>
                (<[B := {| recPath := B; recHash := h2;
                           recLastModified := None |}]>
                   (<[A := {| recPath := A; recHash := h1;
                              recLastModified := None |}]> ∅))
         /\ index s' !! IDB_KEY_OFFLINE_INDEX
            = Some {| recPath := IDB_KEY_OFFLINE_INDEX;
                      recHash := indexHash a;
                      recLastModified := lastModified a |}
         /\ (A <> B -> A <> IDB_KEY_OFFLINE_INDEX ->
             B <> IDB_KEY_OFFLINE_INDEX ->
             index s' !! A
             = Some {| recPath := A; recHash := h1; recLastModified := None |}
             /\ index s' !! B
                = Some {| recPath := B; recHash := h2;
                          recLastModified := None |})
         /\ fetched s' = [A; B]
         /\ (forall u,
               cache s' !! u
               = if knownPath a (derivedPath E u)
                 then (<[resolveUrl E B := bB]>
                         (<[resolveUrl E A := bA]> (∅ : gmap string Body)))
                      !! u
                 else None)
         /\ (derivedPath E (resolveUrl E A) ∈ paths a ->
             derivedPath E (resolveUrl E B) ∈ paths a ->
             cache s' = <[resolveUrl E B := bB]> (<[resolveUrl E A := bA]> ∅))
         /\ (derivedPath E (resolveUrl E A) ∉ paths a ->
             cache s' !! resolveUrl E A = None)
         /\ (derivedPath E (resolveUrl E B) ∉ paths a ->
             cache s' !! resolveUrl E B = None).
Proof.
  intros Ha Hentries. split; [now apply refresh_faultFree|].
  intros s' Hrun.
  destruct (fulfilled_shape _ _ _ _ _ _ Ha Hrun) as (Hok & _ & ->).
  destruct (update_from_empty E a A B h1 h2 Hentries Hok)
    as (bA & bB & HfA & HfB & Hs3).
  exists bA, bB.
  assert (Hidx : index (afterEvict E a emptySt)
                 = <[B := {| recPath := B; recHash := h2;
                             recLastModified := None |}]>
                     (<[A := {| recPath := A; recHash := h1;
                                recLastModified := None |}]> ∅)).
  { unfold afterEvict. cbv zeta. rewrite evictCache_index, deleteObsolete_index.
    cbn [emptySt index]. rewrite getAllKeys_empty.
    cbn [deleteWhere]. now rewrite Hs3. }
  assert (Hcache : forall u,
            cache (afterEvict E a emptySt) !! u
            = if knownPath a (derivedPath E u)
              then (<[resolveUrl E B := bB]>
                      (<[resolveUrl E A := bA]> (∅ : gmap string Body))) !! u
              else None).
  { intros u. now rewrite afterEvict_cache, Hs3. }
  cbn [setIndex index cache fetched]. rewrite Hidx.
  split; [exact HfA|]. split; [exact HfB|]. split; [reflexivity|].
  split; [now rewrite lookup_insert_eq|]. split.
  { intros HAB HA HB. split.
    - rewrite lookup_insert_ne, lookup_insert_ne, lookup_insert_eq
        by congruence. reflexivity.
    - rewrite lookup_insert_ne, lookup_insert_eq by congruence. reflexivity. }
  split; [now rewrite afterEvict_fetched, Hs3|].
  split; [exact Hcache|]. split; [|split].
  - intros HbackA HbackB. apply map_eq. intros u. rewrite Hcache.
    destruct (knownPath a (derivedPath E u)) eqn:Hk; [reflexivity|].
    apply knownPath_false in Hk.
    rewrite !lookup_insert_ne, lookup_empty; [reflexivity | |];
      intros <-; contradiction.
  - intros Hn. rewrite Hcache. apply knownPath_false in Hn. now rewrite Hn.
  - intros Hn. rewrite Hcache. apply knownPath_false in Hn. now rewrite Hn.
Qed.

Lemma refresh_from_empty_witness :
  (fst (refreshCache encodingEnv (Some manifestSpaced) None emptySt) = Fulfilled
   /\ index (snd (refreshCache encodingEnv (Some manifestSpaced) None emptySt))
        !! "./a b.js"
      = Some {| recPath := "./a b.js"; recHash := "h3";
                recLastModified := None |}
   /\ resolveUrl encodingEnv "./a b.js" = "https://h/app/a%20b.js"
   /\ cache (snd (refreshCache encodingEnv (Some manifestSpaced) None emptySt))
        !! "https://h/app/a%20b.js" = None)
  /\ (fst (refreshCache appEnv (Some manifestAB) None emptySt) = Fulfilled
      /\ cache (snd (refreshCache appEnv (Some manifestAB) None emptySt))
         = <[ "https://h/app/b.css" := "body of ./b.css" ]>
             (<[ "https://h/app/a.js" := "body of ./a.js" ]> ∅)).
Proof.
  split.
  - destruct (refresh_from_empty encodingEnv (Some manifestSpaced) None
                manifestSpaced "./a b.js" "./c.js" "h3" "h4" eq_refl eq_refl)
      as [Hf Hs].
    assert (Hful : fst (refreshCache encodingEnv (Some manifestSpaced) None
                          emptySt) = Fulfilled).
    { apply Hf. repeat split. intros p _. cbn. eauto. }
    split; [exact Hful|].
    destruct (refreshCache encodingEnv (Some manifestSpaced) None emptySt)
      as [o s'] eqn:Hrun.
    cbn [fst snd] in *. subst o.
    destruct (Hs s' eq_refl)
      as (bA & bB & _ & _ & _ & _ & Hrec & _ & _ & _ & HnoA & _).
    split; [apply Hrec; discriminate|].
    split; [vm_compute; reflexivity|].
    apply HnoA. apply knownPath_false. vm_compute. reflexivity.
  - destruct (refresh_from_empty appEnv (Some manifestAB) None
                manifestAB "./a.js" "./b.css" "h1" "h2" eq_refl eq_refl)
      as [Hf Hs].
    assert (Hful : fst (refreshCache appEnv (Some manifestAB) None emptySt)
                   = Fulfilled)
      by apply Hf, RefreshSpec.faultFree_appEnv.
    split; [exact Hful|].
    destruct (refreshCache appEnv (Some manifestAB) None emptySt)
      as [o s'] eqn:Hrun.
    cbn [fst snd] in *. subst o.
    destruct (Hs s' eq_refl)
      as (bA & bB & HfA & HfB & _ & _ & _ & _ & _ & Hall & _).
    cbn in HfA, HfB. injection HfA as <-. injection HfB as <-.
    apply Hall; apply knownPath_true; vm_compute; reflexivity.
Defined.

(** C4, as the code has it.  After a fulfilled cycle (index deletes
    working) for a manifest whose paths are distinct and scope-relative,
    every entry is recorded with its digest, and its body is in the cache
    exactly when line 133 leads from its URL back to a path of the
    manifest.  A second cycle for the same manifest requests exactly the
    entries whose body is missing for that reason (where their read and
    their delete work).  So when every URL leads back, the second cycle
    requests nothing, skips every entry whose read works, leaves index
    and cache as they were when it is fulfilled, and is fulfilled when
    its requests work; an entry whose URL does not lead back is requested
    again by every cycle. *)
Theorem second_refresh_requests (E1 E2 : Env)
    (cached1 cached2 : option AssetIndex) (db1 db2 : option IDBDatabase)
    (a : AssetIndex) (s0 s1 : St) :
  NoDup (paths a) ->
  (forall p, p ∈ paths a -> startsWith p "./" = true) ->
  sameScope E1 E2 ->
  (forall k, deleteFails E1 k = false) ->
  resolvedIndex E1 cached1 = Some a ->
  resolvedIndex E2 cached2 = Some a ->
  refreshCache E1 cached1 db1 s0 = (Fulfilled, s1) ->
  (forall e, e ∈ entries a ->
     (exists r, index s1 !! path e = Some r /\ recHash r = hash e)
     /\ (is_Some (cache s1 !! resolveUrl E1 (path e))
         <-> derivedPath E1 (resolveUrl E1 (path e)) ∈ paths a))
  /\ fetched (snd (refreshCache E2 cached2 db2 s1))
     = (if dbAvailable E2 db2 && negb (getAllKeysFails E2)
        then fetched s1
             ++ map path
                  (List.filter
                     (fun e =>
                        negb (getFails E2 (path e))
                        && (negb (knownPath a
                                    (derivedPath E1 (resolveUrl E1 (path e))))
                            && negb (deleteFails E2 (path e))))
                     (entries a))
        else fetched s1)%list
  /\ (forall e, e ∈ entries a ->
        derivedPath E1 (resolveUrl E1 (path e)) ∉ paths a ->
        dbAvailable E2 db2 = true ->
        getAllKeysFails E2 = false ->
        getFails E2 (path e) = false ->
        deleteFails E2 (path e) = false ->
        exists l, fetched (snd (refreshCache E2 cached2 db2 s1))
                  = (fetched s1 ++ l)%list
                  /\ path e ∈ l)
  /\ ((forall p, p ∈ paths a -> derivedPath E1 (resolveUrl E1 p) ∈ paths a) ->
      forall o s2, refreshCache E2 cached2 db2 s1 = (o, s2) ->
        fetched s2 = fetched s1
        /\ (forall e s, e ∈ entries a -> getFails E2 (path e) = false ->
              updateOfflineAsset E2 (index (afterPrune E2 s1)) e s = (true, s))
        /\ (o = Fulfilled -> index s2 = index s1 /\ cache s2 = cache s1)
        /\ (dbAvailable E2 db2 = true ->
            getAllKeysFails E2 = false ->
            (forall p, p ∈ paths a -> getFails E2 p = false) ->
            putFails E2 IDB_KEY_OFFLINE_INDEX = false ->
            o = Fulfilled)).
Proof.
  intros Hnd Hscoped Hsc Hdel Ha1 Ha2 Hrun1.
  pose proof Hsc as (_ & Hres & _).
  pose proof (fulfilled_entries E1 cached1 db1 a s0 s1 Hnd Hdel Ha1 Hrun1)
    as Hentry.
  destruct (fulfilled_shape _ _ _ _ _ _ Ha1 Hrun1) as (_ & _ & Hs1).
  assert (Hidx : forall e, e ∈ entries a ->
            exists r, index s1 !! path e = Some r /\ recHash r = hash e).
  { intros e He.
    assert (Hp : path e ∈ paths a) by now apply elem_of_map_2.
    apply knownPath_true in Hp as Hkn.
    rewrite Hs1. cbn [setIndex index].
    rewrite lookup_insert_ne
      by (apply not_eq_sym, scoped_not_sentinel, Hscoped, Hp).
    rewrite afterEvict_index. unfold obsolete. rewrite Hkn.
    cbn [negb andb]. rewrite andb_false_r. apply Hentry, He. }
  assert (Hcache : forall e, e ∈ entries a ->
            cache s1 !! resolveUrl E1 (path e)
            = if knownPath a (derivedPath E1 (resolveUrl E1 (path e)))
              then cache (snd (afterUpdate E1 a s0)) !! resolveUrl E1 (path e)
              else None).
  { intros e He. rewrite Hs1. cbn [setIndex cache]. apply afterEvict_cache. }
  assert (Hbody : forall e, e ∈ entries a ->
            is_Some (cache s1 !! resolveUrl E1 (path e))
            <-> derivedPath E1 (resolveUrl E1 (path e)) ∈ paths a).
  { intros e He. rewrite (Hcache e He), <- knownPath_true.
    destruct (knownPath a _); split; try reflexivity.
    - intros _. apply Hentry, He.
    - intros [? ?]; discriminate.
    - discriminate. }
  assert (Hneeds : forall e, e ∈ entries a ->
            needsFetch E2 s1 e
            = negb (getFails E2 (path e))
              && (negb (knownPath a (derivedPath E1 (resolveUrl E1 (path e))))
                  && negb (deleteFails E2 (path e)))).
  { intros e He. unfold needsFetch. f_equal.
    rewrite afterPrune_lookup. unfold pruned. rewrite <- Hres.
    destruct (Hidx e He) as (r & Hr & Hh). rewrite Hr.
    pose proof (Hbody e He) as Hb. rewrite <- knownPath_true in Hb.
    destruct (knownPath a (derivedPath E1 (resolveUrl E1 (path e)))).
    - rewrite bool_decide_eq_true_2 by now apply Hb.
      cbn [negb andb]. now rewrite sameHash_intro.
    - rewrite bool_decide_eq_false_2
        by (intros H; apply Hb in H; discriminate H).
      cbn [negb andb]. destruct (deleteFails E2 (path e)); cbn [negb].
      + now rewrite sameHash_intro.
      + reflexivity. }
  assert (Hfetched : fetched (snd (refreshCache E2 cached2 db2 s1))
            = (if dbAvailable E2 db2 && negb (getAllKeysFails E2)
               then fetched s1
                    ++ map path
                         (List.filter
                            (fun e =>
                               negb (getFails E2 (path e))
                               && (negb (knownPath a
                                           (derivedPath E1
                                              (resolveUrl E1 (path e))))
                                   && negb (deleteFails E2 (path e))))
                            (entries a))
               else fetched s1)%list).
  { destruct (dbAvailable E2 db2) eqn:Hdb; cbn [andb];
      [|now rewrite refreshCache_no_db].
    destruct (getAllKeysFails E2) eqn:Hgk; cbn [negb].
    - now rewrite (refreshCache_pending E2 cached2 db2 a s1 Ha2 Hdb Hgk).
    - rewrite (refreshCache_fetched E2 cached2 db2 a s1 Ha2 Hdb Hgk).
      rewrite afterUpdate_fetched. f_equal. f_equal.
      apply List.filter_ext_in. intros e He. apply Hneeds.
      now apply list_elem_of_In. }
  split; [intros e He; split; [now apply Hidx | now apply Hbody]|].
  split; [exact Hfetched|]. split.
  { intros e He Hn Hdb Hgk Hget Hd2. rewrite Hfetched, Hdb, Hgk.
    cbn [negb andb]. eexists. split; [reflexivity|].
    apply elem_of_map_2, list_elem_of_In, List.filter_In.
    split; [now apply list_elem_of_In|].
    apply knownPath_false in Hn. now rewrite Hget, Hn, Hd2. }
  intros Hback o s2 Hrun2.
  pose proof (refresh_converges_back E1 cached1 db1 a s0 s1 Hnd Hscoped Hback
                Hdel Ha1 Hrun1) as Hconv1.
  pose proof (converged_scope _ _ _ _ Hsc Hconv1) as Hconv.
  destruct (refresh_converged_noop _ _ _ _ _ _ _ Hconv Hscoped Ha2 Hrun2)
    as [Hsame Hstores].
  split; [exact Hsame|]. split; [|split; [exact Hstores|]].
  - intros e s He Hget. destruct Hconv as (Hent & _).
    destruct (Hent e He) as [(r & Hr & Hh) Hc].
    unfold updateOfflineAsset, idbGet. rewrite Hget.
    rewrite afterPrune_lookup_cached by exact Hc.
    rewrite Hr, sameHash_intro by exact Hh. reflexivity.
  - intros Hdb Hgk Hget Hput.
    pose proof (refresh_converged_fulfilled _ _ db2 _ _ Hconv Ha2 Hdb Hgk
                  Hget Hput) as Hful.
    now rewrite Hrun2 in Hful.
Qed.

Lemma second_refresh_requests_witness :
  fetched (snd (refreshCache encodingEnv (Some manifestSpaced) None
                  (snd (refreshCache encodingEnv (Some manifestSpaced) None
                          emptySt))))
  = ["./a b.js"; "./c.js"; "./a b.js"]
  /\ fetched (snd (refreshCache appEnv (Some manifestAB) None convergedAB))
     = fetched convergedAB.
Proof.
  split.
  - assert (Hrun1 : refreshCache encodingEnv (Some manifestSpaced) None emptySt
                    = (Fulfilled,
                       snd (refreshCache encodingEnv (Some manifestSpaced)
                              None emptySt)))
      by (vm_compute; reflexivity).
    destruct (second_refresh_requests encodingEnv encodingEnv
                (Some manifestSpaced) (Some manifestSpaced) None None
                manifestSpaced emptySt _
                ltac:(compute_done)
                ltac:(intros p Hp; apply list_elem_of_In in Hp; cbn in Hp;
                      destruct Hp as [<-|[<-|[]]]; reflexivity)
                (RefreshSpec.sameScope_refl encodingEnv)
                (fun _ => eq_refl) eq_refl eq_refl Hrun1)
      as (_ & Hf & _).
    etransitivity; [exact Hf | vm_compute; reflexivity].
  - assert (Hrun1 : refreshCache appEnv (Some manifestAB) None emptySt
                    = (Fulfilled, convergedAB)) by (vm_compute; reflexivity).
    destruct (second_refresh_requests appEnv appEnv
                (Some manifestAB) (Some manifestAB) None None
                manifestAB emptySt convergedAB
                ltac:(compute_done)
                ltac:(intros p Hp; apply list_elem_of_In in Hp; cbn in Hp;
                      destruct Hp as [<-|[<-|[]]]; reflexivity)
                (RefreshSpec.sameScope_refl appEnv)
                (fun _ => eq_refl) eq_refl eq_refl Hrun1)
      as (_ & _ & _ & Hnoop).
    apply (Hnoop
             ltac:(intros p Hp; apply list_elem_of_In in Hp; cbn in Hp;
                   destruct Hp as [<-|[<-|[]]];
                   apply knownPath_true; vm_compute; reflexivity)
             (fst (refreshCache appEnv (Some manifestAB) None convergedAB))
             (snd (refreshCache appEnv (Some manifestAB) None convergedAB))).
    now destruct (refreshCache appEnv (Some manifestAB) None convergedAB).
Defined.

End CycleClaims.

Module CycleSpec.
Import JsString Parser Platform Fetcher Store Coordinator SpecDefs MoreDefs.
Import CoordinatorFacts UpdateFacts RefreshFacts FailureSpec CycleFacts.
Import Fixtures ManifestText.



Lemma needsFetch_iff (E : Env) (s : St) (e : AssetEntry) :
  needsFetch E s e = true
  <-> getFails E (path e) = false
      /\ (sameHash (index s !! path e) e = false
          \/ (cache s !! resolveUrl E (path e) = None
              /\ deleteFails E (path e) = false)).
Proof.
  unfold needsFetch. rewrite afterPrune_lookup. unfold pruned.
  destruct (getFails E (path e)); cbn [negb andb]; [intuition discriminate|].
  destruct (cache s !! resolveUrl E (path e)) as [b|] eqn:Hc.
  - rewrite bool_decide_eq_true_2 by eauto. cbn [negb andb].
    destruct (sameHash (index s !! path e) e); cbn [negb];
      intuition discriminate.
  - rewrite bool_decide_eq_false_2 by (intros [? ?]; discriminate).
    cbn [negb andb].
    destruct (deleteFails E (path e)); cbn [negb].
    + destruct (sameHash (index s !! path e) e); cbn [negb];
        intuition discriminate.
    + cbn [sameHash negb]. intuition.
Qed.

(** X12. The network traffic of a cycle: a cycle that has its database
    handle and the key list asks the network for exactly the entries whose
    read works and whose record is missing, carries another digest, or was
    pruned for want of a body, once each and in manifest order; a cycle that
    stops before step 4 asks for nothing. *)
Theorem cycle_network_traffic (E : Env) (cached : option AssetIndex)
    (db : option IDBDatabase) (a : AssetIndex) (s : St) :
  resolvedIndex E cached = Some a ->
  fetched (snd (refreshCache E cached db s))
  = (if dbAvailable E db && negb (getAllKeysFails E)
     then fetched s ++ map path (List.filter (needsFetch E s) (entries a))
     else fetched s)%list
  /\ forall e,
       needsFetch E s e = true
       <-> getFails E (path e) = false
           /\ (sameHash (index s !! path e) e = false
               \/ (cache s !! resolveUrl E (path e) = None
                   /\ deleteFails E (path e) = false)).
Proof.
  intros Ha. split; [|intros e; apply needsFetch_iff].
  destruct (dbAvailable E db) eqn:Hdb; cbn [andb];
    [|now rewrite refreshCache_no_db].
  destruct (getAllKeysFails E) eqn:Hgk; cbn [negb].
  - now rewrite (refreshCache_pending E cached db a s Ha Hdb Hgk).
  - rewrite (refreshCache_fetched E cached db a s Ha Hdb Hgk).
    apply afterUpdate_fetched.
Qed.

Lemma cycle_network_traffic_witness :
  fetched (snd (refreshCache appEnv (Some manifestAB') None convergedAB))
  = ["./a.js"; "./b.css"; "./a.js"].
Proof.
  rewrite (proj1 (cycle_network_traffic appEnv (Some manifestAB') None
                    manifestAB' convergedAB eq_refl)).
  vm_compute. reflexivity.
Defined.

(** X13. Self-healing: in a cycle that reaches step 3, a record whose body
    is gone from the cache and whose delete request works does not survive
    when its path is outside the manifest, and is fetched again when its
    path is an entry of the manifest whose read works. *)
Theorem refresh_self_heals (E : Env) (cached : option AssetIndex)
    (db : option IDBDatabase) (a : AssetIndex) (s : St) :
  resolvedIndex E cached = Some a ->
  dbAvailable E db = true ->
  getAllKeysFails E = false ->
  (forall k, k ∉ paths a -> k <> IDB_KEY_OFFLINE_INDEX ->
     cache s !! resolveUrl E k = None -> deleteFails E k = false ->
     index (snd (refreshCache E cached db s)) !! k = None)
  /\ (forall e, e ∈ entries a ->
        cache s !! resolveUrl E (path e) = None ->
        deleteFails E (path e) = false ->
        getFails E (path e) = false ->
        exists l, fetched (snd (refreshCache E cached db s))
                  = (fetched s ++ l)%list
                  /\ path e ∈ l).
Proof.
  intros Ha Hdb Hgk. split.
  - intros k Hk Hks Hc Hdel.
    assert (Hpr : index (afterPrune E s) !! k = None).
    { rewrite afterPrune_lookup. unfold pruned. rewrite Hc, Hdel.
      rewrite bool_decide_eq_false_2 by (intros [? ?]; discriminate).
      reflexivity. }
    assert (Hup : index (snd (afterUpdate E a s)) !! k = None).
    { unfold afterUpdate. now rewrite updateAll_index_frame by exact Hk. }
    assert (Hev : index (afterEvict E a s) !! k = None).
    { rewrite afterEvict_index, Hup. now destruct (_ && _). }
    rewrite (refreshCache_steps E cached db a s Ha Hdb Hgk).
    destruct (fst (afterUpdate E a s)); [|exact Hup].
    unfold idbPut. destruct (putFails E _); cbn [snd]; [exact Hev|].
    cbn [setIndex index sentinelRecord recPath].
    now rewrite lookup_insert_ne by congruence.
  - intros e He Hc Hdel Hget.
    rewrite (refreshCache_fetched E cached db a s Ha Hdb Hgk).
    rewrite afterUpdate_fetched. eexists. split; [reflexivity|].
    apply elem_of_map_2. apply list_elem_of_In, filter_In.
    split; [now apply list_elem_of_In|].
    apply needsFetch_iff. split; [exact Hget|]. right. now split.
Qed.

Lemma refresh_self_heals_witness :
  index (snd (refreshCache appEnv (Some manifestAB) None driftedAB))
    !! "./old.js" = None
  /\ exists l, fetched (snd (refreshCache appEnv (Some manifestAB) None driftedAB))
               = (fetched driftedAB ++ l)%list
               /\ "./a.js" ∈ l.
Proof.
  destruct (refresh_self_heals appEnv (Some manifestAB) None manifestAB
              driftedAB eq_refl eq_refl eq_refl) as [Horphan Hentry].
  split.
  - apply Horphan; try reflexivity; [|discriminate].
    unfold paths. cbn. rewrite !not_elem_of_cons.
    repeat split; try discriminate. apply not_elem_of_nil.
  - apply (Hentry entryA); try reflexivity. apply elem_of_cons. now left.
Defined.



(** X15. What a cycle never does: whatever its outcome, it leaves no index
    record under a key that was not recorded before, unless the key is a
    path of its manifest or the sentinel's; and every body in the cache was
    there before or was fetched by [cache.add] for a path of its manifest. *)
Theorem refresh_writes_only_manifest (E : Env) (cached : option AssetIndex)
    (db : option IDBDatabase) (s : St) :
  (forall k, is_Some (index (snd (refreshCache E cached db s)) !! k) ->
     is_Some (index s !! k)
     \/ k = IDB_KEY_OFFLINE_INDEX
     \/ exists a, resolvedIndex E cached = Some a /\ k ∈ paths a)
  /\ (forall u b, cache (snd (refreshCache E cached db s)) !! u = Some b ->
        cache s !! u = Some b
        \/ exists a p, resolvedIndex E cached = Some a /\ p ∈ paths a
                       /\ u = resolveUrl E p /\ fetchAsset E p = Some b).
Proof.
  destruct (refreshCache_cases E cached db s)
    as [[_ ->]|[(_ & _ & ->)|[(a & _ & _ & _ & ->)|(a & Ha & _ & _ & ->)]]];
    cbn [snd]; try (split; [intros k Hk | intros u b Hu]; now left).
  assert (Hidx : forall k, is_Some (index (snd (afterUpdate E a s)) !! k) ->
            is_Some (index s !! k) \/ exists a0, Some a = Some a0 /\ k ∈ paths a0).
  { intros k Hk. unfold afterUpdate in Hk.
    apply updateAll_index_dom in Hk as [[r Hr]|Hk];
      [left; apply afterPrune_lookup_Some in Hr; eauto | right; eauto]. }
  assert (Hcache : forall u b, cache (snd (afterUpdate E a s)) !! u = Some b ->
            cache s !! u = Some b
            \/ exists a0 p, Some a = Some a0 /\ p ∈ paths a0
                            /\ u = resolveUrl E p /\ fetchAsset E p = Some b).
  { intros u b Hu. unfold afterUpdate in Hu.
    apply updateAll_cache_origin in Hu as [Hu|(e & He & -> & Hf)].
    - left. now rewrite afterPrune_cache in Hu.
    - right. exists a, (path e). repeat split; try assumption.
      now apply elem_of_map_2. }
  assert (Hidx' : forall k, is_Some (index (afterEvict E a s) !! k) ->
            is_Some (index (snd (afterUpdate E a s)) !! k)).
  { intros k. rewrite afterEvict_index.
    destruct (_ && _); [intros [? ?]; discriminate | trivial]. }
  assert (Hcache' : forall u b, cache (afterEvict E a s) !! u = Some b ->
            cache (snd (afterUpdate E a s)) !! u = Some b).
  { intros u b. rewrite afterEvict_cache.
    destruct (knownPath a _); [trivial | discriminate]. }
  rewrite Ha.
  destruct (fst (afterUpdate E a s)); cbn [snd].
  2:{ split; [intros k Hk; destruct (Hidx k Hk); auto | exact Hcache]. }
  unfold idbPut. destruct (putFails E _); cbn [snd].
  - split.
    + intros k Hk. destruct (Hidx k (Hidx' k Hk)); auto.
    + intros u b Hu. auto.
  - cbn [setIndex index cache sentinelRecord recPath]. split.
    + intros k Hk.
      destruct (decide (k = IDB_KEY_OFFLINE_INDEX)) as [|Hne]; [auto|].
      rewrite lookup_insert_ne in Hk by congruence.
      destruct (Hidx k (Hidx' k Hk)); auto.
    + intros u b Hu. auto.
Qed.

(** X16. A manifest without entries empties the stores: a fulfilled cycle
    leaves no body in the cache and, where index deletes work, no record but
    the sentinel; and an ok response whose body is read and digested and
    decodes to the empty text is such a manifest. *)
Theorem empty_manifest_wipes (E : Env) (cached : option AssetIndex)
    (db : option IDBDatabase) (a : AssetIndex) (s s' : St) :
  resolvedIndex E cached = Some a ->
  entries a = [] ->
  refreshCache E cached db s = (Fulfilled, s') ->
  cache s' = ∅
  /\ index s' !! IDB_KEY_OFFLINE_INDEX = Some (sentinelRecord a)
  /\ (forall k, k <> IDB_KEY_OFFLINE_INDEX -> deleteFails E k = false ->
        index s' !! k = None)
  /\ fetched s' = fetched s
  /\ (forall lm response utf8Text,
        fetchManifest E (if truthy lm then lm else None) = Some response ->
        ok response = true ->
        bytes response = Some utf8Text ->
        is_Some (sha256 E utf8Text) ->
        decode E utf8Text = "" ->
        exists a0, fetchAssetIndex E lm = Some a0 /\ entries a0 = []).
Proof.
  intros Ha Hnone Hrun.
  destruct (refresh_evicts E cached db a s s' Ha Hrun) as [Hidx Hcache].
  assert (Hpaths : forall p, p ∉ paths a).
  { intros p. unfold paths. rewrite Hnone. apply not_elem_of_nil. }
  split; [|split; [|split; [|split]]].
  - apply map_eq. intros u. rewrite lookup_empty. apply Hcache, Hpaths.
  - destruct (fulfilled_shape _ _ _ _ _ _ Ha Hrun) as (_ & _ & ->).
    cbn [setIndex index]. apply lookup_insert_eq.
  - intros k Hk Hdel. now apply Hidx.
  - destruct (refreshCache_fulfilled _ _ _ _ _ _ Ha Hrun) as [Hdb Hgk].
    pose proof (refreshCache_fetched E cached db a s Ha Hdb Hgk) as Hf.
    rewrite Hrun in Hf. cbn [snd] in Hf.
    rewrite Hf, afterUpdate_fetched, Hnone. cbn. apply app_nil_r.
  - intros lm response utf8Text Hr Hok Hbytes [digest Hd] Htext.
    rewrite FetcherSpec.fetchAssetIndex_parts, Hr, Hok, Hbytes, Hd, Htext.
    cbn [negb]. eexists. split; reflexivity.
Qed.

Lemma empty_manifest_wipes_witness :
  cache (snd (refreshCache appEnv (Some manifestNone) None convergedAB)) = ∅
  /\ index (snd (refreshCache appEnv (Some manifestNone) None convergedAB))
       !! "./a.js" = None.
Proof.
  assert (Hrun : refreshCache appEnv (Some manifestNone) None convergedAB
                 = (Fulfilled,
                    snd (refreshCache appEnv (Some manifestNone) None convergedAB)))
    by (vm_compute; reflexivity).
  destruct (empty_manifest_wipes appEnv (Some manifestNone) None manifestNone
              convergedAB _ eq_refl eq_refl Hrun) as (Hc & _ & Hi & _).
  split; [exact Hc|]. apply Hi; [discriminate | reflexivity].
Defined.

End CycleSpec.

(** ** More on the worker *)

Module InterceptorSpec.
Import JsString Parser Platform Fetcher Store Coordinator Worker SpecDefs.
Import MoreDefs CoordinatorFacts RefreshFacts CycleFacts Fixtures.

Lemma readSentinel_store (E : Env) (w : W) :
  index (store (snd (readSentinel E w))) = index (store w)
  /\ cache (store (snd (readSentinel E w))) = cache (store w)
  /\ fetched (store (snd (readSentinel E w))) = fetched (store w).
Proof.
  unfold readSentinel. destruct (openFails E); [now repeat split|].
  destruct (idbGet E _ _); now repeat split.
Qed.

(** X17. The interceptor only reads: no request handler changes the index or
    the cache, or makes [cache.add] fetch anything.  What the network
    answers to a request is not put into the cache. *)
Theorem onFetch_reads_only (E : Env) (url : string) (w : W) :
  index (store (snd (onFetch E url w))) = index (store w)
  /\ cache (store (snd (onFetch E url w))) = cache (store w)
  /\ fetched (store (snd (onFetch E url w))) = fetched (store w).
Proof.
  unfold onFetch.
  destruct (refreshCachePromise w) as [c|] eqn:Hflag; [now repeat split|].
  destruct (isEntryPoint E url);
    [|destruct (cacheOrNetwork url w); now repeat split].
  pose proof (readSentinel_store E w) as Hrs.
  destruct (readSentinel E w) as [[[odb cachedIndex] acts] w1].
  cbn [snd] in Hrs.
  destruct odb as [d|]; [|destruct (cacheOrNetwork url w1); exact Hrs].
  destruct (fetchAssetIndex E (lastModifiedOf cachedIndex)) as [assetIndex|];
    [|destruct (cacheOrNetwork url w1); exact Hrs].
  destruct (hashDiffers assetIndex cachedIndex);
    [|destruct (cacheOrNetwork url w1); exact Hrs].
  unfold synchronizedRefreshCache.
  destruct (refreshCachePromise w1); exact Hrs.
Qed.

(** X18. A request that is not for the entry point, handled while no cycle
    is in flight, touches neither the index nor the manifest: a cached body
    is served without any network request, and only a miss is forwarded to
    the network.  The worker's state is unchanged. *)
Theorem plain_request_served (E : Env) (url : string) (w : W) :
  refreshCachePromise w = None ->
  isEntryPoint E url = false ->
  (forall body, cache (store w) !! url = Some body ->
     onFetch E url w = (FromCache body, [CacheMatch url], w))
  /\ (cache (store w) !! url = None ->
      onFetch E url w = (FromNetwork, [CacheMatch url; NetFetch url], w)).
Proof.
  intros Hflag Hentry. unfold onFetch, cacheOrNetwork.
  rewrite Hflag, Hentry. split.
  - intros body Hb. now rewrite Hb.
  - intros Hb. now rewrite Hb.
Qed.

Lemma plain_request_served_witness :
  onFetch appEnv "https://h/app/a.js" (initial convergedAB)
  = (FromCache "body of ./a.js", [CacheMatch "https://h/app/a.js"],
     initial convergedAB)
  /\ onFetch appEnv "https://h/app/c.js" (initial convergedAB)
     = (FromNetwork,
        [CacheMatch "https://h/app/c.js"; NetFetch "https://h/app/c.js"],
        initial convergedAB).
Proof.
  split.
  - apply (proj1 (plain_request_served appEnv "https://h/app/a.js"
                    (initial convergedAB) eq_refl eq_refl)).
    reflexivity.
  - apply (proj2 (plain_request_served appEnv "https://h/app/c.js"
                    (initial convergedAB) eq_refl eq_refl)).
    reflexivity.
Defined.

(** X19. The entry-point check when the index can be read and a manifest is
    obtained, with no cycle in flight.  The manifest is asked for with the
    recorded [lastModified] as condition.  If its digest is the recorded
    one, the handle is closed, nothing is started and the request is served
    from the cache if present, else from the network.  If the digest
    differs, or no sentinel is recorded, a cycle is started with this
    manifest and this handle, a [catch] handler is attached, and the request
    is answered from the network without a look at the cache. *)
Theorem entry_check_outcome (E : Env) (url : string) (w : W) (m : AssetIndex) :
  refreshCachePromise w = None ->
  isEntryPoint E url = true ->
  openFails E = false ->
  getFails E IDB_KEY_OFFLINE_INDEX = false ->
  fetchAssetIndex E (lastModifiedOf (index (store w) !! IDB_KEY_OFFLINE_INDEX))
  = Some m ->
  (hashDiffers m (index (store w) !! IDB_KEY_OFFLINE_INDEX) = false ->
     onFetch E url w
     = (fst (cacheOrNetwork url w),
        ([IdbOpen; IdbGet IDB_KEY_OFFLINE_INDEX;
          ManifestFetch
            (conditional
               (lastModifiedOf (index (store w) !! IDB_KEY_OFFLINE_INDEX)));
          IdbClose] ++ snd (cacheOrNetwork url w))%list,
        w))
  /\ (hashDiffers m (index (store w) !! IDB_KEY_OFFLINE_INDEX) = true ->
      onFetch E url w
      = (FromNetwork,
         [IdbOpen; IdbGet IDB_KEY_OFFLINE_INDEX;
          ManifestFetch
            (conditional
               (lastModifiedOf (index (store w) !! IDB_KEY_OFFLINE_INDEX)));
          Refresh (List.length (started w)); NetFetch url],
         {| refreshCachePromise :=
              Some {| cycleId := List.length (started w);
                      cycleIndex := Some m;
                      cycleDb := Some Db |};
            started := List.length (started w) :: started w;
            settled := settled w;
            catchers := S (catchers w);
            store := store w |}))
  /\ (hashDiffers m (index (store w) !! IDB_KEY_OFFLINE_INDEX) = false
      <-> exists r, index (store w) !! IDB_KEY_OFFLINE_INDEX = Some r
                    /\ recHash r = indexHash m).
Proof.
  intros Hflag Hentry Hopen Hget Hm.
  unfold onFetch, readSentinel, idbGet. rewrite Hflag, Hentry, Hopen, Hget, Hm.
  split; [|split].
  - intros Hd. rewrite Hd. now destruct (cacheOrNetwork url w).
  - intros Hd. rewrite Hd. unfold synchronizedRefreshCache.
    rewrite Hflag. reflexivity.
  - unfold hashDiffers.
    destruct (index (store w) !! IDB_KEY_OFFLINE_INDEX) as [r|]; split.
    + intros H. exists r. split; [reflexivity|].
      apply negb_false_iff, String.eqb_eq in H. congruence.
    + intros (r' & Hr & Hh). injection Hr as <-.
      apply negb_false_iff, String.eqb_eq. congruence.
    + discriminate.
    + intros (r' & Hr & _). discriminate Hr.
Qed.

Lemma entry_check_outcome_witness :
  onFetch servingEnv "https://h/app/index.html" (initial convergedAB)
  = (FromNetwork,
     [IdbOpen; IdbGet IDB_KEY_OFFLINE_INDEX;
      ManifestFetch (Some "Mon, 01 Jan 2024 00:00:00 GMT");
      IdbClose; CacheMatch "https://h/app/index.html";
      NetFetch "https://h/app/index.html"],
     initial convergedAB).
Proof.
  destruct (entry_check_outcome servingEnv "https://h/app/index.html"
              (initial convergedAB) manifestAB eq_refl eq_refl eq_refl eq_refl
              ltac:(vm_compute; reflexivity)) as (Hsame & _ & _).
  rewrite Hsame by (vm_compute; reflexivity).
  vm_compute. reflexivity.
Defined.

End InterceptorSpec.

(** ** Cycles and requests over time *)

Module LifecycleSpec.
Import JsString Parser Platform Fetcher Store Coordinator Worker SpecDefs.
Import MoreDefs CoordinatorFacts UpdateFacts RefreshFacts CycleFacts Fixtures.

Lemma iter_consoleError_index n msg s :
  index (Nat.iter n (consoleError msg) s) = index s
  /\ cache (Nat.iter n (consoleError msg) s) = cache s.
Proof.
  induction n as [|n IH]; [now split|].
  change (Nat.iter (S n) (consoleError msg) s)
    with (consoleError msg (Nat.iter n (consoleError msg) s)).
  exact IH.
Qed.

(** The sentinel through a cycle that does not write it. *)
Lemma sentinel_unwritten E a s :
  IDB_KEY_OFFLINE_INDEX ∉ paths a ->
  (index (snd (afterUpdate E a s)) !! IDB_KEY_OFFLINE_INDEX = None
   \/ index (snd (afterUpdate E a s)) !! IDB_KEY_OFFLINE_INDEX
      = index s !! IDB_KEY_OFFLINE_INDEX)
  /\ (index (afterEvict E a s) !! IDB_KEY_OFFLINE_INDEX = None
      \/ index (afterEvict E a s) !! IDB_KEY_OFFLINE_INDEX
         = index s !! IDB_KEY_OFFLINE_INDEX).
Proof.
  intros Hk.
  assert (Hupd : index (snd (afterUpdate E a s)) !! IDB_KEY_OFFLINE_INDEX = None
                 \/ index (snd (afterUpdate E a s)) !! IDB_KEY_OFFLINE_INDEX
                    = index s !! IDB_KEY_OFFLINE_INDEX).
  { unfold afterUpdate. rewrite updateAll_index_frame by exact Hk.
    rewrite afterPrune_lookup.
    destruct (pruned E (cache s) IDB_KEY_OFFLINE_INDEX); [now left | now right]. }
  split; [exact Hupd|]. rewrite afterEvict_index.
  destruct (_ && _); [now left | exact Hupd].
Qed.

Lemma cycle_sentinel E cached db a s o s' :
  resolvedIndex E cached = Some a ->
  IDB_KEY_OFFLINE_INDEX ∉ paths a ->
  refreshCache E cached db s = (o, s') ->
  (o = Fulfilled ->
     index s' !! IDB_KEY_OFFLINE_INDEX = Some (sentinelRecord a))
  /\ (o <> Fulfilled ->
      index s' !! IDB_KEY_OFFLINE_INDEX = None
      \/ index s' !! IDB_KEY_OFFLINE_INDEX = index s !! IDB_KEY_OFFLINE_INDEX).
Proof.
  intros Ha Hk Hrun. split.
  - intros ->. destruct (fulfilled_shape _ _ _ _ _ _ Ha Hrun) as (_ & _ & ->).
    cbn [setIndex index]. apply lookup_insert_eq.
  - intros Ho.
    destruct (sentinel_unwritten E a s Hk) as [Hupd Hev].
    destruct (refreshCache_cases E cached db s)
      as [[_ Heq]|[(_ & Hnone & _)|[(a' & _ & _ & _ & Heq)
                                   |(a' & Ha' & _ & _ & Heq)]]].
    + rewrite Heq in Hrun. injection Hrun as _ <-. now right.
    + congruence.
    + rewrite Heq in Hrun. injection Hrun as _ <-. now right.
    + assert (a' = a) as -> by congruence.
      rewrite Heq in Hrun.
      destruct (fst (afterUpdate E a s)).
      * destruct (idbPut E (sentinelRecord a) (afterEvict E a s)).
        -- injection Hrun as <- _. congruence.
        -- injection Hrun as _ <-. exact Hev.
      * injection Hrun as _ <-. exact Hupd.
Qed.

(** X20. The sentinel marks completion: a fulfilled cycle for a manifest
    ends with the sentinel carrying this manifest's digest and date; a cycle
    that is rejected or stays pending leaves the sentinel as it was or
    deleted, never with the digest of the manifest it failed to mirror
    (unless that digest was recorded before). *)
Theorem sentinel_marks_completion (E : Env) (cached : option AssetIndex)
    (db : option IDBDatabase) (a : AssetIndex) (s : St) (o : Outcome) (s' : St) :
  resolvedIndex E cached = Some a ->
  IDB_KEY_OFFLINE_INDEX ∉ paths a ->
  refreshCache E cached db s = (o, s') ->
  (o = Fulfilled ->
     index s' !! IDB_KEY_OFFLINE_INDEX = Some (sentinelRecord a))
  /\ (o <> Fulfilled ->
      index s' !! IDB_KEY_OFFLINE_INDEX = None
      \/ index s' !! IDB_KEY_OFFLINE_INDEX = index s !! IDB_KEY_OFFLINE_INDEX).
Proof. exact (cycle_sentinel E cached db a s o s'). Qed.

Lemma sentinel_marks_completion_witness :
  index (snd (refreshCache putFaultEnv (Some manifestAB) None staleA))
    !! IDB_KEY_OFFLINE_INDEX = None
  \/ index (snd (refreshCache putFaultEnv (Some manifestAB) None staleA))
       !! IDB_KEY_OFFLINE_INDEX = index staleA !! IDB_KEY_OFFLINE_INDEX.
Proof.
  apply (proj2 (sentinel_marks_completion putFaultEnv (Some manifestAB) None
                  manifestAB staleA Rejected
                  (snd (refreshCache putFaultEnv (Some manifestAB) None staleA))
                  eq_refl
                  ltac:(unfold paths; cbn; rewrite !not_elem_of_cons;
                        repeat split; try discriminate; apply not_elem_of_nil)
                  ltac:(vm_compute; reflexivity))).
  discriminate.
Defined.

Lemma activation_run (E : Env) (s : St) :
  run [Activate; Settle E] (initial s)
  = settle E {| refreshCachePromise :=
                  Some {| cycleId := 0%nat; cycleIndex := None; cycleDb := None |};
                started := [0%nat]; settled := []; catchers := 0%nat; store := s |}.
Proof. reflexivity. Qed.



(** X22. Activation that cannot work: when the manifest is not obtained (the
    worker is offline, or the server answers with an error or with 304), or
    when the database cannot be opened, the cycle settles, clears
    [refreshCachePromise], and leaves index, cache and log as they were. *)
Theorem activation_without_manifest (E : Env) (s : St) :
  fetchAssetIndex E None = None \/ openFails E = true ->
  refreshCachePromise (run [Activate; Settle E] (initial s)) = None
  /\ store (run [Activate; Settle E] (initial s)) = s.
Proof.
  intros H. rewrite activation_run. unfold settle.
  cbn [refreshCachePromise cycleIndex cycleDb store catchers].
  destruct (openFails E) eqn:Hopen.
  - rewrite refreshCache_no_db by (unfold dbAvailable; now rewrite Hopen).
    now split.
  - destruct H as [H|H]; [|discriminate H].
    rewrite refreshCache_no_manifest;
      [now split | exact H | unfold dbAvailable; now rewrite Hopen].
Qed.

Lemma activation_without_manifest_witness :
  refreshCachePromise (run [Activate; Settle appEnv] (initial staleA)) = None
  /\ store (run [Activate; Settle appEnv] (initial staleA)) = staleA.
Proof. apply activation_without_manifest. left. reflexivity. Defined.

(** X23. After a cycle for a manifest is fulfilled, the check of the next
    entry-point request is quiet as long as the server has nothing new: it
    asks for the manifest with the date the cycle recorded, and when the
    answer is no manifest (304 or an error) or a manifest with the recorded
    digest, it closes its handle, starts no cycle and serves the request
    from the cache if it is there. *)
Theorem check_after_refresh_is_quiet (E1 E2 : Env) (w : W) (c : Cycle)
    (a : AssetIndex) (url : string) :
  refreshCachePromise w = Some c ->
  resolvedIndex E1 (cycleIndex c) = Some a ->
  fst (refreshCache E1 (cycleIndex c) (cycleDb c) (store w)) = Fulfilled ->
  isEntryPoint E2 url = true ->
  openFails E2 = false ->
  getFails E2 IDB_KEY_OFFLINE_INDEX = false ->
  (forall m, fetchAssetIndex E2 (lastModified a) = Some m ->
             indexHash m = indexHash a) ->
  onFetch E2 url (settle E1 w)
  = (fst (cacheOrNetwork url (settle E1 w)),
     ([IdbOpen; IdbGet IDB_KEY_OFFLINE_INDEX;
       ManifestFetch (conditional (lastModified a)); IdbClose]
      ++ snd (cacheOrNetwork url (settle E1 w)))%list,
     settle E1 w).
Proof.
  intros Hflag Ha Hok Hentry Hopen Hget Hsame.
  destruct (refreshCache E1 (cycleIndex c) (cycleDb c) (store w))
    as [o s'] eqn:Hrun.
  cbn [fst] in Hok. subst o.
  assert (Hw : settle E1 w
               = {| refreshCachePromise := None; started := started w;
                    settled := cycleId c :: settled w; catchers := 0%nat;
                    store := s' |}).
  { unfold settle. now rewrite Hflag, Hrun. }
  destruct (fulfilled_shape _ _ _ _ _ _ Ha Hrun) as (_ & _ & Hs').
  assert (Hsent : index s' !! IDB_KEY_OFFLINE_INDEX = Some (sentinelRecord a)).
  { rewrite Hs'. cbn [setIndex index]. apply lookup_insert_eq. }
  rewrite Hw. set (w' := mkW None _ _ _ _).
  unfold onFetch, readSentinel, idbGet.
  replace (refreshCachePromise w') with (@None Cycle) by reflexivity.
  replace (store w') with s' by reflexivity.
  rewrite Hentry, Hopen, Hget, Hsent.
  cbn [lastModifiedOf sentinelRecord recLastModified].
  destruct (fetchAssetIndex E2 (lastModified a)) as [m|] eqn:Hm.
  - assert (Hd : hashDiffers m (Some (sentinelRecord a)) = false).
    { cbn [hashDiffers sentinelRecord recHash].
      rewrite (Hsame m eq_refl). now rewrite String.eqb_refl. }
    rewrite Hd. now destruct (cacheOrNetwork url w').
  - now destruct (cacheOrNetwork url w').
Qed.

Lemma check_after_refresh_is_quiet_witness :
  fst (onFetch servingEnv "https://h/app/"
         (run [Activate; Settle servingEnv] (initial emptySt)))
  = (FromNetwork,
     [IdbOpen; IdbGet IDB_KEY_OFFLINE_INDEX;
      ManifestFetch (Some "Mon, 01 Jan 2024 00:00:00 GMT"); IdbClose;
      CacheMatch "https://h/app/"; NetFetch "https://h/app/"]).
Proof.
  rewrite activation_run.
  rewrite (check_after_refresh_is_quiet servingEnv servingEnv
             {| refreshCachePromise :=
                  Some {| cycleId := 0%nat; cycleIndex := None; cycleDb := None |};
                started := [0%nat]; settled := []; catchers := 0%nat;
                store := emptySt |}
             {| cycleId := 0%nat; cycleIndex := None; cycleDb := None |}
             manifestAB "https://h/app/" eq_refl
             ltac:(vm_compute; reflexivity) ltac:(vm_compute; reflexivity)
             eq_refl eq_refl eq_refl
             ltac:(intros m Hm; vm_compute in Hm; injection Hm as <-;
                   reflexivity)).
  vm_compute. reflexivity.
Defined.

(** X24. A failed refresh is tried again: when the cycle that a check
    started for a new manifest is rejected, the rejection is logged by the
    handler's [catch], [refreshCachePromise] is cleared, and the next
    entry-point check that obtains a manifest with the same digest finds it
    different from the record again: it starts a new cycle for it and
    answers from the network. *)
Theorem failed_refresh_is_retried (E1 E2 : Env) (w : W) (c : Cycle)
    (a m : AssetIndex) (url : string) :
  refreshCachePromise w = Some c ->
  cycleIndex c = Some a ->
  IDB_KEY_OFFLINE_INDEX ∉ paths a ->
  hashDiffers a (index (store w) !! IDB_KEY_OFFLINE_INDEX) = true ->
  fst (refreshCache E1 (cycleIndex c) (cycleDb c) (store w)) = Rejected ->
  isEntryPoint E2 url = true ->
  openFails E2 = false ->
  getFails E2 IDB_KEY_OFFLINE_INDEX = false ->
  fetchAssetIndex E2
    (lastModifiedOf (index (store (settle E1 w)) !! IDB_KEY_OFFLINE_INDEX))
  = Some m ->
  indexHash m = indexHash a ->
  refreshCachePromise (settle E1 w) = None
  /\ log (store (settle E1 w))
     = (log (snd (refreshCache E1 (cycleIndex c) (cycleDb c) (store w)))
        ++ replicate (catchers w) "Failed to refresh offline cache:")%list
  /\ fst (fst (onFetch E2 url (settle E1 w))) = FromNetwork
  /\ refreshCachePromise (snd (onFetch E2 url (settle E1 w)))
     = Some {| cycleId := List.length (started w);
               cycleIndex := Some m;
               cycleDb := Some Db |}.
Proof.
  intros Hflag Hc Hk Hdiff Hrej Hentry Hopen Hget Hm Hhash.
  destruct (refreshCache E1 (cycleIndex c) (cycleDb c) (store w))
    as [o s'] eqn:Hrun.
  cbn [fst] in Hrej. subst o. cbn [snd].
  assert (Hw : settle E1 w
               = {| refreshCachePromise := None; started := started w;
                    settled := cycleId c :: settled w; catchers := 0%nat;
                    store := Nat.iter (catchers w)
                               (consoleError "Failed to refresh offline cache:")
                               s' |}).
  { unfold settle. now rewrite Hflag, Hrun. }
  rewrite Hw in *. set (sT := Nat.iter _ _ s') in *.
  set (w' := mkW None _ _ _ sT) in *.
  assert (Hidx : index sT = index s')
    by apply (iter_consoleError_index (catchers w)).
  assert (Hsent : hashDiffers m (index sT !! IDB_KEY_OFFLINE_INDEX) = true).
  { rewrite Hidx.
    assert (Hres : resolvedIndex E1 (cycleIndex c) = Some a)
      by now rewrite Hc.
    destruct (proj2 (cycle_sentinel E1 _ _ a _ _ _ Hres Hk Hrun)
                ltac:(discriminate)) as [->| ->]; [reflexivity|].
    unfold hashDiffers in *. rewrite Hhash. exact Hdiff. }
  split; [reflexivity|]. split.
  { replace (store w') with sT by reflexivity. unfold sT.
    apply WorkerSpec.iter_consoleError_log. }
  replace (store w') with sT in Hm by reflexivity.
  unfold onFetch, readSentinel, idbGet.
  replace (refreshCachePromise w') with (@None Cycle) by reflexivity.
  replace (store w') with sT by reflexivity.
  rewrite Hentry, Hopen, Hget, Hm, Hsent.
  unfold synchronizedRefreshCache.
  replace (refreshCachePromise w') with (@None Cycle) by reflexivity.
  split; reflexivity.
Qed.

Lemma failed_refresh_is_retried_witness :
  refreshCachePromise
    (snd (onFetch servingEnv "https://h/app/index.html"
            (settle putFaultEnv
               {| refreshCachePromise :=
                    Some {| cycleId := 0%nat; cycleIndex := Some manifestAB;
                            cycleDb := Some Db |};
                  started := [0%nat]; settled := []; catchers := 1%nat;
                  store := staleA |})))
  = Some {| cycleId := 1%nat; cycleIndex := Some manifestAB;
            cycleDb := Some Db |}.
Proof.
  apply (failed_refresh_is_retried putFaultEnv servingEnv
           {| refreshCachePromise :=
                Some {| cycleId := 0%nat; cycleIndex := Some manifestAB;
                        cycleDb := Some Db |};
              started := [0%nat]; settled := []; catchers := 1%nat;
              store := staleA |}
           {| cycleId := 0%nat; cycleIndex := Some manifestAB;
              cycleDb := Some Db |}
           manifestAB manifestAB "https://h/app/index.html"
           eq_refl eq_refl
           ltac:(unfold paths; cbn; rewrite !not_elem_of_cons;
                 repeat split; try discriminate; apply not_elem_of_nil)
           eq_refl
           ltac:(vm_compute; reflexivity)
           eq_refl eq_refl eq_refl
           ltac:(vm_compute; reflexivity)
           eq_refl).
Defined.

End LifecycleSpec.

(** ** The manager *)

Module ManagerSpec.
Import Naming Manager.

Lemma runM_cons (P : Page) (ev : ManagerEvent) (evs : list ManagerEvent) (m : M) :
  runM P (ev :: evs) m = runM P evs (stepM P m ev).
Proof. reflexivity. Qed.

Lemma wiped_app (P : Page) (r : nat) (cs l : list Call) :
  wiped P r cs -> wiped P r (cs ++ l).
Proof.
  intros (pre & post & ->). exists pre, (post ++ l)%list.
  now rewrite <- !app_assoc, <- app_comm_cons, <- app_assoc.
Qed.

Lemma wiped_here (P : Page) (r : nat) (cs : list Call) :
  wiped P r (cs ++ Unregister r :: cleanupCachedData P).
Proof. exists cs, []. now rewrite app_nil_r. Qed.

(** Every step only adds calls. *)
Lemma stepM_calls (P : Page) (m : M) (ev : ManagerEvent) :
  exists l, calls (stepM P m ev) = (calls m ++ l)%list.
Proof.
  destruct ev as [value|offlineMode r|]; cbn [stepM].
  - unfold onChange. destruct value; cbn [negb]; [now eexists|].
    destruct (registration m); [now eexists|].
    exists []. now rewrite app_nil_r.
  - unfold onRegistered. destruct offlineMode; cbn [negb]; [|now eexists].
    exists []. cbn [calls]. now rewrite app_nil_r.
  - now eexists.
Qed.

Lemma runM_wiped (P : Page) (evs : list ManagerEvent) (m : M) (r : nat) :
  wiped P r (calls m) -> wiped P r (calls (runM P evs m)).
Proof.
  revert m. induction evs as [|ev evs IH]; intros m H; [exact H|].
  rewrite runM_cons. apply IH.
  destruct (stepM_calls P m ev) as [l ->]. now apply wiped_app.
Qed.

(** A registration handed over while the mode is off is unregistered and
    the stores are wiped. *)
Lemma late_registration_wiped (P : Page) (evs : list ManagerEvent) (m : M)
    (r : nat) :
  Registered false r ∈ evs -> wiped P r (calls (runM P evs m)).
Proof.
  revert m. induction evs as [|ev evs IH]; intros m H;
    [now apply elem_of_nil in H|].
  rewrite runM_cons. apply elem_of_cons in H as [<-|H]; [|now apply IH].
  apply runM_wiped. cbn [stepM onRegistered negb call calls].
  apply wiped_here.
Qed.

(** While the mode is off no registration is held, and the registration
    handed over last is held or was unregistered with the stores wiped. *)
Lemma manager_invariant (P : Page) (evs : list ManagerEvent) (mode : bool)
    (m : M) (last : option nat) :
  (is_Some (registration m) -> mode = true) ->
  (forall r, last = Some r ->
     registration m = Some r \/ wiped P r (calls m)) ->
  coherent mode evs ->
  (is_Some (registration (runM P evs m)) -> modeAfter mode evs = true)
  /\ (forall r, lastRegistered last evs = Some r ->
        registration (runM P evs m) = Some r
        \/ wiped P r (calls (runM P evs m))).
Proof.
  revert mode m last.
  induction evs as [|ev evs IH]; intros mode m last Hinv Hlast Hco;
    [now split|].
  rewrite runM_cons. destruct ev as [value|offlineMode r0|];
    cbn [coherent modeAfter lastRegistered stepM] in *.
  - apply IH; [| |exact Hco]; unfold onChange; destruct value; cbn [negb].
    + reflexivity.
    + destruct (registration m) eqn:Hr; cbn [registration]; intros [x Hx];
        congruence.
    + intros r Hr. cbn [call registration calls].
      destruct (Hlast r Hr) as [H|H]; [now left | right; now apply wiped_app].
    + intros r Hr. destruct (registration m) as [r1|] eqn:Hreg.
      * right. cbn [calls].
        destruct (Hlast r Hr) as [H|H];
          [injection H as ->; apply wiped_here | now apply wiped_app].
      * destruct (Hlast r Hr) as [H|H]; [congruence | now right].
  - destruct Hco as [-> Hco].
    apply IH; [| |exact Hco]; unfold onRegistered; destruct mode; cbn [negb].
    + reflexivity.
    + exact Hinv.
    + intros r Hr. injection Hr as ->. now left.
    + intros r Hr. injection Hr as ->. right. cbn [call calls].
      apply wiped_here.
  - apply IH; [exact Hinv | | exact Hco].
    intros r Hr. cbn [call registration calls].
    destruct (Hlast r Hr) as [H|H]; [now left | right; now apply wiped_app].
Qed.

(** X25. While offline mode is off the manager holds no registration:
    after any sequence of changes of the setting and of settled [register]
    promises, if the setting ends up off, [registration] is null; every
    registration handed over while the mode was off, and the registration
    handed over last (or held at the start), was passed to [unregister],
    followed at once by the calls that delete the cache and the index
    database.  So a registration that completes after the user switched
    the mode off again is unregistered, not kept. *)
Theorem manager_off_means_unregistered (P : Page) (evs : list ManagerEvent)
    (mode : bool) (m : M) :
  (is_Some (registration m) -> mode = true) ->
  coherent mode evs ->
  modeAfter mode evs = false ->
  registration (runM P evs m) = None
  /\ (forall r, Registered false r ∈ evs ->
        wiped P r (calls (runM P evs m)))
  /\ (forall r, lastRegistered (registration m) evs = Some r ->
        wiped P r (calls (runM P evs m))).
Proof.
  intros Hinv Hco Hoff.
  destruct (manager_invariant P evs mode m (registration m) Hinv
              ltac:(intros r Hr; now left) Hco) as [Hnone Hlast].
  assert (Hreg : registration (runM P evs m) = None).
  { destruct (registration (runM P evs m)) as [r|] eqn:Hr; [|reflexivity].
    rewrite Hnone in Hoff by eauto. discriminate Hoff. }
  split; [exact Hreg|]. split.
  - intros r Hr. now apply late_registration_wiped.
  - intros r Hr. destruct (Hlast r Hr) as [H|H]; [congruence | exact H].
Qed.

Lemma manager_off_means_unregistered_witness :
  registration
    (runM (mkPage "https://h" true true "/app/")
       [Changed true; Changed false; Registered false 7%nat] start) = None
  /\ wiped (mkPage "https://h" true true "/app/") 7%nat
       (calls
          (runM (mkPage "https://h" true true "/app/")
             [Changed true; Changed false; Registered false 7%nat] start)).
Proof.
  destruct (manager_off_means_unregistered
              (mkPage "https://h" true true "/app/")
              [Changed true; Changed false; Registered false 7%nat]
              false start)
    as (Hreg & Hlate & _).
  - intros [? H]. discriminate H.
  - cbn. auto.
  - reflexivity.
  - split; [exact Hreg|]. apply Hlate.
    rewrite !elem_of_cons. auto.
Defined.

Lemma count_app (f : Call -> bool) (a b : list Call) :
  count f (a ++ b) = (count f a + count f b)%nat.
Proof. unfold count. now rewrite List.filter_app, length_app. Qed.

(** X26. Unregistering and wiping go together, and the manager wipes the
    worker's stores: in every run, each call of [unregister] comes with one
    [caches.delete] and one [deleteDatabase], there is none without, and the
    names deleted are those that a worker with the page's scope path gives
    to its cache and to its index database. *)
Theorem manager_wipes_worker_stores (P : Page) (evs : list ManagerEvent) :
  count isCachesDelete (calls (runM P evs start))
  = count isUnregister (calls (runM P evs start))
  /\ count isDeleteDatabase (calls (runM P evs start))
     = count isUnregister (calls (runM P evs start))
  /\ (forall n, CachesDelete n ∈ calls (runM P evs start) ->
                n = cacheName (locationScope P))
  /\ (forall n, DeleteDatabase n ∈ calls (runM P evs start) ->
                n = dbName (locationScope P)).
Proof.
  assert (Hgen : forall m,
            (count isCachesDelete (calls m) = count isUnregister (calls m)
             /\ count isDeleteDatabase (calls m) = count isUnregister (calls m)
             /\ (forall n, CachesDelete n ∈ calls m ->
                           n = cacheName (locationScope P))
             /\ (forall n, DeleteDatabase n ∈ calls m ->
                           n = dbName (locationScope P))) ->
            let m' := runM P evs m in
            count isCachesDelete (calls m') = count isUnregister (calls m')
            /\ count isDeleteDatabase (calls m') = count isUnregister (calls m')
            /\ (forall n, CachesDelete n ∈ calls m' ->
                          n = cacheName (locationScope P))
            /\ (forall n, DeleteDatabase n ∈ calls m' ->
                          n = dbName (locationScope P))).
  { induction evs as [|ev evs IH]; intros m Hm; [exact Hm|].
    cbv zeta. rewrite runM_cons. apply IH.
    assert (Hblock : forall r,
              let cs := (calls m ++ Unregister r :: cleanupCachedData P)%list in
              count isCachesDelete cs = count isUnregister cs
              /\ count isDeleteDatabase cs = count isUnregister cs
              /\ (forall n, CachesDelete n ∈ cs -> n = cacheName (locationScope P))
              /\ (forall n, DeleteDatabase n ∈ cs -> n = dbName (locationScope P))).
    { intros r. cbv zeta. destruct Hm as (H1 & H2 & H3 & H4).
      rewrite !count_app, H1, H2. repeat split.
      - intros n Hn. apply elem_of_app in Hn as [Hn|Hn]; [now apply H3|].
        unfold cleanupCachedData in Hn. cbv zeta in Hn.
        repeat (apply elem_of_cons in Hn as [Hn|Hn]; [try discriminate Hn|]).
        + now injection Hn as ->.
        + now apply elem_of_nil in Hn.
      - intros n Hn. apply elem_of_app in Hn as [Hn|Hn]; [now apply H4|].
        unfold cleanupCachedData in Hn. cbv zeta in Hn.
        repeat (apply elem_of_cons in Hn as [Hn|Hn]; [try discriminate Hn|]).
        + now injection Hn as ->.
        + now apply elem_of_nil in Hn. }
    assert (Hquiet : forall c,
              isCachesDelete c = false -> isDeleteDatabase c = false ->
              isUnregister c = false ->
              let cs := (calls m ++ [c])%list in
              count isCachesDelete cs = count isUnregister cs
              /\ count isDeleteDatabase cs = count isUnregister cs
              /\ (forall n, CachesDelete n ∈ cs -> n = cacheName (locationScope P))
              /\ (forall n, DeleteDatabase n ∈ cs -> n = dbName (locationScope P))).
    { intros c Hc1 Hc2 Hc3. cbv zeta. destruct Hm as (H1 & H2 & H3 & H4).
      rewrite !count_app, H1, H2. unfold count. cbn [List.filter].
      rewrite Hc1, Hc2, Hc3. repeat split.
      - intros n Hn. apply elem_of_app in Hn as [Hn|Hn]; [now apply H3|].
        apply elem_of_cons in Hn as [Hn|Hn];
          [subst c; discriminate Hc1 | now apply elem_of_nil in Hn].
      - intros n Hn. apply elem_of_app in Hn as [Hn|Hn]; [now apply H4|].
        apply elem_of_cons in Hn as [Hn|Hn];
          [subst c; discriminate Hc2 | now apply elem_of_nil in Hn]. }
    destruct ev as [value|offlineMode r|]; cbn [stepM].
    - unfold onChange. destruct value; cbn [negb].
      + now apply Hquiet.
      + destruct (registration m) as [r|]; [apply Hblock | exact Hm].
    - unfold onRegistered. destruct offlineMode; cbn [negb];
        [exact Hm | apply Hblock].
    - now apply Hquiet. }
  apply (Hgen start). repeat split; intros n Hn; now apply elem_of_nil in Hn.
Qed.

End ManagerSpec.
